(** * Bitrix24 -> PostgreSQL mirror: a shallow embedding of the sync engine

    The development follows [app.py]: the naming helpers
    ([sanitize_ident], [unique_column_name]), the cursor store
    ([get_sync_cursor], [validate_sync_cursor], [set_sync_cursor]), value
    normalisation ([normalize_value], defined twice in the module), the
    batch upsert ([upsert_rows]), the REST client ([BitrixClient.call]),
    the offset-paginated entity sync and the webhook queue with its worker.

    Conventions.
    - A Python [str] is a Rocq [string] of ASCII characters (remote field
      names, type names and event names are ASCII); the case and white-space
      functions leave code points from 128 on alone.
    - A Python [int] is a [Z]; times are seconds, in [Z].
    - A function that may raise returns [option] or a dedicated outcome
      type; [None] stands for the exception the docstring names. *)

From Stdlib Require Import ZArith Lia Ascii String SpecFloat.
From stdpp Require Import base decidable option list strings gmap fin_sets pretty sorting.

Local Open Scope string_scope.
Local Open Scope Z_scope.

(** ** Python string helpers *)

Module PyStr.

Definition code (c : ascii) : N := Ascii.N_of_ascii c.

Definition between (lo hi : N) (c : ascii) : bool :=
  ((lo <=? code c) && (code c <=? hi))%N.

(** [c.isdigit()] on ASCII. *)
Definition is_digit (c : ascii) : bool := between 48 57 c.

Definition is_lower_az (c : ascii) : bool := between 97 122 c.

(** The character class [a-z0-9_]. *)
Definition is_ident_char (c : ascii) : bool :=
  is_lower_az c || is_digit c || Ascii.eqb c "_".

(** [str.lower()] and [str.upper()], character by character: the
    ASCII letters change case, every other code point is kept. *)
Definition lower_char (c : ascii) : ascii :=
  if between 65 90 c then Ascii.ascii_of_N (code c + 32) else c.

Definition upper_char (c : ascii) : ascii :=
  if between 97 122 c then Ascii.ascii_of_N (code c - 32) else c.

Fixpoint map_chars (f : ascii -> ascii) (s : string) : string :=
  match s with
  | EmptyString => EmptyString
  | String c r => String (f c) (map_chars f r)
  end.

Definition lower (s : string) : string := map_chars lower_char s.
Definition upper (s : string) : string := map_chars upper_char s.

(** [c.isspace()] on ASCII: tab, line feed, vertical tab, form feed,
    carriage return, the four separators 0x1C-0x1F and the space. *)
Definition is_space (c : ascii) : bool :=
  between 9 13 c || between 28 32 c.

Fixpoint lstrip_by (p : ascii -> bool) (s : string) : string :=
  match s with
  | EmptyString => EmptyString
  | String c r => if p c then lstrip_by p r else s
  end.

(** [rstrip]: drop the longest suffix whose characters all satisfy [p]. *)
Fixpoint rstrip_by (p : ascii -> bool) (s : string) : string :=
  match s with
  | EmptyString => EmptyString
  | String c r =>
      match rstrip_by p r with
      | EmptyString => if p c then EmptyString else String c EmptyString
      | r' => String c r'
      end
  end.

Definition strip_by (p : ascii -> bool) (s : string) : string :=
  rstrip_by p (lstrip_by p s).

(** [s.strip()] with no argument strips white space. *)
Definition strip (s : string) : string := strip_by is_space s.

(** [s[:n]] for [n >= 0]. *)
Fixpoint str_take (n : nat) (s : string) : string :=
  match n, s with
  | O, _ => EmptyString
  | _, EmptyString => EmptyString
  | S n', String c r => String c (str_take n' r)
  end.

(** [re.sub(cls + "+", "_", s)] where [cls] is the class of characters
    satisfying [p]: every maximal run of such characters becomes one
    underscore.  [in_run] records that the previous character was part
    of the run being replaced. *)
Fixpoint sub_runs (p : ascii -> bool) (in_run : bool) (s : string) : string :=
  match s with
  | EmptyString => EmptyString
  | String c r =>
      if p c
      then if in_run then sub_runs p true r
           else String "_" (sub_runs p true r)
      else String c (sub_runs p false r)
  end.

Fixpoint all_chars (p : ascii -> bool) (s : string) : bool :=
  match s with
  | EmptyString => true
  | String c r => p c && all_chars p r
  end.

Definition is_underscore (c : ascii) : bool := Ascii.eqb c "_".

(** [s.startswith(p)]. *)
Fixpoint is_prefix (p s : string) : bool :=
  match p, s with
  | EmptyString, _ => true
  | String a p', String b s' => Ascii.eqb a b && is_prefix p' s'
  | String _ _, EmptyString => false
  end.

(** [sub in s] for strings. *)
Fixpoint contains (sub s : string) : bool :=
  is_prefix sub s ||
  match s with
  | EmptyString => false
  | String _ r => contains sub r
  end.

(** [s[n:]] for [n >= 0]. *)
Fixpoint str_skip (n : nat) (s : string) : string :=
  match n, s with
  | O, _ => s
  | _, EmptyString => EmptyString
  | S n', String _ r => str_skip n' r
  end.

End PyStr.

(** ** Naming: [sanitize_ident] and [unique_column_name] *)

Module Naming.
Import PyStr.

(** [sanitize_ident(name, max_len=55)].  The last test reads [name[0]],
    which raises [IndexError] on the empty string: that can only happen
    for [max_len = 0], and is the [None] result. *)
Definition sanitize_ident (name : string) (max_len : nat) : option string :=
  let name := lower name in
  let name := sub_runs (fun c => negb (is_ident_char c)) false name in
  let name := strip_by is_underscore (sub_runs is_underscore false name) in
  let name := if decide (name = "") then "field" else name in
  let name := if decide (max_len < String.length name)%nat
              then rstrip_by is_underscore (str_take max_len name)
              else name in
  match name with
  | EmptyString => None
  | String c _ => Some (if is_digit c then "f_" +:+ name else name)
  end.

Definition DEFAULT_MAX_LEN : nat := 55.

(** The candidate [f"{base}_{i}"]. *)
Definition suffixed (base : string) (i : nat) : string :=
  base +:+ "_" +:+ pretty i.

(** The [while f"{base}_{i}" in existing: i += 1] loop, with a bound on
    the number of iterations. *)
Fixpoint first_free (existing : gset string) (base : string)
         (fuel : nat) (i : nat) : option nat :=
  match fuel with
  | O => None
  | S fuel' =>
      if decide (suffixed base i ∈ existing)
      then first_free existing base fuel' (S i)
      else Some i
  end.

(** [unique_column_name(existing, base)]: returns the column and the
    set as mutated by [existing.add].  The loop needs at most
    [size existing + 1] iterations ([first_free_total] below). *)
Definition unique_column_name (existing : gset string) (base : string)
  : option (string * gset string) :=
  if decide (base ∈ existing)
  then i ← first_free existing base (S (size existing)) 2;
       Some (suffixed base i, {[suffixed base i]} ∪ existing)
  else Some (base, {[base]} ∪ existing).

(** The columns every entity table starts with ([sync_schema]). *)
Definition base_columns : gset string :=
  {[ "id"; "raw"; "created_at"; "updated_at" ]}.

(** The loop of [sync_schema] over [fields.keys()], in declaration
    order: [colmap[f] = unique_column_name(existing_cols, sanitize_ident(f))].
    The result lists the assignments in the order they were made. *)
Fixpoint assign_columns (existing : gset string) (fields : list string)
  : option (list (string * string)) :=
  match fields with
  | [] => Some []
  | f :: rest =>
      base ← sanitize_ident f DEFAULT_MAX_LEN;
      '(col, existing') ← unique_column_name existing base;
      tl ← assign_columns existing' rest;
      Some ((f, col) :: tl)
  end.

Definition build_colmap (fields : list string) : option (list (string * string)) :=
  assign_columns base_columns fields.

(** The shape of a storage-safe identifier: characters of [a-z0-9_]
    only, and a lower-case letter in front. *)
Definition storage_safe (s : string) : Prop :=
  all_chars is_ident_char s = true /\
  exists c r, s = String c r /\ is_lower_az c = true.

(** The rule one assignment follows, [taken] being the names written
    so far (the base columns and the columns assigned before): the
    sanitized name itself when nobody has written it, and otherwise the
    first free [name_i] from [i = 2] on. *)
Definition naming_rule (taken : gset string) (f c : string) : Prop :=
  exists base,
    sanitize_ident f DEFAULT_MAX_LEN = Some base /\ storage_safe base
    /\ (base ∉ taken -> c = base)
    /\ (base ∈ taken ->
        exists i, (2 <= i)%nat /\ c = suffixed base i /\
                  forall j, (2 <= j < i)%nat -> suffixed base j ∈ taken).

End Naming.

(** ** Python values *)

Module Py.
Import PyStr.

(** The values that travel between the REST client, the mapping code
    and the database adapter: JSON data, [psycopg2.extras.Json]
    wrappers and time stamps. *)
#[warnings="-register-all"] Inductive pyval : Type :=
| PNone
| PBool (b : bool)
| PInt (z : Z)
| PFloat (f : spec_float)
| PStr (s : string)
| PList (l : list pyval)
| PDict (d : list (string * pyval))
| PJson (v : pyval)
| PDatetime (t : Z).

(** Built-ins of the Python runtime whose result is not computed here:
    [float(s)] on a string ([None] when it raises [ValueError]) and
    [str(v)] on a value that is not a string. *)
Class Builtins := {
  float_of_str : string -> option spec_float;
  repr : pyval -> string
}.

(** [d.get(k)] on a dict whose keys are pairwise distinct. *)
Fixpoint dict_get (d : list (string * pyval)) (k : string) : option pyval :=
  match d with
  | [] => None
  | (k', v) :: rest => if String.eqb k' k then Some v else dict_get rest k
  end.

Definition dict_has (d : list (string * pyval)) (k : string) : bool :=
  match dict_get d k with Some _ => true | None => false end.

(** [v.get(k)] returning Python's [None] for a missing key. *)
Definition get_or_none (d : list (string * pyval)) (k : string) : pyval :=
  match dict_get d k with Some v => v | None => PNone end.

(** Truth value testing ([if v:], [not v], [a or b]). *)
Definition truthy (v : pyval) : bool :=
  match v with
  | PNone => false
  | PBool b => b
  | PInt z => negb (z =? 0)
  | PFloat (S754_zero _) => false
  | PFloat _ => true
  | PStr s => negb (String.eqb s "")
  | PList l => match l with [] => false | _ => true end
  | PDict d => match d with [] => false | _ => true end
  | PJson _ => true
  | PDatetime _ => true
  end.

(** [a or b]. *)
Definition py_or (a b : pyval) : pyval := if truthy a then a else b.

Definition is_dict_or_list (v : pyval) : bool :=
  match v with PList _ | PDict _ => true | _ => false end.

(** Digits of an [int] literal: groups of digits separated by single
    underscores. *)
Fixpoint digits_value (s : string) (acc : Z) (prev_digit : bool) : option Z :=
  match s with
  | EmptyString => if prev_digit then Some acc else None
  | String c r =>
      if is_digit c
      then digits_value r (10 * acc + (Z.of_N (code c) - 48)) true
      else if is_underscore c
           then if prev_digit then digits_value r acc false else None
           else None
  end.

(** [int(s)] for a string, base 10; [None] is [ValueError]. *)
Definition parse_int (s : string) : option Z :=
  match strip s with
  | String "-" r => Z.opp <$> digits_value r 0 false
  | String "+" r => digits_value r 0 false
  | s' => digits_value s' 0 false
  end.

(** [int(f)] for a float: truncation towards zero; [None] for the
    infinities and NaN ([OverflowError], [ValueError]). *)
Definition int_of_float (f : spec_float) : option Z :=
  match f with
  | S754_zero _ => Some 0
  | S754_finite sign m e =>
      let mag := if 0 <=? e then Z.pos m * 2 ^ e else Z.pos m / 2 ^ (- e) in
      Some (if sign then - mag else mag)
  | S754_infinity _ | S754_nan => None
  end.

(** [int(v)]; [None] when it raises. *)
Definition py_int (v : pyval) : option Z :=
  match v with
  | PInt z => Some z
  | PBool b => Some (if b then 1 else 0)
  | PStr s => parse_int s
  | PFloat f => int_of_float f
  | _ => None
  end.

(** [str(z)] for an [int]. *)
Definition str_of_int (z : Z) : string := pretty z.

Section WithBuiltins.
Context {B : Builtins}.

(** [str(v)]. *)
Definition py_str (v : pyval) : string :=
  match v with
  | PStr s => s
  | PInt z => str_of_int z
  | PNone => "None"
  | PBool true => "True"
  | PBool false => "False"
  | _ => repr v
  end.

(** [_extract_int(v)]: every exception is turned into [None]. *)
Definition _extract_int (v : pyval) : option Z :=
  match v with
  | PNone => None
  | PBool _ => None
  | PInt z => Some z
  | _ =>
      let s := strip (py_str v) in
      if String.eqb s "" then None
      else f ← float_of_str s; int_of_float f
  end.
End WithBuiltins.

End Py.

(** ** Value normalisation: the two definitions of [normalize_value] *)

Module Normalize.
Import PyStr Py.

Definition str_in (s : string) (l : list string) : bool :=
  existsb (String.eqb s) l.

Definition TEXT_TYPES : list string := ["string"; "text"; "char"].
Definition BOOL_TYPES : list string := ["boolean"; "bool"].
Definition FLOAT_TYPES : list string :=
  ["double"; "double precision"; "float"; "float8"; "number"; "numeric"].
Definition INT_TYPES : list string := ["integer"; "int"; "int4"; "int8"].
Definition NUMERIC_TYPES : list string := FLOAT_TYPES ++ INT_TYPES.

(** [isinstance(v, str) and not v.strip()]. *)
Definition is_blank_str (v : pyval) : bool :=
  match v with
  | PStr s => String.eqb (strip s) ""
  | _ => false
  end.

(** The part both definitions share: multiple-valued fields and
    dict/list values are wrapped in [Json]. *)
Definition wrap_multiple (v : pyval) : pyval :=
  match v with
  | PNone => PNone
  | PList _ | PDict _ => PJson v
  | _ => PJson (PList [v])
  end.

Fixpoint replace_char (a b : ascii) (s : string) : string :=
  match s with
  | EmptyString => EmptyString
  | String c r => String (if Ascii.eqb c a then b else c) (replace_char a b r)
  end.

Definition float_one : spec_float := S754_finite false 1 0.
Definition float_zero : spec_float := S754_zero false.

Section WithBuiltins.
Context {B : Builtins}.

(** The first definition (the one with the boolean and numeric
    parsing), at its place in the module text. *)
Definition normalize_value_1 (v : pyval) (b24_type : option string)
           (is_multiple : bool) : pyval :=
  if is_multiple then wrap_multiple v
  else if is_dict_or_list v then PJson v
  else
    let bt := strip (lower (default "" b24_type)) in
    if is_blank_str v
    then if negb (str_in bt TEXT_TYPES) then PNone else v
    else
      let after_bool : option pyval :=
        if str_in bt BOOL_TYPES
        then match v with
             | PStr sv =>
                 let s := lower (strip sv) in
                 if str_in s ["y"; "yes"; "true"; "1"; "on"] then Some (PBool true)
                 else if str_in s ["n"; "no"; "false"; "0"; "off"] then Some (PBool false)
                 else None
             | _ => None
             end
        else None in
      match after_bool with
      | Some r => r
      | None =>
          match v with
          | PBool b =>
              if str_in bt NUMERIC_TYPES
              then if str_in bt FLOAT_TYPES
                   then PFloat (if b then float_one else float_zero)
                   else PInt (if b then 1 else 0)
              else v
          | PStr sv =>
              if str_in bt NUMERIC_TYPES
              then
                let s := replace_char "," "." (strip sv) in
                match float_of_str s with
                | None => v
                | Some f =>
                    if str_in bt INT_TYPES
                    then match int_of_float f with
                         | Some z => PInt z
                         | None => v
                         end
                    else PFloat f
                end
              else v
          | _ => v
          end
      end.
End WithBuiltins.

(** The second definition, further down in the module text. *)
Definition normalize_value_2 (v : pyval) (b24_type : option string)
           (is_multiple : bool) : pyval :=
  if is_multiple then wrap_multiple v
  else if is_dict_or_list v then PJson v
  else if is_blank_str v
       then match b24_type with
            | None => PNone
            | Some t =>
                if String.eqb t "" || negb (str_in (lower t) TEXT_TYPES)
                then PNone else v
            end
       else v.

(** A field type that is not one of the text types, as the second
    definition tests it ([not b24_type or b24_type.lower() not in ...]). *)
Definition non_text_type (b24_type : option string) : bool :=
  match b24_type with
  | None => true
  | Some t => String.eqb t "" || negb (str_in (lower t) TEXT_TYPES)
  end.

(** The module namespace: executing a [def] statement binds (or
    rebinds) the name; a call looks the name up when it runs, after the
    whole module text has been executed. *)
Definition normalizer : Type := pyval -> option string -> bool -> pyval.

Definition exec_def (ns : gmap string normalizer) (name : string)
           (f : normalizer) : gmap string normalizer :=
  <[name := f]> ns.

Section WithBuiltins.
Context {B : Builtins}.

Definition module_namespace : gmap string normalizer :=
  exec_def (exec_def ∅ "normalize_value" normalize_value_1)
           "normalize_value" normalize_value_2.

(** What a call [normalize_value(v, b24_type, is_multiple)] made by
    the sync code evaluates to. *)
Definition normalize_value (v : pyval) (b24_type : option string)
           (is_multiple : bool) : pyval :=
  match module_namespace !! "normalize_value" with
  | Some f => f v b24_type is_multiple
  | None => PNone
  end.
End WithBuiltins.

End Normalize.

(** ** The relational store *)

Module Db.
Import PyStr Py.

(** A row of [b24_meta_fields], with the columns [load_entity_colmap]
    reads. *)
Record meta_field := {
  mf_entity_key : string;
  mf_b24_field : string;
  mf_column_name : string;
  mf_b24_type : option string;
  mf_is_multiple : bool
}.

(** A row of an entity table: column name to stored value; a column
    that is absent from the map holds SQL NULL.  The store keeps the
    value the adapter was given. *)
Abbreviation row := (gmap string pyval).

Record table := {
  t_columns : gset string;
  t_rows : list row
}.

(** A row of [public.b24_webhook_queue]. *)
Record wh_event := {
  q_id : Z;
  q_entity_key : string;
  q_entity_id : Z;
  q_event_name : option string;
  q_event : option string;
  q_payload : pyval;
  q_status : string;
  q_attempts : Z;
  q_last_error : option string;
  q_next_run_at : option Z;
  q_received_at : Z;
  q_processed_at : option Z
}.

Record db := {
  meta_fields : list meta_field;
  sync_state : gmap string (option string);
  tables : gmap string table;
  queue : list wh_event;
  queue_seq : Z
}.

Definition with_sync_state (d : db) (s : gmap string (option string)) : db :=
  {| meta_fields := meta_fields d; sync_state := s; tables := tables d;
     queue := queue d; queue_seq := queue_seq d |}.

Definition with_tables (d : db) (t : gmap string table) : db :=
  {| meta_fields := meta_fields d; sync_state := sync_state d; tables := t;
     queue := queue d; queue_seq := queue_seq d |}.

Definition with_queue (d : db) (q : list wh_event) (seq : Z) : db :=
  {| meta_fields := meta_fields d; sync_state := sync_state d;
     tables := tables d; queue := q; queue_seq := seq |}.

(** The [id BIGINT] column of a stored row. *)
Definition row_id (r : row) : option Z :=
  match r !! "id" with
  | Some (PInt z) => Some z
  | _ => None
  end.

(** What a column holds after [v] was written to it: Python's [None]
    is SQL NULL. *)
Definition stored (v : pyval) : option pyval :=
  match v with PNone => None | _ => Some v end.

(** Storing [v] in column [c]. *)
Definition write (c : string) (v : pyval) (r : row) : row :=
  match v with
  | PNone => delete c r
  | _ => <[c := v]> r
  end.

(** [SELECT MAX(id) FROM table]: NULL ([None]) on a table without ids. *)
Definition max_id (t : table) : option Z :=
  foldr (fun r acc =>
           match row_id r, acc with
           | Some z, Some m => Some (Z.max z m)
           | Some z, None => Some z
           | None, _ => acc
           end) None (t_rows t).

End Db.

(** ** The cursor store *)

Module Cursor.
Import Py Db.

(** [get_sync_cursor]: a missing row, a NULL cursor or a cursor text
    that [int] rejects all read as 0. *)
Definition get_sync_cursor (d : db) (entity_key : string) : Z :=
  match sync_state d !! entity_key with
  | Some (Some txt) => default 0 (parse_int txt)
  | _ => 0
  end.

(** [set_sync_cursor]: the cursor is stored as [str(int(cursor))]. *)
Definition set_sync_cursor (d : db) (entity_key : string) (cursor : Z) : db :=
  with_sync_state d (<[entity_key := Some (str_of_int cursor)]> (sync_state d)).

Definition SAFETY_MARGIN : Z := 1000.

(** [validate_sync_cursor]: returns the store and the cursor to start
    from.  The [SELECT MAX(id)] raises when the table does not exist;
    the handler then returns the stored cursor as it is. *)
Definition validate_sync_cursor (d : db) (entity_key table_name : string)
  : db * Z :=
  let last_id := get_sync_cursor d entity_key in
  if last_id =? 0 then (d, 0)
  else
    match tables d !! table_name with
    | None => (d, last_id)
    | Some t =>
        let max_db_id := default 0 (max_id t) in
        if max_db_id + SAFETY_MARGIN <? last_id
        then (set_sync_cursor d entity_key 0, 0)
        else (d, last_id)
    end.

End Cursor.

(** ** Batch upsert *)

Module Upsert.
Import Py Db.

(** Removing duplicate column names, first occurrence kept. *)
Fixpoint dedup_columns (seen : gset string) (columns : list string) : list string :=
  match columns with
  | [] => []
  | c :: rest =>
      if decide (c ∈ seen) then dedup_columns seen rest
      else c :: dedup_columns ({[c]} ∪ seen) rest
  end.

Definition NOT_SET : list string := ["id"; "created_at"; "updated_at"].

(** The columns of the [DO UPDATE SET ... = EXCLUDED....] list. *)
Definition set_cols (col_order : list string) : list string :=
  filter (fun c => c ∉ NOT_SET) col_order.

(** Writing the listed columns of a proposed row into a stored row. *)
Definition write_cols (cols : list string) (proposed : row) (r : row) : row :=
  foldl (fun acc c => write c (default PNone (proposed !! c)) acc) r cols.

(** The proposed row of a [VALUES] tuple: one value per column. *)
Definition proposed_row (col_order : list string) (vals : list pyval) : row :=
  list_to_map (zip col_order vals).

(** The value offered for the [id BIGINT] column: an integer, or NULL
    when the column is not listed or is [None].  The mapping code
    always builds it with [int(...)]; a value of another type is
    rejected. *)
Definition proposed_id (col_order : list string) (proposed : row)
  : option (option Z) :=
  if decide ("id" ∈ col_order)
  then match proposed !! "id" with
       | Some (PInt z) => Some (Some z)
       | Some PNone | None => Some None
       | Some _ => None
       end
  else Some None.

(** The row [INSERT] creates when there is no conflict: the listed
    columns, and [now()] for the two time stamps when they are not
    listed. *)
Definition inserted_row (now : Z) (col_order : list string) (proposed : row) : row :=
  let with_defaults : row :=
    <["created_at" := PDatetime now]> (<["updated_at" := PDatetime now]> ∅) in
  write_cols col_order proposed with_defaults.

(** The row [ON CONFLICT ("id") DO UPDATE] leaves. *)
Definition updated_row (now : Z) (col_order : list string) (proposed : row)
           (r : row) : row :=
  <["updated_at" := PDatetime now]> (write_cols (set_cols col_order) proposed r).

Definition has_id (z : Z) (rows : list row) : bool :=
  existsb (fun r => bool_decide (row_id r = Some z)) rows.

(** One [VALUES] tuple against the stored rows. *)
Definition upsert_one (now : Z) (col_order : list string) (rows : list row)
           (id : option Z) (proposed : row) : list row :=
  match id with
  | Some z =>
      if has_id z rows
      then (fun r => if bool_decide (row_id r = Some z)
                     then updated_row now col_order proposed r else r) <$> rows
      else rows ++ [inserted_row now col_order proposed]
  | None => rows ++ [inserted_row now col_order proposed]
  end.

(** One [INSERT ... VALUES ... ON CONFLICT] statement for one page.
    It fails ([None]) when a tuple does not have one value per column,
    when a column is not in the table, when an id is not an integer,
    or when two tuples of the page carry the same id (the command
    cannot affect a row a second time). *)
Fixpoint run_page (now : Z) (col_order : list string) (cols_ok : bool)
         (seen : gset Z) (rows : list row) (page : list (list pyval))
  : option (list row) :=
  match page with
  | [] => Some rows
  | vals :: rest =>
      if negb cols_ok then None
      else if negb (length vals =? length col_order)%nat then None
      else
        let proposed := proposed_row col_order vals in
        match proposed_id col_order proposed with
        | None => None
        | Some id =>
            match id with
            | Some z =>
                if decide (z ∈ seen) then None
                else run_page now col_order cols_ok ({[z]} ∪ seen)
                              (upsert_one now col_order rows id proposed) rest
            | None =>
                run_page now col_order cols_ok seen
                         (upsert_one now col_order rows id proposed) rest
            end
        end
  end.

Definition PAGE_SIZE : nat := 500.

(** [execute_values(..., page_size=500)]: the rows go out in pages. *)
Fixpoint pages (fuel : nat) (l : list (list pyval)) : list (list (list pyval)) :=
  match fuel with
  | O => []
  | S fuel' =>
      match l with
      | [] => []
      | _ => take PAGE_SIZE l :: pages fuel' (drop PAGE_SIZE l)
      end
  end.

Fixpoint run_pages (now : Z) (col_order : list string) (cols_ok : bool)
         (rows : list row) (ps : list (list (list pyval))) : option (list row) :=
  match ps with
  | [] => Some rows
  | p :: rest =>
      rows' ← run_page now col_order cols_ok ∅ rows p;
      run_pages now col_order cols_ok rows' rest
  end.

(** Every listed column exists in the table. *)
Definition columns_ok (t : table) (col_order : list string) : bool :=
  forallb (fun c => bool_decide (c ∈ t_columns t)) col_order.

(** [upsert_rows(conn, table, columns, rows)] at time [now].  [None]
    is an exception: nothing is committed. *)
Definition upsert_rows (now : Z) (d : db) (table_name : string)
           (columns : list string) (rows : list (list pyval)) : option db :=
  match rows with
  | [] => Some d
  | _ =>
      let col_order := dedup_columns ∅ columns in
      t ← tables d !! table_name;
      rows' ← run_pages now col_order (columns_ok t col_order) (t_rows t)
                        (pages (length rows) rows);
      Some (with_tables d (<[table_name :=
               {| t_columns := t_columns t; t_rows := rows' |}]> (tables d)))
  end.

(** The store with the [updated_at] column left out of every row. *)
Definition forget_updated_at (d : db) : db :=
  with_tables d
    ((fun t => {| t_columns := t_columns t;
                  t_rows := delete "updated_at" <$> t_rows t |}) <$> tables d).

(** A mapped record row: the tuple carries the remote id in its [id]
    column. *)
Definition carries_id (columns : list string) (vals : list pyval) : Prop :=
  let col_order := dedup_columns ∅ columns in
  exists z, proposed_id col_order (proposed_row col_order vals) = Some (Some z).

End Upsert.

(** ** The REST client *)

Module Client.
Import PyStr Py.

(** What one [requests.post] gives: a transport error
    ([requests.RequestException]), or a response with its status code
    and the result of [r.json()] ([None] when the body is not JSON). *)
Inductive http_result :=
| TransportError
| HttpResponse (status : Z) (json : option pyval).

(** Why [call] raised [HTTPException(status_code=502)]. *)
Inductive failure :=
| BadStatus (status : Z)
| RemoteError (err : string)
| RetryLimit.

Inductive call_outcome :=
| Returned (data : pyval)
| HTTPException (why : failure)
| OtherException.

Definition OVERLOAD_LIMIT : string := "OVERLOAD_LIMIT".

(** [{"error": "OVERLOAD_LIMIT", "result": []}]. *)
Definition overload_result : pyval :=
  PDict [("error", PStr OVERLOAD_LIMIT); ("result", PList [])].

(** The explicit overload signal: the error [OVERLOAD_LIMIT] in the
    JSON body of an HTTP 401 or of an HTTP 200 response. *)
Definition reports_overload (r : http_result) : Prop :=
  match r with
  | HttpResponse status (Some (PDict d)) =>
      (status = 401 \/ status = 200)
      /\ dict_get d "error" = Some (PStr OVERLOAD_LIMIT)
  | _ => False
  end.

(** What happens after a response was taken: return, raise, or sleep
    [BITRIX_BACKOFF_BASE_SEC * 2 ** attempt] and go round again. *)
Inductive verdict :=
| Done (o : call_outcome)
| Backoff.

Section WithBuiltins.
Context {B : Builtins}.

(** The test of the HTTP 401 branch; every exception inside it is
    swallowed by the bare [except]. *)
Definition overload_in_401 (json : option pyval) : bool :=
  match json with
  | Some (PDict d) =>
      dict_has d "error" &&
      String.eqb (py_str (get_or_none d "error")) OVERLOAD_LIMIT
  | _ => false
  end.

(** The body of the [for attempt in range(BITRIX_MAX_RETRIES)] loop.
    [r.json()] failing on a 200 response raises
    [requests.exceptions.JSONDecodeError], a [RequestException]. *)
Definition attempt_verdict (r : http_result) : verdict :=
  match r with
  | TransportError => Backoff
  | HttpResponse status json =>
      if status =? 429 then Backoff
      else if status =? 401 then
        if overload_in_401 json then Done (Returned overload_result)
        else Done (HTTPException (BadStatus status))
      else if negb (status =? 200) then Done (HTTPException (BadStatus status))
      else
        match json with
        | None => Backoff
        | Some (PDict d) =>
            if dict_has d "error" then
              let err := py_str (get_or_none d "error") in
              if String.eqb err OVERLOAD_LIMIT
              then Done (Returned overload_result)
              else if String.eqb err "OPERATION_TIME_LIMIT"
                      || String.eqb err "QUERY_LIMIT_EXCEEDED"
                      || contains "LIMIT" err
                   then Backoff
                   else Done (HTTPException (RemoteError err))
            else Done (Returned (PDict d))
        | Some (PList l) =>
            if existsb (fun x => match x with
                                 | PStr s => String.eqb s "error"
                                 | _ => false
                                 end) l
            then Done OtherException
            else Done (Returned (PList l))
        | Some (PStr s) =>
            if contains "error" s then Done OtherException
            else Done (Returned (PStr s))
        | Some _ => Done OtherException
        end
  end.

(** [BitrixClient.call]: [server attempt] is what the remote side
    answers to the request number [attempt] of this call.  The second
    component lists the attempts after which the client slept for its
    back-off. *)
Fixpoint call_from (server : nat -> http_result) (remaining attempt : nat)
  : call_outcome * list nat :=
  match remaining with
  | O => (HTTPException RetryLimit, [])
  | S remaining' =>
      match attempt_verdict (server attempt) with
      | Done o => (o, [])
      | Backoff =>
          let '(o, slept) := call_from server remaining' (S attempt) in
          (o, attempt :: slept)
      end
  end.

Definition call (max_retries : nat) (server : nat -> http_result)
  : call_outcome * list nat :=
  call_from server max_retries 0.

(** The answer is one the client takes up again after its back-off:
    a transport error, HTTP 429, a body that is not JSON, or one of
    the limit errors other than [OVERLOAD_LIMIT]. *)
Definition retried (r : http_result) : Prop := attempt_verdict r = Backoff.

(** The guard every list helper ([b24_list_contacts], ...) applies to
    the client's answer:
    [if resp and "error" in resp and resp.get("error") == "OVERLOAD_LIMIT"]
    turns the overload answer into [{"result": []}].  [None] is the
    exception the test raises on a value that is neither a dict, a
    list nor a string. *)
Definition list_helper_answer (resp : pyval) : option pyval :=
  if negb (truthy resp) then Some resp
  else
    match resp with
    | PDict d =>
        match dict_get d "error" with
        | Some (PStr e) =>
            if String.eqb e OVERLOAD_LIMIT
            then Some (PDict [("result", PList [])]) else Some resp
        | _ => Some resp
        end
    | PList l =>
        if existsb (fun x => match x with
                             | PStr s => String.eqb s "error"
                             | _ => false
                             end) l
        then None else Some resp
    | PStr s => if contains "error" s then None else Some resp
    | _ => None
    end.
End WithBuiltins.

End Client.

(** ** Entity tables and the mapping of one remote record *)

Module Mapping.
Import PyStr Py Db Naming Normalize.

(** [table_name_for_entity]. *)
Definition table_name_for_entity (entity_key : string) : option string :=
  if String.eqb entity_key "deal" then Some "b24_crm_deal"
  else if String.eqb entity_key "contact" then Some "b24_crm_contact"
  else if String.eqb entity_key "lead" then Some "b24_crm_lead"
  else if is_prefix "sp:" entity_key
       then s ← sanitize_ident (str_skip 3 entity_key) 20;
            Some ("b24_sp_" +:+ s)
       else s ← sanitize_ident entity_key DEFAULT_MAX_LEN;
            Some ("b24_" +:+ s).

(** [load_entity_colmap]: the rows of [b24_meta_fields] of the entity. *)
Definition load_entity_colmap (d : db) (entity_key : string) : list meta_field :=
  filter (fun m => mf_entity_key m = entity_key) (meta_fields d).

Fixpoint insert_sorted (x : string) (l : list string) : list string :=
  match l with
  | [] => [x]
  | y :: r =>
      match String.compare x y with
      | Lt => x :: l
      | Eq => l
      | Gt => y :: insert_sorted x r
      end
  end.

(** [sorted({...})]: the distinct names in increasing order. *)
Definition sorted_set (l : list string) : list string :=
  foldr insert_sorted [] l.

(** [["id", "raw"] + sorted({m["column_name"] for m in colmap.values()})]. *)
Definition col_order_of (colmap : list meta_field) : list string :=
  "id" :: "raw" :: sorted_set (mf_column_name <$> colmap).

Abbreviation item := (list (string * pyval)).

Definition nested_fields (it : item) : option item :=
  match dict_get it "fields" with
  | Some (PDict f) => Some f
  | _ => None
  end.

Definition in_nested (it : item) (k : string) : option pyval :=
  f ← nested_fields it; dict_get f k.

Definition first_some (l : list (option pyval)) : pyval :=
  default PNone (list_find is_Some l ≫= (fun p => p.2)).

(** Where the value of a remote field is looked for; the order differs
    between the sync of contacts and leads, the sync of smart-process
    items and the webhook worker. *)
Inductive lookup_style := FlatLookup | NestedLookup | WebhookLookup.

Definition field_value (style : lookup_style) (it : item) (f : string) : pyval :=
  match style with
  | FlatLookup =>
      first_some [dict_get it f; dict_get it (upper f); dict_get it (lower f)]
  | NestedLookup =>
      first_some [dict_get it f; in_nested it f;
                  dict_get it (upper f); dict_get it (lower f);
                  in_nested it (upper f); in_nested it (lower f)]
  | WebhookLookup =>
      first_some [dict_get it f; dict_get it (upper f); dict_get it (lower f);
                  in_nested it f]
  end.

Section WithBuiltins.
Context {B : Builtins}.

(** The loop [for b24_field, meta in colmap.items()] filling the row
    dict. *)
Definition fill_row (style : lookup_style) (colmap : list meta_field)
           (it : item) (r : gmap string pyval) : gmap string pyval :=
  foldl (fun acc m =>
           match field_value style it (mf_b24_field m) with
           | PNone => acc
           | v => <[mf_column_name m :=
                      normalize_value v (mf_b24_type m) (mf_is_multiple m)]> acc
           end) r colmap.

(** [[row.get(c) for c in col_order]]. *)
Definition row_values (col_order : list string) (r : gmap string pyval)
  : list pyval :=
  (fun c => default PNone (r !! c)) <$> col_order.
End WithBuiltins.

End Mapping.

(** ** Offset-paginated sync of contacts, leads and smart-process items *)

Module Sync.
Import PyStr Py Db Cursor Upsert Client Mapping.

Definition dicts_of (l : list pyval) : list item :=
  omap (fun x => match x with PDict d => Some d | _ => None end) l.

(** [int(x) if x is not None else None]; the outer [None] is the
    exception [int] raises. *)
Definition opt_int (x : pyval) : option (option Z) :=
  match x with
  | PNone => Some None
  | _ => z ← py_int x; Some (Some z)
  end.

(** [normalize_list_result(resp)]: the records of a page and the
    server's [next] token. *)
Definition normalize_list_result (resp : pyval)
  : option (list item * option Z) :=
  match resp with
  | PNone => Some ([], None)
  | PList l => Some (dicts_of l, None)
  | PDict d =>
      let top_next := get_or_none d "next" in
      match get_or_none d "result" with
      | PList l => nxt ← opt_int top_next; Some (dicts_of l, nxt)
      | PDict inner =>
          let items :=
            py_or (py_or (get_or_none inner "items") (get_or_none inner "result"))
                  (PList []) in
          let items := match items with PList l => dicts_of l | _ => [] end in
          let inner_next := get_or_none inner "next" in
          let nxt := match inner_next with PNone => top_next | _ => inner_next end in
          nxt' ← opt_int nxt; Some (items, nxt')
      | _ => Some ([], None)
      end
  | _ => Some ([], None)
  end.

Inductive entity := Contact | Lead | Smart (entity_type_id : Z).

Definition entity_key_of (e : entity) : string :=
  match e with
  | Contact => "contact"
  | Lead => "lead"
  | Smart etid => "sp:" +:+ str_of_int etid
  end.

Definition style_of (e : entity) : lookup_style :=
  match e with Smart _ => NestedLookup | _ => FlatLookup end.

(** [it.get("ID") or it.get("id")], the other way round for smart
    processes. *)
Definition item_id (e : entity) (it : item) : pyval :=
  match e with
  | Smart _ => py_or (get_or_none it "id") (get_or_none it "ID")
  | _ => py_or (get_or_none it "ID") (get_or_none it "id")
  end.

Definition _is_unlimited (limit : Z) : bool := limit <=? 0.

Section WithBuiltins.
Context {B : Builtins}.

(** The rows built from a page; records without an id are skipped;
    [None] when [int(id)] raises. *)
Fixpoint build_rows (e : entity) (colmap : list meta_field)
         (col_order : list string) (items : list item)
  : option (list (list pyval)) :=
  match items with
  | [] => Some []
  | it :: rest =>
      let idv := item_id e it in
      if negb (truthy idv) then build_rows e colmap col_order rest
      else
        z ← py_int idv;
        let r := fill_row (style_of e) colmap it
                   (<["raw" := PJson (PDict it)]> (<["id" := PInt z]> ∅)) in
        tl ← build_rows e colmap col_order rest;
        Some (row_values col_order r :: tl)
  end.

(** [rows[-1][col_order.index("id")]]. *)
Definition last_row_id (rows : list (list pyval)) : option pyval :=
  last rows ≫= head.

Inductive step_result :=
| Continue (d : db) (last_offset total : Z)
| Break (d : db) (total : Z)
| Raised (d : db).

(** One turn of the [while True] loop, from the answer of the client
    on: [now] is the time of the upsert. *)
Definition sync_step (e : entity) (table_name : string)
           (colmap : list meta_field) (col_order : list string) (limit : Z)
           (d : db) (last_offset total : Z) (now : Z) (answer : call_outcome)
  : step_result :=
  let ek := entity_key_of e in
  match answer with
  | Returned resp =>
      match list_helper_answer resp ≫= normalize_list_result with
      | None => Raised d
      | Some (items, nxt) =>
          match items with
          | [] => Break (set_sync_cursor d ek
                           (if 0 <? last_offset then last_offset else 0)) total
          | _ =>
              match build_rows e colmap col_order items with
              | None => Raised d
              | Some rows =>
                  match upsert_rows now d table_name col_order rows with
                  | None => Raised d
                  | Some d1 =>
                      let total := total + Z.of_nat (length rows) in
                      match nxt with
                      | Some n =>
                          let d2 := set_sync_cursor d1 ek n in
                          if negb (_is_unlimited limit) && (limit <=? total)
                          then Break d2 total
                          else Continue d2 n total
                      | None =>
                          match last_row_id rows with
                          | Some idv =>
                              match (if truthy idv then py_int idv
                                     else Some last_offset) with
                              | Some c => Break (set_sync_cursor d1 ek c) total
                              | None => Raised d1
                              end
                          | None =>
                              Break (set_sync_cursor d1 ek last_offset) total
                          end
                      end
                  end
              end
          end
      end
  | _ => Raised d
  end.

Definition step_db (r : step_result) : db :=
  match r with Continue d _ _ | Break d _ | Raised d => d end.

(** The reading of the specification: what is persisted after a step
    is the [next] token of the server's answer. *)
Definition cursor_is_next_token (resp : pyval) (d' : db) (ek : string) : Prop :=
  exists items n,
    (list_helper_answer resp ≫= normalize_list_result) = Some (items, Some n)
    /\ sync_state d' !! ek = Some (Some (str_of_int n)).

(** The result of a sync call: the store, [rows_upserted], and the
    [start] parameters of the requests that were sent. *)
Inductive sync_result :=
| Finished (d : db) (rows_upserted : Z) (starts : list Z)
| Failed (d : db) (starts : list Z).

Definition starts_of (r : sync_result) : list Z :=
  match r with Finished _ _ l | Failed _ l => l end.

Definition db_of (r : sync_result) : db :=
  match r with Finished d _ _ | Failed d _ => d end.

Definition add_start (s : Z) (r : sync_result) : sync_result :=
  match r with
  | Finished d n l => Finished d n (s :: l)
  | Failed d l => Failed d (s :: l)
  end.

(** The loop: [remote] lists, in order, the time and the client's
    answer for each request the time budget leaves room for. *)
Fixpoint sync_loop (e : entity) (table_name : string)
         (colmap : list meta_field) (col_order : list string) (limit : Z)
         (d : db) (last_offset total : Z) (remote : list (Z * call_outcome))
  : sync_result :=
  match remote with
  | [] => Finished d total []
  | (now, answer) :: rest =>
      add_start last_offset
        match sync_step e table_name colmap col_order limit d
                        last_offset total now answer with
        | Continue d' off' total' =>
            sync_loop e table_name colmap col_order limit d' off' total' rest
        | Break d' total' => Finished d' total' []
        | Raised d' => Failed d' []
        end
  end.

(** [sync_entity_data_contact], [sync_entity_data_lead] and
    [sync_entity_data_smart].  [ensure_pk_index] raises when the table
    does not exist. *)
Definition sync_entity_data (e : entity) (limit : Z) (d : db)
           (remote : list (Z * call_outcome)) : sync_result :=
  let ek := entity_key_of e in
  match table_name_for_entity ek with
  | None => Failed d []
  | Some table_name =>
      match tables d !! table_name with
      | None => Failed d []
      | Some _ =>
          let colmap := load_entity_colmap d ek in
          let col_order := col_order_of colmap in
          let '(d0, last_offset) := validate_sync_cursor d ek table_name in
          sync_loop e table_name colmap col_order limit d0 last_offset 0 remote
      end
  end.
End WithBuiltins.

End Sync.

(** ** The webhook queue and its worker *)

Module Webhook.
Import PyStr Py Db Upsert Client Mapping.

(** [_enqueue_webhook_event] at time [now]: one [INSERT], the id comes
    from the table's sequence. *)
Definition _enqueue_webhook_event (now : Z) (d : db) (entity_key : string)
           (entity_id : Z) (event_name : string) (payload : pyval) : db :=
  let id := queue_seq d + 1 in
  with_queue d
    (queue d ++ [{| q_id := id; q_entity_key := entity_key;
                    q_entity_id := entity_id;
                    q_event_name := Some event_name;
                    q_event := Some event_name;
                    q_payload := payload;
                    q_status := "new"; q_attempts := 0;
                    q_last_error := None;
                    q_next_run_at := Some now;
                    q_received_at := now;
                    q_processed_at := None |}])
    id.

(** An event that still waits for the worker, or is in its hands. *)
Definition is_pending (ev : wh_event) : bool :=
  negb (String.eqb (q_status ev) "done" || String.eqb (q_status ev) "error").

Definition pending_for (d : db) (entity_key : string) (entity_id : Z)
  : list wh_event :=
  filter (fun ev => is_pending ev = true
                    ∧ q_entity_key ev = entity_key
                    ∧ q_entity_id ev = entity_id) (queue d).

(** The [WHERE] clause of the worker's [SELECT]. *)
Definition is_due (now : Z) (ev : wh_event) : bool :=
  (String.eqb (q_status ev) "new" || String.eqb (q_status ev) "retry"
   || String.eqb (q_status ev) "pending")
  && match q_next_run_at ev with
     | None => true
     | Some t => t <=? now
     end.

(** What the worker reads of a job. *)
Record job := {
  j_id : Z;
  j_entity_key : string;
  j_entity_id : Z;
  j_event_name : string;
  j_attempts : Z
}.

(** [COALESCE(event_name, event)], then [str(... or "")]. *)
Definition job_of (ev : wh_event) : job :=
  {| j_id := q_id ev; j_entity_key := q_entity_key ev;
     j_entity_id := q_entity_id ev;
     j_event_name :=
       default "" (match q_event_name ev with
                   | Some n => Some n
                   | None => q_event ev
                   end);
     j_attempts := q_attempts ev |}.

Definition BATCH : nat := 10.

Definition id_le (a b : wh_event) : Prop := q_id a <= q_id b.

#[export] Instance id_le_dec : RelDecision id_le.
Proof. intros a b. unfold id_le. apply _. Defined.

(** [SELECT ... ORDER BY id LIMIT 10]. *)
Definition select_jobs (now : Z) (d : db) : list job :=
  take BATCH
    (job_of <$> merge_sort id_le
                  (filter (fun ev => is_due now ev = true) (queue d))).

(** [UPDATE ... WHERE id = qid]. *)
Definition update_event (d : db) (qid : Z) (f : wh_event -> wh_event) : db :=
  with_queue d
    ((fun ev => if bool_decide (q_id ev = qid) then f ev else ev) <$> queue d)
    (queue_seq d).

Definition set_processing (ev : wh_event) : wh_event :=
  {| q_id := q_id ev; q_entity_key := q_entity_key ev;
     q_entity_id := q_entity_id ev; q_event_name := q_event_name ev;
     q_event := q_event ev; q_payload := q_payload ev;
     q_status := "processing"; q_attempts := q_attempts ev;
     q_last_error := q_last_error ev; q_next_run_at := q_next_run_at ev;
     q_received_at := q_received_at ev; q_processed_at := q_processed_at ev |}.

Definition set_done (now : Z) (ev : wh_event) : wh_event :=
  {| q_id := q_id ev; q_entity_key := q_entity_key ev;
     q_entity_id := q_entity_id ev; q_event_name := q_event_name ev;
     q_event := q_event ev; q_payload := q_payload ev;
     q_status := "done"; q_attempts := q_attempts ev;
     q_last_error := None; q_next_run_at := q_next_run_at ev;
     q_received_at := q_received_at ev; q_processed_at := Some now |}.

Definition set_retry (now backoff : Z) (err : string) (ev : wh_event) : wh_event :=
  {| q_id := q_id ev; q_entity_key := q_entity_key ev;
     q_entity_id := q_entity_id ev; q_event_name := q_event_name ev;
     q_event := q_event ev; q_payload := q_payload ev;
     q_status := "retry"; q_attempts := q_attempts ev + 1;
     q_last_error := Some err; q_next_run_at := Some (now + backoff);
     q_received_at := q_received_at ev; q_processed_at := q_processed_at ev |}.

(** [min(300, 5 * (attempts + 1))], in seconds. *)
Definition backoff_of (attempts : Z) : Z := Z.min 300 (5 * (attempts + 1)).

(** ["DELETE" in ev.upper() or "REMOVE" in ev.upper()]. *)
Definition is_delete_event (ev : string) : bool :=
  contains "DELETE" (upper ev) || contains "REMOVE" (upper ev).

(** The remote side as the worker sees it: the outcome of
    [b24.call(method, params)]. *)
Definition remote : Type := string -> list (string * pyval) -> call_outcome.

(** What the worker does that can be observed from outside. *)
Inductive effect :=
| RemoteCall (method : string) (params : list (string * pyval))
| StatusSet (qid : Z) (status : string).

(** The common tail of the three plain branches of [_bitrix_get_one]. *)
Definition plain_result (o : call_outcome) : pyval :=
  match o with
  | Returned (PDict d) =>
      match dict_get d "error" with
      | Some (PStr e) =>
          if String.eqb e OVERLOAD_LIMIT then PNone else get_or_none d "result"
      | _ => get_or_none d "result"
      end
  | _ => PNone
  end.

Definition smart_result (o : call_outcome) : pyval :=
  match o with
  | Returned (PDict d) =>
      match dict_get d "error" with
      | Some (PStr e) =>
          if String.eqb e OVERLOAD_LIMIT then PNone
          else match py_or (get_or_none d "result") (PDict []) with
               | PDict r => py_or (get_or_none r "item") PNone
               | _ => PNone
               end
      | _ => match py_or (get_or_none d "result") (PDict []) with
             | PDict r => py_or (get_or_none r "item") PNone
             | _ => PNone
             end
      end
  | _ => PNone
  end.

(** [_bitrix_get_one]: the record, or [None]; every exception ends in
    [None].  The second component lists the remote calls made. *)
Definition _bitrix_get_one (srv : remote) (entity_key : string) (entity_id : Z)
  : pyval * list effect :=
  let plain method :=
    let params := [("id", PInt entity_id)] in
    (plain_result (srv method params), [RemoteCall method params]) in
  if String.eqb entity_key "deal" then plain "crm.deal.get"
  else if String.eqb entity_key "contact" then plain "crm.contact.get"
  else if String.eqb entity_key "lead" then plain "crm.lead.get"
  else if is_prefix "sp:" entity_key then
    match parse_int (str_skip 3 entity_key) with
    | None => (PNone, [])
    | Some etid =>
        let params := [("entityTypeId", PInt etid); ("id", PInt entity_id)] in
        (smart_result (srv "crm.item.get" params),
         [RemoteCall "crm.item.get" params])
    end
  else (PNone, []).

Inductive upsert_result :=
| Upserted (d : db) (ok : bool)
| UpsertRaised.

Section WithBuiltins.
Context {B : Builtins}.

(** [_upsert_single_item] at time [now]. *)
Definition _upsert_single_item (now : Z) (d : db) (entity_key : string)
           (item_v : pyval) : upsert_result :=
  match table_name_for_entity entity_key with
  | None => UpsertRaised
  | Some table_name =>
      match tables d !! table_name with
      | None => UpsertRaised
      | Some _ =>
          let colmap := load_entity_colmap d entity_key in
          match colmap with
          | [] => Upserted d false
          | _ =>
              match item_v with
              | PDict it =>
                  let raw_id := if dict_has it "ID" then get_or_none it "ID"
                                else get_or_none it "id" in
                  match _extract_int raw_id with
                  | None => Upserted d false
                  | Some entity_id =>
                      if entity_id =? 0 then Upserted d false
                      else
                        let col_order := col_order_of colmap in
                        let col_order :=
                          if decide ("updated_at" ∈ col_order) then col_order
                          else (col_order ++ ["updated_at"])%list in
                        let r0 : gmap string pyval :=
                          <["updated_at" := PDatetime now]>
                            (<["raw" := PJson (PDict it)]>
                               (<["id" := PInt entity_id]> ∅)) in
                        let r := fill_row WebhookLookup colmap it r0 in
                        match upsert_rows now d table_name col_order
                                          [row_values col_order r] with
                        | Some d' => Upserted d' true
                        | None => UpsertRaised
                        end
                  end
              | _ => UpsertRaised
              end
          end
      end
  end.

Inductive job_result :=
| JobDone (d : db) (trace : list effect)
| JobRaised (d : db) (trace : list effect).

(** The body of [for job in jobs] at time [now]. *)
Definition process_job (srv : remote) (now : Z) (d : db) (j : job) : job_result :=
  let qid := j_id j in
  let d1 := update_event d qid set_processing in
  let t1 := [StatusSet qid "processing"] in
  if is_delete_event (j_event_name j)
  then JobDone (update_event d1 qid (set_done now)) (t1 ++ [StatusSet qid "done"])
  else
    let '(item_v, calls) := _bitrix_get_one srv (j_entity_key j) (j_entity_id j) in
    if negb (truthy item_v)
    then JobDone (update_event d1 qid
                    (set_retry now (backoff_of (j_attempts j))
                               "bitrix blocked / empty"))
                 (t1 ++ calls ++ [StatusSet qid "retry"])
    else
      match _upsert_single_item now d1 (j_entity_key j) item_v with
      | UpsertRaised => JobRaised d1 (t1 ++ calls)
      | Upserted d2 true =>
          JobDone (update_event d2 qid (set_done now))
                  (t1 ++ calls ++ [StatusSet qid "done"])
      | Upserted d2 false =>
          JobDone (update_event d2 qid
                     (set_retry now (backoff_of (j_attempts j)) "upsert failed"))
                  (t1 ++ calls ++ [StatusSet qid "retry"])
      end.

(** The jobs of one batch, in order; an exception ends the batch. *)
Fixpoint process_jobs (srv : remote) (now : Z) (d : db) (jobs : list job)
  : job_result :=
  match jobs with
  | [] => JobDone d []
  | j :: rest =>
      match process_job srv now d j with
      | JobRaised d' t => JobRaised d' t
      | JobDone d' t =>
          match process_jobs srv now d' rest with
          | JobDone d'' t' => JobDone d'' (t ++ t')
          | JobRaised d'' t' => JobRaised d'' (t ++ t')
          end
      end
  end.

(** One turn of the worker's [while] loop at time [now]. *)
Definition worker_turn (srv : remote) (now : Z) (d : db) : job_result :=
  process_jobs srv now d (select_jobs now d).
End WithBuiltins.

Definition result_db (r : job_result) : db :=
  match r with JobDone d _ | JobRaised d _ => d end.

Definition result_trace (r : job_result) : list effect :=
  match r with JobDone _ t | JobRaised _ t => t end.

Definition is_remote_call (e : effect) : bool :=
  match e with RemoteCall _ _ => true | StatusSet _ _ => false end.

(** The statuses written for one queue row, oldest first. *)
Definition statuses_of (qid : Z) (t : list effect) : list string :=
  omap (fun e => match e with
                 | StatusSet q s => if bool_decide (q = qid) then Some s else None
                 | RemoteCall _ _ => None
                 end) t.

(** The event as the retry branch leaves it. *)
Definition retried_event (now : Z) (attempts : Z) (err : string)
           (ev : wh_event) : wh_event :=
  set_retry now (backoff_of attempts) err (set_processing ev).

Section WithBuiltins.
Context {B : Builtins}.

(** The fetch or the upsert of a job fails: [_bitrix_get_one] gives
    nothing, or [_upsert_single_item] returns [False]. *)
Definition job_fails (srv : remote) (now : Z) (d : db) (j : job) : Prop :=
  is_delete_event (j_event_name j) = false /\
  let item_v := (_bitrix_get_one srv (j_entity_key j) (j_entity_id j)).1 in
  truthy item_v = false \/
  exists d2, _upsert_single_item now (update_event d (j_id j) set_processing)
                                 (j_entity_key j) item_v = Upserted d2 false.

(** The worker's loop, one turn at each of the given times. *)
Fixpoint worker_turns (srv : remote) (times : list Z) (d : db) : db :=
  match times with
  | [] => d
  | now :: rest => worker_turns srv rest (result_db (worker_turn srv now d))
  end.
End WithBuiltins.

End Webhook.

(** ** The webhook endpoint *)

Module Endpoint.
Import PyStr Py Db Webhook.

(** What [b24_dynamic_item_update] answers: [{"ok": True, "queued":
    True, "entity_key": ..., "entity_id": ...}], [{"ok": True, "queued":
    False}] or [{"ok": False}]. *)
Inductive answer :=
| Queued (entity_key : string) (entity_id : Z)
| NotQueued
| NotOk.

Definition EVENT_KEYS : list string := ["event"; "event_name"; "EVENT_NAME"].
Definition ID_KEYS : list string :=
  ["data[FIELDS][ID]"; "data[ID]"; "ID"; "id"].
Definition TYPE_KEYS : list string :=
  ["data[FIELDS][ENTITY_TYPE_ID]"; "data[ENTITY_TYPE_ID]"; "ENTITY_TYPE_ID"].

(** The outcome of the entity detection: a key (the empty string when
    the event names no known entity), a dynamic event without a type id
    (answered at once), or a type id [int] rejects (the exception ends
    in [{"ok": False}]). *)
Inductive detected :=
| Key (entity_key : string)
| NoType
| BadType.

Definition detect_entity_key (ev entity_type_id_str : string) : detected :=
  if contains "ONCRMDEAL" ev then Key "deal"
  else if contains "ONCRMLEAD" ev then Key "lead"
  else if contains "ONCRMCONTACT" ev then Key "contact"
  else if contains "ONCRMCOMPANY" ev then Key "company"
  else if contains "ONCRMDYNAMICITEM" ev || contains "DYNAMIC" ev
       then if String.eqb entity_type_id_str "" then NoType
            else match parse_int entity_type_id_str with
                 | Some n => Key ("sp:" +:+ str_of_int n)
                 | None => BadType
                 end
       else Key "".

Section WithBuiltins.
Context {B : Builtins}.

(** [_get_first]: the first of the given keys whose value is not [None] and
    not blank, as stripped text. *)
Fixpoint _get_first (payload : list (string * pyval)) (keys : list string)
  : string :=
  match keys with
  | [] => ""
  | k :: rest =>
      match get_or_none payload k with
      | PNone => _get_first payload rest
      | v =>
          let s := strip (py_str v) in
          if String.eqb s "" then _get_first payload rest else s
      end
  end.

(** [b24_dynamic_item_update] at time [now], from the parsed payload
    on.  A payload that is no dict makes [payload.get] raise. *)
Definition b24_dynamic_item_update (now : Z) (d : db) (payload : pyval)
  : db * answer :=
  match payload with
  | PDict p =>
      let event_name := _get_first p EVENT_KEYS in
      let entity_id_str := _get_first p ID_KEYS in
      let entity_type_id_str := _get_first p TYPE_KEYS in
      match detect_entity_key (upper event_name) entity_type_id_str with
      | NoType => (d, NotQueued)
      | BadType => (d, NotOk)
      | Key entity_key =>
          if String.eqb entity_key "" || String.eqb entity_id_str ""
          then (d, NotQueued)
          else
            match parse_int entity_id_str with
            | None => (d, NotQueued)
            | Some entity_id =>
                (_enqueue_webhook_event now d entity_key entity_id
                                        event_name payload,
                 Queued entity_key entity_id)
            end
      end
  | _ => (d, NotOk)
  end.
End WithBuiltins.

End Endpoint.

(** ** Schema sync of one entity *)

Module Schema.
Import PyStr Py Db Naming Normalize Mapping.

(** What [sync_schema] reads of the metadata of a remote field:
    [meta.get("type")] (a string, or absent) and the truth value of
    [meta.get("isMultiple", False)]. *)
Record field_def := {
  fd_type : option string;
  fd_is_multiple : bool
}.

(** [map_b24_to_pg_type]. *)
Definition map_b24_to_pg_type (b24_type : option string) (is_multiple : bool)
  : string :=
  if is_multiple then "JSONB"
  else
    let t := lower (default "" b24_type) in
    if str_in t ["integer"; "int"] then "BIGINT"
    else if str_in t ["double"; "float"; "number"] then "DOUBLE PRECISION"
    else if str_in t ["boolean"; "bool"] then "BOOLEAN"
    else if str_in t ["datetime"] then "TIMESTAMPTZ"
    else if str_in t ["date"] then "DATE"
    else if str_in t ["string"; "text"; "char"] then "TEXT"
    else "TEXT".

(** [ensure_table_base]: [CREATE TABLE IF NOT EXISTS] with the four
    base columns. *)
Definition ensure_table_base (d : db) (table_name : string) : db :=
  match tables d !! table_name with
  | Some _ => d
  | None =>
      with_tables d (<[table_name := {| t_columns := base_columns;
                                        t_rows := [] |}]> (tables d))
  end.

(** [ensure_columns]: one [ALTER TABLE ... ADD COLUMN IF NOT EXISTS] per
    pair; the statement raises when the table does not exist.  The
    store records the names of the columns, not their types. *)
Definition ensure_columns (d : db) (table_name : string)
           (columns : list (string * string)) : option db :=
  match columns with
  | [] => Some d
  | _ =>
      t ← tables d !! table_name;
      Some (with_tables d
              (<[table_name := {| t_columns := list_to_set columns.*1 ∪ t_columns t;
                                  t_rows := t_rows t |}]> (tables d)))
  end.

(** [colmap[b24_field]]; [None] is [KeyError]. *)
Fixpoint colmap_get (colmap : list (string * string)) (f : string)
  : option string :=
  match colmap with
  | [] => None
  | (k, c) :: rest => if String.eqb k f then Some c else colmap_get rest f
  end.

Definition same_field (a b : meta_field) : bool :=
  String.eqb (mf_entity_key a) (mf_entity_key b)
  && String.eqb (mf_b24_field a) (mf_b24_field b).

(** One tuple of [INSERT INTO b24_meta_fields ... ON CONFLICT
    (entity_key, b24_field) DO UPDATE]. *)
Definition upsert_meta_row (rows : list meta_field) (m : meta_field)
  : list meta_field :=
  if existsb (same_field m) rows
  then (fun r => if same_field m r then m else r) <$> rows
  else rows ++ [m].

(** The rows [upsert_meta_fields] builds, in the order of
    [fields.items()]. *)
Fixpoint meta_rows (entity_key : string) (fields : list (string * field_def))
         (colmap : list (string * string)) : option (list meta_field) :=
  match fields with
  | [] => Some []
  | (f, def) :: rest =>
      c ← colmap_get colmap f;
      tl ← meta_rows entity_key rest colmap;
      Some ({| mf_entity_key := entity_key; mf_b24_field := f;
               mf_column_name := c; mf_b24_type := fd_type def;
               mf_is_multiple := fd_is_multiple def |} :: tl)
  end.

(** [upsert_meta_fields], as far as the columns [load_entity_colmap]
    reads go. *)
Definition upsert_meta_fields (d : db) (entity_key : string)
           (fields : list (string * field_def))
           (colmap : list (string * string)) : option db :=
  rows ← meta_rows entity_key fields colmap;
  Some {| meta_fields := foldl upsert_meta_row (meta_fields d) rows;
          sync_state := sync_state d; tables := tables d;
          queue := queue d; queue_seq := queue_seq d |}.

(** The list of [(column, pgtype)] pairs [sync_schema] hands to
    [ensure_columns]. *)
Fixpoint typed_columns (fields : list (string * field_def))
         (colmap : list (string * string)) : option (list (string * string)) :=
  match fields with
  | [] => Some []
  | (f, def) :: rest =>
      c ← colmap_get colmap f;
      tl ← typed_columns rest colmap;
      Some ((c, map_b24_to_pg_type (fd_type def) (fd_is_multiple def)) :: tl)
  end.

(** The block [sync_schema] runs for each entity (deals, contacts,
    leads and every smart process), from the fetched field metadata on:
    name the columns, create the table, add the columns, record the
    mapping. *)
Definition sync_schema_entity (d : db) (entity_key : string)
           (fields : list (string * field_def)) : option db :=
  colmap ← build_colmap fields.*1;
  table_name ← table_name_for_entity entity_key;
  let d1 := ensure_table_base d table_name in
  columns ← typed_columns fields colmap;
  d2 ← ensure_columns d1 table_name columns;
  upsert_meta_fields d2 entity_key fields colmap.

End Schema.

(** ** Field titles *)

Module Titles.
Import PyStr Py.







End Titles.

(** ** Sync of deals: forward pass by id, then the pass over today's
    changes *)

Module Deal.
Import PyStr Py Db Cursor Upsert Client Mapping Sync.

Definition ENTITY_KEY : string := "deal".

(** The column order: [assigned_by_name] is added when the table has
    that column and no remote field is mapped to it. *)
Definition has_assigned_by_name_col (t : table) : bool :=
  bool_decide ("assigned_by_name" ∈ t_columns t).

Definition deal_col_order (colmap : list meta_field) (t : table) : list string :=
  let col_order := col_order_of colmap in
  if has_assigned_by_name_col t
     && negb (bool_decide ("assigned_by_name" ∈ col_order))
  then (col_order ++ ["assigned_by_name"])%list
  else col_order.

(** [(u.get(k) or "").strip()]; [None] when the value is truthy and
    no string ([AttributeError]). *)
Definition name_part (u : item) (k : string) : option string :=
  match py_or (get_or_none u k) (PStr "") with
  | PStr s => Some (strip s)
  | _ => None
  end.

(** The two requests [b24_list_deals] is used for: by id, with
    [start_id] (sent as the filter [>ID] when it is positive), and by
    modification date, with [start_offset]. *)
Inductive deal_request :=
| ByIdAfter (start_id : Z)
| ModifiedToday (start_offset : Z).

Section WithBuiltins.
Context {B : Builtins}.

(** The value of [row["assigned_by_name"]]. *)
Definition assigned_by_name (it : item) : option pyval :=
  v ← (if dict_has it "ASSIGNED_BY_NAME"
       then Some (get_or_none it "ASSIGNED_BY_NAME")
       else if dict_has it "assigned_by_name"
            then Some (get_or_none it "assigned_by_name")
            else match get_or_none it "ASSIGNED_BY" with
                 | PDict u =>
                     n ← name_part u "NAME";
                     ln ← name_part u "LAST_NAME";
                     Some (py_or (py_or (PStr (strip (n +:+ " " +:+ ln)))
                                        (get_or_none u "FULL_NAME"))
                                 PNone)
                 | _ => Some PNone
                 end);
  Some (if truthy v then PStr (strip (py_str v)) else PNone).

(** [build_row_from_item]: the outer [None] is an exception, the
    inner one the [None] returned for a record without id. *)
Definition build_row_from_item (colmap : list meta_field)
           (col_order : list string) (has_col : bool) (it : item)
  : option (option (list pyval)) :=
  let deal_id := py_or (get_or_none it "ID") (get_or_none it "id") in
  if negb (truthy deal_id) then Some None
  else
    z ← py_int deal_id;
    let r := fill_row NestedLookup colmap it
               (<["raw" := PJson (PDict it)]> (<["id" := PInt z]> ∅)) in
    r' ← (if has_col && bool_decide ("assigned_by_name" ∈ col_order)
          then v ← assigned_by_name it; Some (<["assigned_by_name" := v]> r)
          else Some r);
    Some (Some (row_values col_order r')).

(** The rows of a page: records for which no row, or an empty one,
    is built are skipped. *)
Fixpoint build_batch (colmap : list meta_field) (col_order : list string)
         (has_col : bool) (items : list item) : option (list (list pyval)) :=
  match items with
  | [] => Some []
  | it :: rest =>
      r ← build_row_from_item colmap col_order has_col it;
      tl ← build_batch colmap col_order has_col rest;
      Some match r with
           | None | Some [] => tl
           | Some vals => vals :: tl
           end
  end.

(** The running maximum [max_seen] over the ids of the rows;
    [r[col_order.index("id")]] is the first value of a row. *)
Fixpoint max_seen_of (rows : list (list pyval)) (max_seen : Z) : option Z :=
  match rows with
  | [] => Some max_seen
  | r :: rest =>
      deal_id_val ← head r;
      if truthy deal_id_val
      then z ← py_int deal_id_val;
           max_seen_of rest (if max_seen <? z then z else max_seen)
      else max_seen_of rest max_seen
  end.

(** One turn of the first loop, from the client's answer on. *)
Definition forward_step (table_name : string) (colmap : list meta_field)
           (col_order : list string) (has_col : bool) (limit : Z)
           (d : db) (last_id total : Z) (now : Z) (answer : call_outcome)
  : step_result :=
  match answer with
  | Returned resp =>
      match list_helper_answer resp ≫= normalize_list_result with
      | None => Raised d
      | Some (items, _) =>
          match items with
          | [] => Break (set_sync_cursor d ENTITY_KEY
                           (if 0 <? last_id then last_id else 0)) total
          | _ =>
              match build_batch colmap col_order has_col items with
              | None => Raised d
              | Some batch_rows =>
                  match max_seen_of batch_rows last_id with
                  | None => Raised d
                  | Some max_seen =>
                      match (match batch_rows with
                             | [] => Some d
                             | _ => upsert_rows now d table_name col_order
                                                batch_rows
                             end) with
                      | None => Raised d
                      | Some d1 =>
                          let total := total + Z.of_nat (length batch_rows) in
                          let last_id := if max_seen =? 0 then last_id
                                         else max_seen in
                          let d2 := set_sync_cursor d1 ENTITY_KEY last_id in
                          if negb (_is_unlimited limit) && (limit <=? total)
                          then Break d2 total
                          else if (length items <? 50)%nat
                               then Break d2 total
                               else Continue d2 last_id total
                      end
                  end
              end
          end
      end
  | _ => Raised d
  end.

(** The result of a pass: the store, the rows upserted so far, the
    answers not yet consumed and the requests sent. *)
Inductive pass_result :=
| PassDone (d : db) (total : Z) (rest : list (Z * call_outcome))
           (requests : list deal_request)
| PassFailed (d : db) (requests : list deal_request).

Definition add_request (r : deal_request) (p : pass_result) : pass_result :=
  match p with
  | PassDone d n rest l => PassDone d n rest (r :: l)
  | PassFailed d l => PassFailed d (r :: l)
  end.

(** The first loop.  [remote] lists, in order, the time and the
    client's answer for each request the time budget (shared by the
    two loops) leaves room for. *)
Fixpoint forward_pass (table_name : string) (colmap : list meta_field)
         (col_order : list string) (has_col : bool) (limit : Z)
         (d : db) (last_id total : Z) (remote : list (Z * call_outcome))
  : pass_result :=
  match remote with
  | [] => PassDone d total [] []
  | (now, answer) :: rest =>
      match forward_step table_name colmap col_order has_col limit d
                         last_id total now answer with
      | Continue d' last_id' total' =>
          add_request (ByIdAfter last_id)
            (forward_pass table_name colmap col_order has_col limit d'
                          last_id' total' rest)
      | Break d' total' => PassDone d' total' rest [ByIdAfter last_id]
      | Raised d' => PassFailed d' [ByIdAfter last_id]
      end
  end.

(** The second loop: the deals modified today, by offset, at most
    [max_pages] pages. *)
Fixpoint today_pass (table_name : string) (colmap : list meta_field)
         (col_order : list string) (has_col : bool) (max_pages : Z)
         (d : db) (page offset total : Z) (remote : list (Z * call_outcome))
  : pass_result :=
  match remote with
  | [] => PassDone d total [] []
  | (now, answer) :: rest =>
      if max_pages <=? page then PassDone d total remote []
      else
        add_request (ModifiedToday offset)
          match answer with
          | Returned resp =>
              match list_helper_answer resp ≫= normalize_list_result with
              | None => PassFailed d []
              | Some (items, nxt) =>
                  match items with
                  | [] => PassDone d total rest []
                  | _ =>
                      match build_batch colmap col_order has_col items with
                      | None => PassFailed d []
                      | Some batch_rows =>
                          match (match batch_rows with
                                 | [] => Some d
                                 | _ => upsert_rows now d table_name
                                                    col_order batch_rows
                                 end) with
                          | None => PassFailed d []
                          | Some d1 =>
                              let total := total + Z.of_nat (length batch_rows) in
                              match nxt with
                              | None => PassDone d1 total rest []
                              | Some n =>
                                  today_pass table_name colmap col_order
                                             has_col max_pages d1 (page + 1)
                                             n total rest
                              end
                          end
                      end
                  end
              end
          | _ => PassFailed d []
          end
  end.

Definition pass_db (p : pass_result) : db :=
  match p with PassDone d _ _ _ | PassFailed d _ => d end.

Definition pass_requests (p : pass_result) : list deal_request :=
  match p with PassDone _ _ _ l | PassFailed _ l => l end.

(** [sync_entity_data_deal]; [max_pages] is [DEAL_TODAY_MAX_PAGES].
    [ensure_pk_index] raises when the table does not exist. *)
Definition sync_entity_data_deal (limit max_pages : Z) (d : db)
           (remote : list (Z * call_outcome)) : pass_result :=
  let table_name := "b24_crm_deal" in
  match tables d !! table_name with
  | None => PassFailed d []
  | Some t =>
      let colmap := load_entity_colmap d ENTITY_KEY in
      let col_order := deal_col_order colmap t in
      let has_col := has_assigned_by_name_col t in
      let '(d0, last_id) := validate_sync_cursor d ENTITY_KEY table_name in
      match forward_pass table_name colmap col_order has_col limit
                         d0 last_id 0 remote with
      | PassFailed d1 reqs => PassFailed d1 reqs
      | PassDone d1 total rest reqs =>
          match today_pass table_name colmap col_order has_col max_pages
                           d1 0 0 total rest with
          | PassDone d2 total' rest' reqs' =>
              PassDone d2 total' rest' (reqs ++ reqs')%list
          | PassFailed d2 reqs' => PassFailed d2 (reqs ++ reqs')%list
          end
      end
  end.
End WithBuiltins.

End Deal.

(** ** Invariants of the store *)

Module Invariant.
Import Py Db Upsert Webhook.

(** What the unique index [ux_<table>_id] of [ensure_pk_index] states:
    no two rows of the table carry the same id (rows whose id is NULL
    do not count). *)
Definition ids_unique (rows : list row) : Prop :=
  NoDup (omap row_id rows).

(** The ids stored in a table. *)
Definition stored_ids (rows : list row) : list Z := omap row_id rows.

(** The id a [VALUES] tuple offers, when it offers one. *)
Definition tuple_id (col_order : list string) (vals : list pyval) : option Z :=
  default None (proposed_id col_order (proposed_row col_order vals)).

(** One tuple of a statement against the stored rows. *)
Definition upsert_tuple (now : Z) (col_order : list string) (rows : list row)
           (vals : list pyval) : list row :=
  upsert_one now col_order rows (tuple_id col_order vals)
             (proposed_row col_order vals).

(** The queue's [id BIGSERIAL PRIMARY KEY]: ids are pairwise distinct
    and none is beyond the sequence. *)
Definition queue_wf (d : db) : Prop :=
  NoDup (q_id <$> queue d)
  /\ Forall (fun ev => q_id ev <= queue_seq d) (queue d).

(** The part of a queue row that says which notification it is; the
    worker only ever writes the other columns. *)
Definition notification (ev : wh_event)
  : Z * string * Z * option string * option string * pyval * Z :=
  (q_id ev, q_entity_key ev, q_entity_id ev, q_event_name ev, q_event ev,
   q_payload ev, q_received_at ev).

(** The primary key [(entity_key, b24_field)] of [b24_meta_fields]. *)
Definition field_key (m : meta_field) : string * string :=
  (mf_entity_key m, mf_b24_field m).

Definition meta_unique (d : db) : Prop :=
  NoDup (field_key <$> meta_fields d).

(** The schema of an entity is in place: its table exists and has the
    columns [id] and [raw] and every column its rows of
    [b24_meta_fields] name, which is what the data sync lists in its
    [INSERT]. *)
Definition schema_ok (d : db) (entity_key : string) : Prop :=
  exists tn t,
    Mapping.table_name_for_entity entity_key = Some tn
    /\ tables d !! tn = Some t
    /\ columns_ok t (Mapping.col_order_of
                       (Mapping.load_entity_colmap d entity_key)) = true.

(** Nothing of the entity is there yet: no table and no field row. *)
Definition schema_absent (d : db) (entity_key : string) : Prop :=
  exists tn,
    Mapping.table_name_for_entity entity_key = Some tn
    /\ tables d !! tn = None
    /\ Mapping.load_entity_colmap d entity_key = [].

(** What a data sync of one entity may change: the rows of the
    entity's table, which it only adds to or updates, and the entity's
    cursor; nothing else. *)
Definition sync_frame (entity_key table_name : string) (d d' : db) : Prop :=
  queue d' = queue d /\ queue_seq d' = queue_seq d
  /\ meta_fields d' = meta_fields d
  /\ (forall ek', ek' <> entity_key ->
        sync_state d' !! ek' = sync_state d !! ek')
  /\ (forall tn', tn' <> table_name -> tables d' !! tn' = tables d !! tn')
  /\ (tables d !! table_name = None -> tables d' !! table_name = None)
  /\ (forall t, tables d !! table_name = Some t ->
        exists t',
          tables d' !! table_name = Some t'
          /\ t_columns t' = t_columns t
          /\ stored_ids (t_rows t) `prefix_of` stored_ids (t_rows t')
          /\ (ids_unique (t_rows t) -> ids_unique (t_rows t'))).

(** A value the database adapter takes: anything but a bare dict or
    list (those are wrapped in [Json] first). *)
Definition adaptable (v : pyval) : Prop := is_dict_or_list v = false.

(** The [start_id] values of the requests of the forward pass. *)
Definition by_id_starts (reqs : list Deal.deal_request) : list Z :=
  omap (fun r => match r with
                 | Deal.ByIdAfter s => Some s
                 | Deal.ModifiedToday _ => None
                 end) reqs.

(** The offsets of the requests of the today-pass. *)
Definition today_offsets (reqs : list Deal.deal_request) : list Z :=
  omap (fun r => match r with
                 | Deal.ModifiedToday o => Some o
                 | Deal.ByIdAfter _ => None
                 end) reqs.

(** The entity keys [_bitrix_get_one] has a branch for; for every
    other key it returns [None] without calling the remote side. *)
Definition has_fetch (entity_key : string) : bool :=
  String.eqb entity_key "deal" || String.eqb entity_key "contact"
  || String.eqb entity_key "lead"
  || (PyStr.is_prefix "sp:" entity_key
      && bool_decide (is_Some (parse_int (PyStr.str_skip 3 entity_key)))).

#[export] Instance id_le_total : Total id_le.
Proof. intros a b. unfold id_le. lia. Qed.

#[export] Instance id_le_trans : Transitive id_le.
Proof. intros a b c. unfold id_le. lia. Qed.

(** A value [call] can return from an HTTP 200 response: a dict
    without the key [error], a list without the element ["error"], or a
    string that does not contain it. *)
Definition clean_answer (data : pyval) : Prop :=
  match data with
  | PDict d => dict_has d "error" = false
  | PList l => existsb (fun x => match x with
                                 | PStr s => String.eqb s "error"
                                 | _ => false
                                 end) l = false
  | PStr s => PyStr.contains "error" s = false
  | _ => False
  end.

End Invariant.

(** ** Concrete stores and answers used in the examples *)

Module Demo.
Import Py Db Client.

(** Built-ins for the examples: no string parses as a float. *)
Definition builtins : Builtins :=
  {| float_of_str := fun _ => None; repr := fun _ => "" |}.

Definition contact_row (id : Z) (name : string) : gmap string pyval :=
  <["id" := PInt id]> (<["name" := PStr name]>
    (<["created_at" := PDatetime 10]> (<["updated_at" := PDatetime 10]> ∅))).

Definition contact_table : table :=
  {| t_columns := {[ "id"; "raw"; "created_at"; "updated_at"; "name" ]};
     t_rows := [contact_row 5 "Ana"; contact_row 7 "Ion"] |}.

Definition contact_meta : list meta_field :=
  [ {| mf_entity_key := "contact"; mf_b24_field := "NAME";
       mf_column_name := "name"; mf_b24_type := Some "string";
       mf_is_multiple := false |} ].

(** A store whose contact cursor (5000) is far beyond the largest
    stored id (7). *)
Definition stale_db : db :=
  {| meta_fields := contact_meta;
     sync_state := {[ "contact" := Some "5000" ]};
     tables := {[ "b24_crm_contact" := contact_table ]};
     queue := []; queue_seq := 0 |}.

(** The same store with a cursor within the margin. *)
Definition fresh_db : db :=
  {| meta_fields := contact_meta;
     sync_state := {[ "contact" := Some "7" ]};
     tables := {[ "b24_crm_contact" := contact_table ]};
     queue := []; queue_seq := 0 |}.

(** A remote side that throttles the first request (HTTP 429), fails the
    second at transport level and reports the overload on the third. *)
Definition overloaded_server (attempt : nat) : http_result :=
  match attempt with
  | 0%nat => HttpResponse 429 None
  | 1%nat => TransportError
  | _ => HttpResponse 401
           (Some (PDict [("error", PStr "OVERLOAD_LIMIT");
                         ("error_description", PStr "REST API is blocked")]))
  end.

(** The last page of contacts: one record, and no [next] token. *)
Definition last_page : pyval :=
  PDict [("result", PList [PDict [("ID", PStr "9"); ("NAME", PStr "Lia")]]);
         ("total", PInt 3)].

(** A page of contacts followed by more: [next] is 50. *)
Definition middle_page : pyval :=
  PDict [("result", PList [PDict [("ID", PStr "9"); ("NAME", PStr "Lia")]]);
         ("next", PInt 50); ("total", PInt 80)].

(** The tuple the mapping builds for that record. *)
Definition lia_row : list pyval :=
  [PInt 9; PJson (PDict [("ID", PStr "9"); ("NAME", PStr "Lia")]); PStr "Lia"].

(** A remote side that rejects every call. *)
Definition failing_remote : Webhook.remote :=
  fun _ _ => HTTPException (BadStatus 500).

(** The store after two notifications for contact 5. *)
Definition notified_twice : db :=
  Webhook._enqueue_webhook_event 21 
    (Webhook._enqueue_webhook_event 20 fresh_db "contact" 5
       "ONCRMCONTACTUPDATE" (PDict []))
    "contact" 5 "ONCRMCONTACTUPDATE" (PDict []).

(** The store after a notification that contact 5 was deleted. *)
Definition delete_notified : db :=
  Webhook._enqueue_webhook_event 20 fresh_db "contact" 5
    "ONCRMCONTACTDELETE" (PDict []).

(** The store after a notification that contact 5 was updated. *)
Definition update_notified : db :=
  Webhook._enqueue_webhook_event 20 fresh_db "contact" 5
    "ONCRMCONTACTUPDATE" (PDict []).

Definition update_job : Webhook.job :=
  {| Webhook.j_id := 1; Webhook.j_entity_key := "contact";
     Webhook.j_entity_id := 5; Webhook.j_event_name := "ONCRMCONTACTUPDATE";
     Webhook.j_attempts := 0 |}.

Definition delete_job : Webhook.job :=
  {| Webhook.j_id := 1; Webhook.j_entity_key := "contact";
     Webhook.j_entity_id := 5; Webhook.j_event_name := "ONCRMCONTACTDELETE";
     Webhook.j_attempts := 0 |}.

(** The queue row of that notification. *)
Definition contact_notification : wh_event :=
  {| q_id := 1; q_entity_key := "contact"; q_entity_id := 5;
     q_event_name := Some "ONCRMCONTACTUPDATE";
     q_event := Some "ONCRMCONTACTUPDATE"; q_payload := PDict [];
     q_status := "new"; q_attempts := 0; q_last_error := None;
     q_next_run_at := Some 20; q_received_at := 20;
     q_processed_at := None |}.

(** A remote side whose every answer carries a text where the record
    should be. *)
Definition text_remote : Webhook.remote :=
  fun _ _ => Returned (PDict [("result", PStr "busy")]).

(** The store after a notification about company 5. *)
Definition company_notified : db :=
  Webhook._enqueue_webhook_event 20 fresh_db "company" 5
    "ONCRMCOMPANYUPDATE" (PDict []).

Definition company_notification : wh_event :=
  {| q_id := 1; q_entity_key := "company"; q_entity_id := 5;
     q_event_name := Some "ONCRMCOMPANYUPDATE";
     q_event := Some "ONCRMCOMPANYUPDATE"; q_payload := PDict [];
     q_status := "new"; q_attempts := 0; q_last_error := None;
     q_next_run_at := Some 20; q_received_at := 20;
     q_processed_at := None |}.

(** A contact as [crm.contact.get] returns it. *)
Definition lia_item : list (string * pyval) :=
  [("ID", PInt 9); ("NAME", PStr "Lia")].

(** The field metadata of a small entity. *)
Definition contact_fields : list (string * Schema.field_def) :=
  [("ID", {| Schema.fd_type := Some "integer"; Schema.fd_is_multiple := false |});
   ("NAME", {| Schema.fd_type := Some "string"; Schema.fd_is_multiple := false |});
   ("PHONE", {| Schema.fd_type := Some "crm_multifield";
                Schema.fd_is_multiple := true |})].

(** A store in which nothing was synchronised yet. *)
Definition empty_db : db :=
  {| meta_fields := []; sync_state := ∅; tables := ∅;
     queue := []; queue_seq := 0 |}.

(** Hourly turns of the worker. *)
Definition hourly (n : nat) : list Z :=
  (fun k => 3600 * Z.of_nat (S k)) <$> seq 0 n.

End Demo.

(** * Properties *)

(** ** Decimal text of integers *)

Section int_text_facts.
Import PyStr Py.

Lemma pretty_N_char_digit r :
  (r < 10)%N ->
  is_digit (pretty_N_char r) = true
  /\ Z.of_N (code (pretty_N_char r)) - 48 = Z.of_N r.
Proof.
  intros Hr.
  assert (r = 0 \/ r = 1 \/ r = 2 \/ r = 3 \/ r = 4 \/ r = 5 \/ r = 6
          \/ r = 7 \/ r = 8 \/ r = 9)%N as H by lia.
  repeat (destruct H as [->|H]; [by vm_compute|]). subst r. by vm_compute.
Qed.

(** Reading back the digits [pretty_N_go] writes in front of [s]. *)
Lemma digits_value_go x :
  exists m, forall s acc b,
    digits_value (pretty_N_go x s) acc b
    = if decide (x = 0)%N then digits_value s acc b
      else digits_value s (acc * m + Z.of_N x) true.
Proof.
  induction (N.lt_wf_0 x) as [x _ IH].
  destruct (decide (x = 0)%N) as [->|Hx].
  { exists 1. intros s acc b. by rewrite pretty_N_go_0. }
  destruct (IH (x `div` 10)%N) as [m' Hm']; [apply N.div_lt; lia|].
  destruct (pretty_N_char_digit (x `mod` 10)%N) as [Hd Hc];
    [by apply N.mod_lt|].
  assert (Hx10 : Z.of_N x = 10 * Z.of_N (x `div` 10) + Z.of_N (x `mod` 10)).
  { rewrite (N.div_mod x 10) at 1 by done. lia. }
  exists (if decide (x `div` 10 = 0)%N then 10 else 10 * m').
  intros s acc b. rewrite pretty_N_go_step by lia. rewrite Hm'.
  destruct (decide (x `div` 10 = 0)%N) as [E|E].
  - simpl. rewrite Hd, Hc. f_equal. rewrite E in Hx10. lia.
  - simpl. rewrite Hd, Hc. f_equal. lia.
Qed.

Lemma all_digits_go x : forall s,
  all_chars is_digit s = true -> all_chars is_digit (pretty_N_go x s) = true.
Proof.
  induction (N.lt_wf_0 x) as [x _ IH]. intros s Hs.
  destruct (decide (x = 0)%N) as [->|Hx]; [by rewrite pretty_N_go_0|].
  rewrite pretty_N_go_step by lia. apply IH; [apply N.div_lt; lia|].
  simpl. rewrite Hs, andb_true_r.
  apply pretty_N_char_digit. by apply N.mod_lt.
Qed.

Lemma digit_not_space c : is_digit c = true -> is_space c = false.
Proof.
  unfold is_digit, is_space, between. intros H.
  apply andb_true_iff in H as [H1 H2].
  apply N.leb_le in H1, H2.
  apply orb_false_iff. split; apply andb_false_iff.
  - right. apply N.leb_gt. lia.
  - right. apply N.leb_gt. lia.
Qed.

Lemma rstrip_digits s : all_chars is_digit s = true -> rstrip_by is_space s = s.
Proof.
  induction s as [|c r IH]; [done|]. simpl. intros H.
  apply andb_true_iff in H as [Hc Hr]. rewrite (IH Hr).
  destruct r; [|done]. by rewrite (digit_not_space c Hc).
Qed.

Lemma strip_digits s : all_chars is_digit s = true -> strip s = s.
Proof.
  intros H. unfold strip, strip_by.
  assert (lstrip_by is_space s = s) as ->.
  { destruct s as [|c r]; [done|]. simpl in *.
    apply andb_true_iff in H as [Hc _]. by rewrite (digit_not_space c Hc). }
  by apply rstrip_digits.
Qed.

Lemma parse_int_digits s :
  all_chars is_digit s = true -> parse_int s = digits_value s 0 false.
Proof.
  intros H. unfold parse_int. rewrite (strip_digits s H).
  destruct s as [|c r]; [done|]. simpl in H.
  apply andb_true_iff in H as [Hc _].
  destruct (Ascii.eqb_spec c "-") as [->|]; [by vm_compute in Hc|].
  destruct (Ascii.eqb_spec c "+") as [->|]; [by vm_compute in Hc|].
  destruct c as [[] [] [] [] [] [] [] []]; try done.
Qed.

Lemma pretty_pos_digits p :
  all_chars is_digit (pretty (N.pos p)) = true
  /\ digits_value (pretty (N.pos p)) 0 false = Some (Z.pos p).
Proof.
  unfold pretty, pretty_N. rewrite decide_False by done. split.
  - by apply all_digits_go.
  - destruct (digits_value_go (N.pos p)) as [m Hm]. rewrite Hm.
    rewrite decide_False by done. simpl. f_equal.
Qed.

Lemma strip_minus s :
  all_chars is_digit s = true -> s <> "" -> strip (String "-" s) = String "-" s.
Proof.
  intros Hd Hne. unfold strip, strip_by.
  change (lstrip_by is_space (String "-" s)) with (String "-" s).
  cbn [rstrip_by]. rewrite (rstrip_digits s Hd). by destruct s.
Qed.

(** [int(str(z)) = z]. *)
Lemma parse_int_str_of_int z : parse_int (str_of_int z) = Some z.
Proof.
  unfold str_of_int, pretty, pretty_Z. destruct z as [|p|p].
  - reflexivity.
  - destruct (pretty_pos_digits p) as [Hd Hv].
    unfold pretty at 1, pretty_positive. by rewrite parse_int_digits.
  - destruct (pretty_pos_digits p) as [Hd Hv].
    unfold pretty at 1, pretty_positive.
    change ("-" +:+ pretty (N.pos p)) with (String "-" (pretty (N.pos p))).
    unfold parse_int. rewrite strip_minus; [|done|].
    + by rewrite Hv.
    + intros E. rewrite E in Hv. done.
Qed.

End int_text_facts.

(** ** Column naming *)

Section naming_facts.
Import PyStr Naming.

Lemma all_chars_sub_runs_ident b s :
  all_chars is_ident_char (sub_runs (fun c => negb (is_ident_char c)) b s) = true.
Proof.
  revert b. induction s as [|c r IH]; intros b; simpl; [done|].
  destruct (is_ident_char c) eqn:E; simpl.
  - rewrite E. simpl. apply IH.
  - destruct b; simpl; auto.
Qed.

Lemma all_chars_sub_runs_keep p q b s :
  q "_"%char = true ->
  all_chars q s = true -> all_chars q (sub_runs p b s) = true.
Proof.
  intros Hq. revert b. induction s as [|c r IH]; intros b H; simpl in *; [done|].
  apply andb_true_iff in H as [Hc Hr].
  destruct (p c); [destruct b|]; simpl; rewrite ?Hq, ?Hc; simpl; auto.
Qed.

Lemma all_chars_lstrip p q s :
  all_chars q s = true -> all_chars q (lstrip_by p s) = true.
Proof.
  induction s as [|c r IH]; simpl; [done|]. intros H.
  destruct (p c); [|done]. apply andb_true_iff in H as [_ Hr]. auto.
Qed.

Lemma all_chars_rstrip p q s :
  all_chars q s = true -> all_chars q (rstrip_by p s) = true.
Proof.
  induction s as [|c r IH]; simpl; [done|]. intros H.
  apply andb_true_iff in H as [Hc Hr]. specialize (IH Hr).
  destruct (rstrip_by p r) eqn:E.
  - destruct (p c); simpl; [done|]. by rewrite Hc.
  - simpl in *. by rewrite Hc, IH.
Qed.

Lemma all_chars_take q n s :
  all_chars q s = true -> all_chars q (str_take n s) = true.
Proof.
  revert s. induction n as [|n IH]; intros [|c r]; simpl; try done.
  intros H. apply andb_true_iff in H as [Hc Hr]. rewrite Hc. simpl. auto.
Qed.

Lemma all_chars_app q s t :
  all_chars q s = true -> all_chars q t = true -> all_chars q (s +:+ t) = true.
Proof.
  induction s as [|c r IH]; simpl; [done|]. intros H Ht.
  apply andb_true_iff in H as [Hc Hr]. rewrite Hc. simpl. auto.
Qed.

(** The first character left by [lstrip_by p] does not satisfy [p]. *)
Lemma lstrip_head p s c r : lstrip_by p s = String c r -> p c = false.
Proof.
  induction s as [|c' r' IH]; simpl; [done|].
  destruct (p c') eqn:E; [done|]. intros [= <- <-]. done.
Qed.

Lemma rstrip_head p c r :
  p c = false -> exists r', rstrip_by p (String c r) = String c r'.
Proof.
  intros Hc. simpl. destruct (rstrip_by p r); [rewrite Hc|]; eauto.
Qed.

Lemma rstrip_empty_or_head p s :
  rstrip_by p s = "" \/ exists c r r', s = String c r /\ rstrip_by p s = String c r'.
Proof.
  destruct s as [|c r]; [by left|]. simpl.
  destruct (rstrip_by p r); [destruct (p c)|]; eauto 6.
Qed.

Lemma ident_first_letter c :
  is_ident_char c = true -> is_underscore c = false -> is_digit c = false ->
  is_lower_az c = true.
Proof.
  unfold is_ident_char, is_underscore. intros H Hu Hd.
  rewrite Hu, Hd in H. by rewrite !orb_false_r in H.
Qed.

Lemma sanitize_ident_safe name max_len :
  (0 < max_len)%nat ->
  exists s, sanitize_ident name max_len = Some s /\ storage_safe s.
Proof.
  intros Hpos. unfold sanitize_ident.
  set (s2 := sub_runs _ false (lower name)).
  set (s4 := strip_by is_underscore (sub_runs is_underscore false s2)).
  assert (H4 : all_chars is_ident_char s4 = true).
  { apply all_chars_rstrip, all_chars_lstrip, all_chars_sub_runs_keep; [done|].
    apply all_chars_sub_runs_ident. }
  set (s5 := if decide (s4 = "") then "field" else s4).
  assert (H5 : all_chars is_ident_char s5 = true
               /\ exists c r, s5 = String c r /\ is_underscore c = false).
  { unfold s5. destruct (decide (s4 = "")) as [|Hne]; [split; [done|by eexists _, _]|].
    split; [done|]. unfold s4, strip_by in *.
    destruct (rstrip_empty_or_head is_underscore
                (lstrip_by is_underscore (sub_runs is_underscore false s2)))
      as [E|(c & r & r' & E1 & E2)]; [done|].
    rewrite E2. exists c, r'. split; [done|]. by eapply lstrip_head. }
  destruct H5 as [H5 (c & r & E5 & Hc)]. clearbody s5. clear H4.
  set (s6 := if decide (max_len < String.length s5)%nat
             then rstrip_by is_underscore (str_take max_len s5) else s5).
  assert (H6 : all_chars is_ident_char s6 = true /\ exists r', s6 = String c r').
  { unfold s6. destruct (decide (max_len < String.length s5)%nat).
    - split; [by apply all_chars_rstrip, all_chars_take|].
      rewrite E5. destruct max_len as [|n]; [lia|]. simpl str_take.
      by apply rstrip_head.
    - split; [done|]. rewrite E5. eauto. }
  destruct H6 as [H6 [r' E6]]. clearbody s6. rewrite E6.
  eexists. split; [done|]. rewrite <- E6.
  destruct (is_digit c) eqn:Ed.
  - split; [by apply all_chars_app|]. by eexists _, _.
  - split; [done|]. exists c, r'. split; [done|].
    apply ident_first_letter; [|done|done].
    rewrite E6 in H6. simpl in H6. by apply andb_true_iff in H6 as [? _].
Qed.

Lemma suffixed_inj base : Inj eq eq (suffixed base).
Proof.
  intros i j H. unfold suffixed in H.
  apply String.app_inj in H. apply String.app_inj in H.
  by apply (inj pretty) in H.
Qed.

Lemma first_free_spec existing base fuel i0 i :
  first_free existing base fuel i0 = Some i ->
  (i0 <= i)%nat /\ (suffixed base i ∉ existing) /\
  forall j, (i0 <= j < i)%nat -> suffixed base j ∈ existing.
Proof.
  revert i0. induction fuel as [|fuel IH]; intros i0; simpl; [done|].
  destruct (decide _) as [Hin|Hout].
  - intros H. apply IH in H as (Hle & Hfree & Hbelow).
    split; [lia|]. split; [done|]. intros j Hj.
    destruct (decide (j = i0)) as [->|]; [done|]. apply Hbelow. lia.
  - intros [= <-]. split; [lia|]. split; [done|]. intros j Hj. lia.
Qed.

Lemma first_free_none existing base fuel i0 :
  first_free existing base fuel i0 = None ->
  forall j, (i0 <= j < i0 + fuel)%nat -> suffixed base j ∈ existing.
Proof.
  revert i0. induction fuel as [|fuel IH]; intros i0; simpl; [lia|].
  destruct (decide _) as [Hin|Hout]; [|done].
  intros H j Hj. destruct (decide (j = i0)) as [->|]; [done|].
  apply (IH _ H). lia.
Qed.

(** The loop of [unique_column_name] ends: among [size existing + 1]
    candidates one is free. *)
Lemma first_free_total existing base i0 :
  is_Some (first_free existing base (S (size existing)) i0).
Proof.
  destruct (first_free _ _ _ _) eqn:E; [done|exfalso].
  pose proof (first_free_none _ _ _ _ E) as Hall.
  set (cands := suffixed base <$> seq i0 (S (size existing))).
  assert (Hnd : NoDup cands).
  { apply NoDup_fmap_2; [apply suffixed_inj|apply NoDup_seq]. }
  assert (Hsub : (list_to_set cands : gset string) ⊆ existing).
  { intros x Hx. apply elem_of_list_to_set in Hx.
    apply list_elem_of_fmap in Hx as (j & -> & Hj).
    apply elem_of_seq in Hj. apply Hall. lia. }
  apply subseteq_size in Hsub. rewrite size_list_to_set in Hsub by done.
  unfold cands in Hsub. rewrite length_fmap, length_seq in Hsub. lia.
Qed.

Lemma unique_column_name_spec existing base :
  exists col,
    unique_column_name existing base = Some (col, {[col]} ∪ existing)
    /\ (col ∉ existing)
    /\ (base ∉ existing -> col = base)
    /\ (base ∈ existing ->
        exists i, (2 <= i)%nat /\ col = suffixed base i /\
                  forall j, (2 <= j < i)%nat -> suffixed base j ∈ existing).
Proof.
  unfold unique_column_name. destruct (decide (base ∈ existing)) as [Hin|Hout].
  - destruct (first_free_total existing base 2) as [i Hi]. rewrite Hi. simpl.
    apply first_free_spec in Hi as (Hle & Hfree & Hbelow).
    exists (suffixed base i). repeat split; [done|done|]. intros _. eauto.
  - exists base. repeat split; done.
Qed.

Lemma naming_rule_taken t1 t2 f c : t1 = t2 -> naming_rule t1 f c -> naming_rule t2 f c.
Proof. by intros ->. Qed.

Lemma assign_columns_spec fields : forall existing,
  exists cols,
    assign_columns existing fields = Some cols
    /\ cols.*1 = fields
    /\ NoDup cols.*2
    /\ (forall c, c ∈ cols.*2 -> c ∉ existing)
    /\ (forall k f c, cols !! k = Some (f, c) ->
          naming_rule (existing ∪ list_to_set (take k cols).*2) f c).
Proof.
  induction fields as [|f rest IH]; intros existing.
  { exists []. simpl. repeat split; [constructor|set_solver|done]. }
  destruct (sanitize_ident_safe f DEFAULT_MAX_LEN) as (base & Hb & Hsafe);
    [unfold DEFAULT_MAX_LEN; lia|].
  destruct (unique_column_name_spec existing base) as (col & Hu & Hfresh & Hbare & Hsuf).
  destruct (IH ({[col]} ∪ existing)) as (cols & Ha & Hfst & Hnd & Hout & Hrule).
  exists ((f, col) :: cols). simpl. rewrite Hb. simpl. rewrite Hu. simpl.
  rewrite Ha. simpl. repeat split.
  - f_equal. exact Hfst.
  - constructor; [|exact Hnd]. intros Hin.
    pose proof (Hout col Hin) as Hn. apply Hn, elem_of_union_l, elem_of_singleton. reflexivity.
  - intros c Hc. apply elem_of_cons in Hc as [->|Hc]; [done|].
    pose proof (Hout c Hc) as Hn. intros Hex. apply Hn, elem_of_union_r, Hex.
  - intros [|k] f' c' Hk; simpl in *.
    + injection Hk as <- <-. exists base.
      rewrite (right_id_L ∅ (∪) existing).
      split; [exact Hb|]. split; [exact Hsafe|]. split; assumption.
    + apply Hrule in Hk. revert Hk. apply naming_rule_taken.
      rewrite (comm_L (∪) {[col]} existing). symmetry. apply (assoc_L (∪)).
Qed.

Lemma digit_is_ident s :
  all_chars is_digit s = true -> all_chars is_ident_char s = true.
Proof.
  induction s as [|c r IH]; [done|]. simpl. intros H.
  apply andb_true_iff in H as [Hc Hr]. rewrite (IH Hr), andb_true_r.
  unfold is_ident_char. by rewrite Hc, orb_true_r.
Qed.

Lemma pretty_nat_digits (i : nat) : all_chars is_digit (pretty i) = true.
Proof.
  unfold pretty, pretty_nat, pretty, pretty_N.
  destruct (decide (N.of_nat i = 0)%N); [done|]. by apply all_digits_go.
Qed.

Lemma suffixed_safe base i : storage_safe base -> storage_safe (suffixed base i).
Proof.
  intros [Hall (c & r & -> & Hc)]. split.
  - unfold suffixed. apply all_chars_app; [done|].
    apply all_chars_app; [done|]. apply digit_is_ident, pretty_nat_digits.
  - by exists c, (r +:+ "_" +:+ pretty i).
Qed.

Lemma naming_rule_safe taken f c : naming_rule taken f c -> storage_safe c.
Proof.
  intros (base & _ & Hsafe & Hbare & Hsuf).
  destruct (decide (base ∈ taken)) as [Hin|Hout].
  - destruct (Hsuf Hin) as (i & _ & -> & _). by apply suffixed_safe.
  - by rewrite (Hbare Hout).
Qed.

(** C7: the fields are named in declaration order; each name is
    sanitized into a storage-safe identifier; a field keeps the bare
    sanitized name when no name written before (a base column or an
    earlier field) is equal to it, and otherwise gets that name with a
    numeric suffix, the first free one from 2 on; the columns assigned
    within one entity are pairwise distinct, and distinct from the base
    columns. *)
Theorem build_colmap_distinct (fields : list string) :
  exists cols,
    build_colmap fields = Some cols
    /\ cols.*1 = fields
    /\ NoDup cols.*2
    /\ (forall c, c ∈ cols.*2 -> c ∉ base_columns)
    /\ (forall k f c, cols !! k = Some (f, c) ->
          naming_rule (base_columns ∪ list_to_set (take k cols).*2) f c
          /\ storage_safe c).
Proof.
  destruct (assign_columns_spec fields base_columns)
    as (cols & H1 & H2 & H3 & H4 & H5).
  exists cols. split; [exact H1|]. split; [exact H2|]. split; [exact H3|].
  split; [exact H4|]. intros k f c Hk. split; [by apply H5|].
  eapply naming_rule_safe. by apply H5.
Qed.

End naming_facts.

Section cursor_facts.
Import Py Db Cursor Mapping Sync Client.
Context {B : Builtins}.

Lemma get_after_reset d ek : get_sync_cursor (set_sync_cursor d ek 0) ek = 0.
Proof.
  unfold get_sync_cursor, set_sync_cursor, with_sync_state. simpl.
  by rewrite lookup_insert_eq.
Qed.

Lemma validate_stale d ek tn t :
  tables d !! tn = Some t ->
  default 0 (max_id t) + SAFETY_MARGIN < get_sync_cursor d ek ->
  (validate_sync_cursor d ek tn).2 = 0
  /\ get_sync_cursor (validate_sync_cursor d ek tn).1 ek = 0.
Proof.
  intros Ht Hfar. unfold validate_sync_cursor. rewrite Ht.
  destruct (get_sync_cursor d ek =? 0) eqn:E0.
  - simpl. split; [done|]. by apply Z.eqb_eq.
  - apply Z.ltb_lt in Hfar. rewrite Hfar. simpl. split; [done|].
    apply get_after_reset.
Qed.

Lemma validate_within d ek tn t :
  tables d !! tn = Some t ->
  get_sync_cursor d ek <= default 0 (max_id t) + SAFETY_MARGIN ->
  validate_sync_cursor d ek tn = (d, get_sync_cursor d ek).
Proof.
  intros Ht Hnear. unfold validate_sync_cursor. rewrite Ht.
  destruct (get_sync_cursor d ek =? 0) eqn:E0.
  - apply Z.eqb_eq in E0. by rewrite E0.
  - apply Z.ltb_ge in Hnear. by rewrite Hnear.
Qed.

Lemma get_after_set d ek c : get_sync_cursor (set_sync_cursor d ek c) ek = c.
Proof.
  unfold get_sync_cursor, set_sync_cursor, with_sync_state. simpl.
  rewrite lookup_insert_eq. by rewrite parse_int_str_of_int.
Qed.

Lemma first_start e limit d tn t now answer rest :
  table_name_for_entity (entity_key_of e) = Some tn ->
  tables d !! tn = Some t ->
  head (starts_of (sync_entity_data e limit d ((now, answer) :: rest)))
  = Some (validate_sync_cursor d (entity_key_of e) tn).2.
Proof.
  intros Htn Ht. unfold sync_entity_data. rewrite Htn, Ht.
  destruct (validate_sync_cursor _ _ _) as [d0 off]. simpl.
  by destruct (sync_step _ _ _ _ _ _ _ _ _ _); [destruct (sync_loop _ _ _ _ _ _ _ _ _)| |].
Qed.

(** C4: with the entity's table in place, a stored cursor more than 1000
    above the largest stored id is reset (the call returns 0 and the
    store reads 0 afterwards) and the first request of the next sync
    starts at 0; a cursor within the margin is returned as it is, the
    store unchanged, and the first request starts there. *)
Theorem stale_cursor_reset (d : db) (ek tn : string) (t : table) :
  tables d !! tn = Some t ->
  let c := get_sync_cursor d ek in
  let m := default 0 (max_id t) in
  let first_request e limit now answer rest :=
    head (starts_of (sync_entity_data e limit d ((now, answer) :: rest))) in
  (m + SAFETY_MARGIN < c ->
     (validate_sync_cursor d ek tn).2 = 0
     /\ get_sync_cursor (validate_sync_cursor d ek tn).1 ek = 0
     /\ forall e limit now answer rest,
          entity_key_of e = ek -> table_name_for_entity ek = Some tn ->
          first_request e limit now answer rest = Some 0)
  /\ (c <= m + SAFETY_MARGIN ->
       validate_sync_cursor d ek tn = (d, c)
       /\ forall e limit now answer rest,
            entity_key_of e = ek -> table_name_for_entity ek = Some tn ->
            first_request e limit now answer rest = Some c).
Proof.
  intros Ht c m first_request. split.
  - intros Hfar. destruct (validate_stale d ek tn t Ht Hfar) as [H1 H2].
    split; [done|]. split; [done|]. intros e limit now answer rest <- Htn.
    unfold first_request. rewrite (first_start e limit d tn t) by done.
    by f_equal.
  - intros Hnear. pose proof (validate_within d ek tn t Ht Hnear) as H.
    split; [done|]. intros e limit now answer rest <- Htn.
    unfold first_request. rewrite (first_start e limit d tn t) by done.
    by rewrite H.
Qed.

End cursor_facts.

Lemma stale_cursor_reset_witness :
  ((Cursor.validate_sync_cursor Demo.stale_db "contact" "b24_crm_contact").2 = 0
   /\ Cursor.get_sync_cursor
        (Cursor.validate_sync_cursor Demo.stale_db "contact" "b24_crm_contact").1
        "contact" = 0
   /\ head (Sync.starts_of
              (Sync.sync_entity_data (B := Demo.builtins) Sync.Contact 0
                 Demo.stale_db [(100, Client.Returned Py.PNone)])) = Some 0)
  /\ (Cursor.validate_sync_cursor Demo.fresh_db "contact" "b24_crm_contact"
      = (Demo.fresh_db, 7)
      /\ head (Sync.starts_of
                 (Sync.sync_entity_data (B := Demo.builtins) Sync.Contact 0
                    Demo.fresh_db [(100, Client.Returned Py.PNone)])) = Some 7).
Proof.
  split.
  - destruct (stale_cursor_reset (B := Demo.builtins) Demo.stale_db "contact"
                "b24_crm_contact" Demo.contact_table eq_refl) as [H _].
    destruct H as (H1 & H2 & H3); [vm_compute; reflexivity|].
    split; [exact H1|]. split; [exact H2|]. by apply H3.
  - destruct (stale_cursor_reset (B := Demo.builtins) Demo.fresh_db "contact"
                "b24_crm_contact" Demo.contact_table eq_refl) as [_ H].
    destruct H as (H1 & H2); [vm_compute; discriminate|].
    split; [exact H1|]. by apply H2.
Defined.

Section normalize_facts.
Import PyStr Py Normalize.
Context {B : Builtins}.

Lemma normalize_value_is_second v ty m :
  normalize_value v ty m = normalize_value_2 v ty m.
Proof.
  unfold normalize_value, module_namespace, exec_def.
  by rewrite lookup_insert_eq.
Qed.

Lemma normalize_value_2_scalar v ty :
  normalize_value_2 v ty false
  = if is_dict_or_list v then PJson v
    else if is_blank_str v && non_text_type ty then PNone else v.
Proof.
  unfold normalize_value_2, non_text_type.
  destruct (is_dict_or_list v); [done|].
  destruct (is_blank_str v); [|done]. simpl.
  destruct ty as [t|]; [|done]. by destruct (_ || _).
Qed.

(** C10: the name [normalize_value] is bound twice and a call reaches
    the second definition.  That one wraps multiple-valued fields and
    dict/list values in [Json], turns a blank string of a non-text field
    into [None] and returns every other value as it is: ['Y'] of a
    boolean field and ['12,5'] of a numeric field are stored unchanged,
    where the first definition would have given [True] and the parsed
    number. *)
Theorem normalize_value_shadowed :
  module_namespace !! "normalize_value" = Some normalize_value_2
  /\ module_namespace !! "normalize_value" <> Some normalize_value_1
  /\ (forall v ty, normalize_value v ty true = wrap_multiple v)
  /\ (forall v ty,
        normalize_value v ty false
        = if is_dict_or_list v then PJson v
          else if is_blank_str v && non_text_type ty then PNone else v)
  /\ normalize_value (PStr "Y") (Some "boolean") false = PStr "Y"
  /\ normalize_value (PStr "12,5") (Some "double") false = PStr "12,5"
  /\ normalize_value_1 (PStr "Y") (Some "boolean") false = PBool true
  /\ normalize_value_1 (PStr "12,5") (Some "double") false
     = match float_of_str "12.5" with
       | Some f => PFloat f
       | None => PStr "12,5"
       end.
Proof.
  assert (Hns : module_namespace !! "normalize_value" = Some normalize_value_2).
  { unfold module_namespace, exec_def. by rewrite lookup_insert_eq. }
  split; [exact Hns|]. split.
  { rewrite Hns. intros [= E].
    assert (H : normalize_value_2 (PStr "Y") (Some "boolean") false
                = normalize_value_1 (PStr "Y") (Some "boolean") false)
      by (by rewrite E).
    vm_compute in H. discriminate. }
  split; [intros v ty; by rewrite normalize_value_is_second|].
  split; [intros v ty; rewrite normalize_value_is_second;
          apply normalize_value_2_scalar|].
  split; [by rewrite normalize_value_is_second|].
  split; [by rewrite normalize_value_is_second|].
  split; [reflexivity|].
  unfold normalize_value_1. simpl.
  destruct (float_of_str _); reflexivity.
Qed.

End normalize_facts.

Section client_facts.
Import PyStr Py Client Sync.
Context {B : Builtins}.

Lemma overload_verdict r :
  reports_overload r -> attempt_verdict r = Done (Returned overload_result).
Proof.
  destruct r as [|status [[]|]]; try done. simpl.
  intros [Hst Herr]. unfold overload_in_401, dict_has, get_or_none.
  rewrite Herr. simpl. by destruct Hst as [-> | ->].
Qed.

Lemma call_from_overload server k : forall remaining attempt,
  (k < remaining)%nat ->
  (forall j, (j < k)%nat -> retried (server (attempt + j)%nat)) ->
  reports_overload (server (attempt + k)%nat) ->
  call_from server remaining attempt = (Returned overload_result, seq attempt k).
Proof.
  induction k as [|k IH]; intros remaining attempt Hlt Hretry Hover.
  - destruct remaining as [|remaining]; [lia|]. simpl.
    rewrite Nat.add_0_r in Hover. by rewrite (overload_verdict _ Hover).
  - destruct remaining as [|remaining]; [lia|]. simpl.
    pose proof (Hretry 0%nat ltac:(lia)) as H0. rewrite Nat.add_0_r in H0.
    unfold retried in H0. rewrite H0.
    rewrite (IH remaining (S attempt)); [done|lia| |].
    + intros j Hj. replace (S attempt + j)%nat with (attempt + S j)%nat by lia.
      apply Hretry. lia.
    + by replace (S attempt + k)%nat with (attempt + S k)%nat by lia.
Qed.

(** C6: when the remote side answers request number [k] of a call with
    the overload signal (HTTP 401 or HTTP 200 carrying the error
    [OVERLOAD_LIMIT]), the requests before it having been taken up again,
    [call] returns [{"error": "OVERLOAD_LIMIT", "result": []}] and raises
    nothing; the list helpers turn that answer into an empty page. *)
Theorem call_returns_empty_on_overload (max_retries : nat)
        (server : nat -> http_result) (k : nat) :
  (k < max_retries)%nat ->
  (forall j, (j < k)%nat -> retried (server j)) ->
  reports_overload (server k) ->
  call max_retries server = (Returned overload_result, seq 0 k)
  /\ get_or_none [("error", PStr OVERLOAD_LIMIT); ("result", PList [])] "result"
     = PList []
  /\ (list_helper_answer overload_result ≫= normalize_list_result)
     = Some ([], None).
Proof.
  intros Hk Hretry Hover. split; [|split; reflexivity].
  unfold call. apply call_from_overload; done.
Qed.

End client_facts.

Lemma call_returns_empty_on_overload_witness :
  Client.call (B := Demo.builtins) 8 Demo.overloaded_server
  = (Client.Returned Client.overload_result, [0; 1]%nat).
Proof.
  apply (call_returns_empty_on_overload (B := Demo.builtins) 8
           Demo.overloaded_server 2).
  - lia.
  - intros j Hj. destruct j as [|[|j]]; [reflexivity|reflexivity|lia].
  - simpl. split; [left|]; reflexivity.
Defined.

Section webhook_facts.
Import PyStr Py Db Upsert Client Mapping Webhook.
Context {B : Builtins}.

Lemma pending_for_enqueue now d ek eid ev p :
  exists e,
    pending_for (_enqueue_webhook_event now d ek eid ev p) ek eid
    = (pending_for d ek eid ++ [e])%list
    /\ q_status e = "new" /\ q_id e = queue_seq d + 1.
Proof.
  eexists. unfold pending_for, _enqueue_webhook_event, with_queue. simpl.
  rewrite filter_app. split.
  - f_equal. rewrite filter_cons_True; [reflexivity|]. simpl. done.
  - split; reflexivity.
Qed.

(** C1, what the code does: every notification adds a row with status
    [new]; after two notifications for the same entity there are two more
    pending rows for it than before. *)
Theorem enqueue_twice_two_pending (now1 now2 : Z) (d : db) (ek : string)
        (eid : Z) (ev1 ev2 : string) (p1 p2 : pyval) :
  length (pending_for
            (_enqueue_webhook_event now2
               (_enqueue_webhook_event now1 d ek eid ev1 p1) ek eid ev2 p2)
            ek eid)
  = (2 + length (pending_for d ek eid))%nat
  /\ length (pending_for Demo.notified_twice "contact" 5) = 2%nat.
Proof.
  split; [|reflexivity].
  destruct (pending_for_enqueue now2 (_enqueue_webhook_event now1 d ek eid ev1 p1)
              ek eid ev2 p2) as (e2 & -> & _).
  destruct (pending_for_enqueue now1 d ek eid ev1 p1) as (e1 & -> & _).
  rewrite !length_app. simpl. lia.
Qed.

Lemma queue_update_event d qid f :
  queue (update_event d qid f)
  = (fun ev => if bool_decide (q_id ev = qid) then f ev else ev) <$> queue d.
Proof. reflexivity. Qed.

Lemma update_event_twice d qid f g :
  (forall ev, q_id (f ev) = q_id ev) ->
  queue (update_event (update_event d qid f) qid g)
  = (fun ev => if bool_decide (q_id ev = qid) then g (f ev) else ev) <$> queue d.
Proof.
  intros Hid. rewrite !queue_update_event, <- list_fmap_compose.
  apply list_fmap_ext. intros _ ev _. simpl.
  destruct (bool_decide (q_id ev = qid)) eqn:E; [|by rewrite E].
  by rewrite Hid, E.
Qed.

Lemma upsert_single_false now d ek item_v d2 :
  _upsert_single_item now d ek item_v = Upserted d2 false -> d2 = d.
Proof.
  unfold _upsert_single_item. intros H.
  repeat match type of H with
         | match ?x with _ => _ end = _ => destruct x eqn:?; try discriminate
         | (if ?x then _ else _) = _ => destruct x eqn:?; try discriminate
         end; congruence.
Qed.

(** C3 (as amended): a job whose event name contains DELETE or REMOVE
    is finished without any remote call: its row is marked [processing]
    and then [done], nothing else in the queue changes. *)
Theorem delete_event_marked_done (srv : remote) (now : Z) (d : db) (j : job) :
  is_delete_event (j_event_name j) = true ->
  exists d',
    process_job srv now d j
    = JobDone d' [StatusSet (j_id j) "processing"; StatusSet (j_id j) "done"]
    /\ filter (fun e => is_remote_call e = true)
              (result_trace (process_job srv now d j)) = []
    /\ statuses_of (j_id j) (result_trace (process_job srv now d j))
       = ["processing"; "done"]
    /\ queue d'
       = (fun ev => if bool_decide (q_id ev = j_id j)
                    then set_done now (set_processing ev) else ev) <$> queue d.
Proof.
  intros Hdel. unfold process_job. rewrite Hdel. eexists. split; [reflexivity|].
  split; [reflexivity|]. split.
  - simpl. by rewrite bool_decide_eq_true_2.
  - by apply update_event_twice.
Qed.

(** C2 (as amended): when the fetch gives nothing or the upsert returns
    [False], the job's row gets status [retry], one more attempt, and
    [next_run_at = now + min(300, 5 * (attempts + 1))] seconds; it stays
    in the queue, pending, and is due again at that time, whatever the
    number of attempts. *)
Theorem failed_job_is_rescheduled (srv : remote) (now : Z) (d : db) (j : job) :
  job_fails srv now d j ->
  (exists d' trace err,
     process_job srv now d j = JobDone d' trace
     /\ statuses_of (j_id j) trace = ["processing"; "retry"]
     /\ queue d'
        = (fun ev => if bool_decide (q_id ev = j_id j)
                     then retried_event now (j_attempts j) err ev else ev)
          <$> queue d)
  /\ (forall ev err,
        let ev' := retried_event now (j_attempts j) err ev in
        q_status ev' = "retry"
        /\ q_attempts ev' = q_attempts ev + 1
        /\ q_next_run_at ev' = Some (now + Z.min 300 (5 * (j_attempts j + 1)))
        /\ is_pending ev' = true
        /\ is_due (now + Z.min 300 (5 * (j_attempts j + 1))) ev' = true).
Proof.
  intros [Hnd Hfail]. split.
  - unfold process_job. rewrite Hnd.
    destruct (_bitrix_get_one srv (j_entity_key j) (j_entity_id j))
      as [item_v calls] eqn:Eget. simpl in Hfail.
    assert (Hst : forall s, statuses_of (j_id j)
                    ([StatusSet (j_id j) "processing"] ++ calls
                     ++ [StatusSet (j_id j) s])%list = ["processing"; s]).
    { intros s. unfold statuses_of. rewrite !omap_app. simpl.
      rewrite bool_decide_eq_true_2 by done.
      assert (Hc : omap (fun e => match e with
                         | StatusSet q s0 =>
                             if bool_decide (q = j_id j) then Some s0 else None
                         | RemoteCall _ _ => None
                         end) calls = []).
      { unfold _bitrix_get_one in Eget.
        repeat match type of Eget with
               | (if ?x then _ else _) = _ => destruct x
               | match ?x with _ => _ end = _ => destruct x
               end; injection Eget as _ <-; reflexivity. }
      by rewrite Hc. }
    destruct Hfail as [Hfalsy | [d2 Hup]].
    + rewrite Hfalsy. simpl negb. cbv iota.
      eexists _, _, _. split; [reflexivity|]. split; [apply Hst|].
      rewrite (update_event_twice d (j_id j) set_processing) by done.
      reflexivity.
    + destruct (truthy item_v).
      * simpl negb. cbv iota. rewrite Hup.
        apply upsert_single_false in Hup as ->.
        eexists _, _, _. split; [reflexivity|]. split; [apply Hst|].
        rewrite (update_event_twice d (j_id j) set_processing) by done.
        reflexivity.
      * simpl negb. cbv iota.
        eexists _, _, _. split; [reflexivity|]. split; [apply Hst|].
        rewrite (update_event_twice d (j_id j) set_processing) by done.
        reflexivity.
  - intros ev err ev'. unfold ev', retried_event, backoff_of. simpl.
    repeat split; try reflexivity.
    unfold is_due. simpl. apply Z.leb_refl.
Qed.

End webhook_facts.

Lemma failed_job_is_rescheduled_witness :
  (exists d' trace err,
     Webhook.process_job (B := Demo.builtins) Demo.failing_remote 30
       Demo.update_notified Demo.update_job = Webhook.JobDone d' trace
     /\ Webhook.statuses_of 1 trace = ["processing"; "retry"]
     /\ Db.queue d'
        = (fun ev => if bool_decide (Db.q_id ev = 1)
                     then Webhook.retried_event 30 0 err ev else ev)
          <$> Db.queue Demo.update_notified).
Proof.
  apply (failed_job_is_rescheduled (B := Demo.builtins) Demo.failing_remote 30
           Demo.update_notified Demo.update_job).
  split; [reflexivity|]. left. reflexivity.
Defined.

Lemma delete_event_marked_done_witness :
  exists d',
    Webhook.process_job (B := Demo.builtins) Demo.failing_remote 30
      Demo.delete_notified Demo.delete_job
    = Webhook.JobDone d' [Webhook.StatusSet 1 "processing";
                          Webhook.StatusSet 1 "done"].
Proof.
  destruct (delete_event_marked_done (B := Demo.builtins) Demo.failing_remote 30
              Demo.delete_notified Demo.delete_job) as (d' & H & _);
    [reflexivity|].
  exists d'. exact H.
Defined.

(** C2, where the claim as worded fails: the delays 5, 10, 15, 20 grow
    by a constant step, not by a constant factor, and after seventy
    failed hourly turns the row still has status [retry] (attempts 70),
    not [error]. *)
Lemma backoff_counterexample :
  Webhook.backoff_of <$> [0; 1; 2; 3] = [5; 10; 15; 20]
  /\ Webhook.backoff_of 2 * Webhook.backoff_of 0
     <> Webhook.backoff_of 1 * Webhook.backoff_of 1
  /\ (fun ev => (Db.q_status ev, Db.q_attempts ev))
       <$> Db.queue (Webhook.worker_turns (B := Demo.builtins)
                       Demo.failing_remote (Demo.hourly 70) Demo.update_notified)
     = [("retry", 70)].
Proof. split; [reflexivity|]. split; [vm_compute; discriminate|]. vm_compute. reflexivity. Qed.

(** C3, where the claim as worded fails: after the worker handled the
    notification that contact 5 was deleted, the row has gone through
    [processing] before [done], and the contact table still holds the
    record with id 5. *)
Lemma delete_event_counterexample :
  let r := Webhook.worker_turn (B := Demo.builtins) Demo.failing_remote 30
             Demo.delete_notified in
  Webhook.result_trace r
  = [Webhook.StatusSet 1 "processing"; Webhook.StatusSet 1 "done"]
  /\ Db.tables (Webhook.result_db r) = Db.tables Demo.delete_notified
  /\ (Db.row_id <$> Db.t_rows Demo.contact_table) = [Some 5; Some 7]
  /\ Db.tables (Webhook.result_db r) !! "b24_crm_contact" = Some Demo.contact_table.
Proof. vm_compute. repeat split; reflexivity. Qed.

Section sync_facts.
Import PyStr Py Db Cursor Upsert Client Mapping Sync.
Context {B : Builtins}.

Lemma stored_after_set d ek c :
  sync_state (set_sync_cursor d ek c) !! ek = Some (Some (str_of_int c)).
Proof. unfold set_sync_cursor, with_sync_state. simpl. apply lookup_insert_eq. Qed.

(** C8 (as amended): after a step whose page was upserted, the persisted
    cursor is the server's [next] token when the answer carries one (and
    the following request starts there); when the answer carries none,
    the loop ends and the persisted cursor is the id of the last row of
    the page, or the offset the step started from if the page gave no
    row or that id is 0. *)
Theorem offset_cursor_after_step (e : entity) (tn : string)
        (colmap : list meta_field) (co : list string) (limit : Z) (d d1 : db)
        (last_offset total now : Z) (resp : pyval) (items : list item)
        (nxt : option Z) (rows : list (list pyval)) :
  (list_helper_answer resp ≫= normalize_list_result) = Some (items, nxt) ->
  items <> [] ->
  build_rows e colmap co items = Some rows ->
  upsert_rows now d tn co rows = Some d1 ->
  let r := sync_step e tn colmap co limit d last_offset total now (Returned resp) in
  let ek := entity_key_of e in
  let total' := total + Z.of_nat (length rows) in
  (forall n, nxt = Some n ->
     sync_state (step_db r) !! ek = Some (Some (str_of_int n))
     /\ get_sync_cursor (step_db r) ek = n
     /\ (r = Continue (set_sync_cursor d1 ek n) n total'
         \/ r = Break (set_sync_cursor d1 ek n) total'))
  /\ (nxt = None ->
       (forall z, last_row_id rows = Some (PInt z) -> z <> 0 ->
          r = Break (set_sync_cursor d1 ek z) total')
       /\ (last_row_id rows = Some (PInt 0) \/ rows = [] ->
           r = Break (set_sync_cursor d1 ek last_offset) total')).
Proof.
  intros Hpage Hne Hrows Hup r ek total'. subst r.
  unfold sync_step. rewrite Hpage.
  destruct items as [|it items']; [done|]. rewrite Hrows, Hup. fold ek total'.
  split.
  - intros n ->.
    destruct (negb (_is_unlimited limit) && (limit <=? total')); simpl;
      (split; [apply stored_after_set|]); (split; [apply get_after_set|]); auto.
  - intros ->. split.
    + intros z Hlast Hz. rewrite Hlast. simpl.
      destruct (z =? 0) eqn:E; [apply Z.eqb_eq in E; done|]. done.
    + intros [Hlast | ->]; [by rewrite Hlast|done].
Qed.

Lemma fill_row_keeps_id style colmap it (r : gmap string pyval) :
  (forall m, m ∈ colmap -> mf_column_name m <> "id") ->
  fill_row style colmap it r !! "id" = r !! "id".
Proof.
  unfold fill_row. revert r. induction colmap as [|m colmap IH]; intros r Hno; [done|].
  simpl foldl. rewrite IH.
  - destruct (field_value style it (mf_b24_field m)); try done;
      (rewrite lookup_insert_ne; [done|]; apply Hno, list_elem_of_here).
  - intros m' Hm'. by apply Hno, list_elem_of_further.
Qed.

Lemma dedup_columns_first c rest :
  dedup_columns ∅ (c :: rest) = c :: dedup_columns ({[c]} ∪ ∅) rest.
Proof. simpl. by rewrite decide_False by apply not_elem_of_empty. Qed.

(** The rows the mapping builds are mapped record rows in the sense of
    the upsert: their first value is the record id, an integer, as long
    as no remote field is mapped to the column [id] (which
    [unique_column_name] never does, [id] being a base column). *)
Lemma build_rows_carry_id e colmap items : forall rows,
  (forall m, m ∈ colmap -> mf_column_name m <> "id") ->
  build_rows e colmap (col_order_of colmap) items = Some rows ->
  forall vals, vals ∈ rows -> carries_id (col_order_of colmap) vals.
Proof.
  induction items as [|it items IH]; intros rows Hno Hb vals Hin.
  { injection Hb as <-. by apply elem_of_nil in Hin. }
  simpl in Hb. destruct (negb (truthy (item_id e it))); [by eapply IH|].
  destruct (py_int (item_id e it)) as [z|]; [|done]. simpl in Hb.
  destruct (build_rows e colmap (col_order_of colmap) items) as [tl|] eqn:Etl;
    [|done]. simpl in Hb. injection Hb as <-.
  apply elem_of_cons in Hin as [->|Hin]; [|by eapply IH].
  exists z. unfold col_order_of. rewrite dedup_columns_first.
  set (tail := dedup_columns _ _).
  unfold proposed_id, proposed_row, row_values.
  rewrite decide_True by apply list_elem_of_here.
  cbn [zip zip_with list_to_map foldr uncurry].
  rewrite lookup_insert_eq. rewrite fill_row_keeps_id by done.
  rewrite lookup_insert_ne by done. by rewrite lookup_insert_eq.
Qed.

Lemma table_name_total e : is_Some (table_name_for_entity (entity_key_of e)).
Proof.
  destruct e as [| |etid]; [done|done|].
  unfold table_name_for_entity, entity_key_of.
  change (String.eqb ("sp:" +:+ str_of_int etid) "deal") with false.
  change (String.eqb ("sp:" +:+ str_of_int etid) "contact") with false.
  change (String.eqb ("sp:" +:+ str_of_int etid) "lead") with false.
  change (is_prefix "sp:" ("sp:" +:+ str_of_int etid)) with true. cbv iota.
  destruct (sanitize_ident_safe (str_skip 3 ("sp:" +:+ str_of_int etid)) 20)
    as (s & -> & _); [lia|]. done.
Qed.

End sync_facts.

Lemma offset_cursor_after_step_witness :
  let r := Sync.sync_step (B := Demo.builtins) Sync.Contact "b24_crm_contact"
             Demo.contact_meta ["id"; "raw"; "name"] 0 Demo.fresh_db 7 0 100
             (Client.Returned Demo.middle_page) in
  Db.sync_state (Sync.step_db r) !! "contact" = Some (Some "50").
Proof.
  destruct (Upsert.upsert_rows 100 Demo.fresh_db "b24_crm_contact"
              ["id"; "raw"; "name"]
              [[Py.PInt 9; Py.PJson (Py.PDict [("ID", Py.PStr "9"); ("NAME", Py.PStr "Lia")]);
                Py.PStr "Lia"]]) as [d1|] eqn:Hup; [|vm_compute in Hup; discriminate].
  destruct (offset_cursor_after_step (B := Demo.builtins) Sync.Contact
           "b24_crm_contact" Demo.contact_meta ["id"; "raw"; "name"] 0
           Demo.fresh_db d1 7 0 100 Demo.middle_page
           [[("ID", Py.PStr "9"); ("NAME", Py.PStr "Lia")]] (Some 50)
           [[Py.PInt 9; Py.PJson (Py.PDict [("ID", Py.PStr "9"); ("NAME", Py.PStr "Lia")]);
             Py.PStr "Lia"]]) as [H _];
    [reflexivity | discriminate | reflexivity | exact Hup |].
  exact (proj1 (H 50 eq_refl)).
Defined.

(** C8, where the claim as worded fails: the last page carries no
    [next] token, the step succeeds, and the cursor persisted after it is
    9, the id of the record on the page. *)
Lemma offset_cursor_counterexample :
  let r := Sync.sync_step (B := Demo.builtins) Sync.Contact "b24_crm_contact"
             Demo.contact_meta ["id"; "raw"; "name"] 0 Demo.fresh_db 7 0 100
             (Client.Returned Demo.last_page) in
  (Client.list_helper_answer Demo.last_page ≫= Sync.normalize_list_result)
  = Some ([[("ID", Py.PStr "9"); ("NAME", Py.PStr "Lia")]], None)
  /\ (exists d' n, r = Sync.Break d' n)
  /\ Db.sync_state (Sync.step_db r) !! "contact" = Some (Some "9")
  /\ ~ Sync.cursor_is_next_token Demo.last_page (Sync.step_db r) "contact".
Proof.
  split; [reflexivity|]. split; [vm_compute; eauto|]. split; [reflexivity|].
  intros (items & n & H & _). vm_compute in H. discriminate.
Qed.

Section upsert_facts.
Import Py Db Upsert.

Lemma lookup_write c v (r : gmap string pyval) c' :
  write c v r !! c' = if decide (c = c') then stored v else r !! c'.
Proof.
  unfold write. destruct (decide (c = c')) as [->|Hne].
  - destruct v; simpl; rewrite ?lookup_delete_eq, ?lookup_insert_eq; done.
  - destruct v; simpl; rewrite ?lookup_delete_ne, ?lookup_insert_ne; done.
Qed.

Lemma lookup_write_cols cs (p r : gmap string pyval) c :
  write_cols cs p r !! c
  = if decide (c ∈ cs) then stored (default PNone (p !! c)) else r !! c.
Proof.
  unfold write_cols. revert r. induction cs as [|a cs IH]; intros r.
  - destruct (decide (c ∈ [])) as [H|_]; [by apply elem_of_nil in H|done].
  - simpl foldl. rewrite IH, lookup_write.
    destruct (decide (c ∈ cs)) as [Hin|Hout];
      destruct (decide (c ∈ a :: cs)) as [Hin'|Hout']; try done.
    + exfalso. apply Hout'. by apply list_elem_of_further.
    + apply elem_of_cons in Hin' as [->|]; [|done]. by rewrite decide_True.
    + rewrite decide_False; [done|]. intros ->. apply Hout', list_elem_of_here.
Qed.

Lemma set_cols_spec co c :
  c ∈ set_cols co <-> c ∈ co /\ c <> "id" /\ c <> "created_at" /\ c <> "updated_at".
Proof.
  unfold set_cols, NOT_SET. rewrite list_elem_of_filter.
  rewrite !not_elem_of_cons. split.
  - intros [(? & ? & ? & _) ?]. done.
  - intros (? & ? & ? & ?). repeat split; try done. apply not_elem_of_nil.
Qed.

Lemma lookup_updated_row now co p r c :
  updated_row now co p r !! c
  = if decide (c = "updated_at") then Some (PDatetime now)
    else if decide (c ∈ set_cols co) then stored (default PNone (p !! c))
         else r !! c.
Proof.
  unfold updated_row. destruct (decide (c = "updated_at")) as [->|Hne].
  - by rewrite lookup_insert_eq.
  - rewrite lookup_insert_ne by done. apply lookup_write_cols.
Qed.

Lemma lookup_inserted_row now co p c :
  inserted_row now co p !! c
  = if decide (c ∈ co) then stored (default PNone (p !! c))
    else if decide (c = "created_at" \/ c = "updated_at")
         then Some (PDatetime now) else None.
Proof.
  unfold inserted_row. rewrite lookup_write_cols.
  destruct (decide (c ∈ co)); [done|].
  destruct (decide (c = "created_at")) as [->|H1].
  { rewrite lookup_insert_eq. by rewrite decide_True by (by left). }
  rewrite lookup_insert_ne by done.
  destruct (decide (c = "updated_at")) as [->|H2].
  { rewrite lookup_insert_eq. by rewrite decide_True by (by right). }
  rewrite lookup_insert_ne by done. rewrite decide_False by (intros [?|?]; done).
  done.
Qed.

Lemma row_id_updated now co p r : row_id (updated_row now co p r) = row_id r.
Proof.
  unfold row_id. rewrite lookup_updated_row.
  rewrite decide_False by done.
  rewrite decide_False; [done|]. rewrite set_cols_spec. intros (_ & H & _). done.
Qed.

Lemma row_id_inserted now co p z :
  "id" ∈ co -> p !! "id" = Some (PInt z) ->
  row_id (inserted_row now co p) = Some z.
Proof.
  intros Hin Hp. unfold row_id. rewrite lookup_inserted_row.
  rewrite decide_True by done. by rewrite Hp.
Qed.

Lemma forget_update_update now1 now2 co (p r : gmap string pyval) :
  delete "updated_at" (updated_row now2 co p (updated_row now1 co p r))
  = delete "updated_at" (updated_row now1 co p r).
Proof.
  apply map_eq. intros c. destruct (decide (c = "updated_at")) as [->|Hne].
  - by rewrite !lookup_delete_eq.
  - rewrite !lookup_delete_ne by done. rewrite !lookup_updated_row.
    destruct (decide (c = "updated_at")); [done|].
    by destruct (decide (c ∈ set_cols co)).
Qed.

Lemma forget_update_insert now1 now2 co (p : gmap string pyval) :
  delete "updated_at" (updated_row now2 co p (inserted_row now1 co p))
  = delete "updated_at" (inserted_row now1 co p).
Proof.
  apply map_eq. intros c. destruct (decide (c = "updated_at")) as [->|Hne].
  - by rewrite !lookup_delete_eq.
  - rewrite !lookup_delete_ne by done. rewrite lookup_updated_row.
    destruct (decide (c = "updated_at")); [done|].
    destruct (decide (c ∈ set_cols co)) as [Hin|]; [|done].
    rewrite lookup_inserted_row. apply set_cols_spec in Hin as [Hin _].
    by rewrite decide_True.
Qed.

Lemma has_id_fmap z (f : gmap string pyval -> gmap string pyval) rows :
  (forall r, row_id (f r) = row_id r) -> has_id z (f <$> rows) = has_id z rows.
Proof.
  intros Hf. unfold has_id. induction rows as [|r rows IH]; [done|].
  rewrite fmap_cons. cbn [existsb]. by rewrite IH, Hf.
Qed.

Lemma has_id_false z rows r :
  has_id z rows = false -> r ∈ rows -> bool_decide (row_id r = Some z) = false.
Proof.
  unfold has_id. induction rows as [|r' rows IH]; simpl.
  - intros _ H. by apply elem_of_nil in H.
  - intros H Hin. apply orb_false_iff in H as [H1 H2].
    apply elem_of_cons in Hin as [->|Hin]; auto.
Qed.

(** Upserting the same tuple into the rows it was just upserted into
    changes nothing but [updated_at]. *)
Lemma upsert_one_twice now1 now2 co rows z (p : gmap string pyval) :
  "id" ∈ co -> p !! "id" = Some (PInt z) ->
  delete "updated_at" <$>
    upsert_one now2 co (upsert_one now1 co rows (Some z) p) (Some z) p
  = delete "updated_at" <$> upsert_one now1 co rows (Some z) p.
Proof.
  intros Hin Hp. unfold upsert_one at 2 3.
  destruct (has_id z rows) eqn:Hhas.
  - unfold upsert_one. rewrite has_id_fmap, Hhas.
    2:{ intros r. destruct (bool_decide _); [apply row_id_updated|done]. }
    rewrite <- !list_fmap_compose. apply list_fmap_ext. intros _ r _. simpl.
    destruct (bool_decide (row_id r = Some z)) eqn:E; [|by rewrite E].
    rewrite row_id_updated, E. apply forget_update_update.
  - unfold upsert_one.
    assert (Hhas' : has_id z (rows ++ [inserted_row now1 co p]) = true).
    { unfold has_id. rewrite existsb_app. simpl.
      rewrite (row_id_inserted now1 co p z) by done.
      rewrite bool_decide_eq_true_2 by done. by rewrite orb_true_r. }
    rewrite Hhas'. rewrite !fmap_app. f_equal.
    + rewrite <- list_fmap_compose. apply list_fmap_ext. intros i r Hr. simpl.
      rewrite (has_id_false z rows r Hhas); [done|].
      by eapply list_elem_of_lookup_2.
    + simpl. rewrite (row_id_inserted now1 co p z) by done.
      rewrite bool_decide_eq_true_2 by done. f_equal.
      apply forget_update_insert.
Qed.

Lemma single_page (vals : list pyval) : pages 1 [vals] = [[vals]].
Proof. reflexivity. Qed.

Lemma run_page_single now co ok rows vals z :
  proposed_id co (proposed_row co vals) = Some (Some z) ->
  run_pages now co ok rows (pages 1 [vals])
  = if ok && (length vals =? length co)%nat
    then Some (upsert_one now co rows (Some z) (proposed_row co vals))
    else None.
Proof.
  intros Hz. rewrite single_page. cbn [run_pages run_page].
  destruct ok; [|done]. cbn [negb andb].
  destruct (length vals =? length co)%nat; [|done]. cbn [negb].
  rewrite Hz. rewrite decide_False by apply not_elem_of_empty. done.
Qed.

Lemma carries_id_inv co (p : gmap string pyval) z :
  proposed_id co p = Some (Some z) -> "id" ∈ co /\ p !! "id" = Some (PInt z).
Proof.
  unfold proposed_id. destruct (decide ("id" ∈ co)); [|done].
  destruct (p !! "id") as [[]|]; try done. by intros [= ->].
Qed.

Lemma upsert_rows_single now d tn columns vals z t :
  tables d !! tn = Some t ->
  proposed_id (dedup_columns ∅ columns)
              (proposed_row (dedup_columns ∅ columns) vals) = Some (Some z) ->
  upsert_rows now d tn columns [vals]
  = let co := dedup_columns ∅ columns in
    if columns_ok t co && (length vals =? length co)%nat
    then Some (with_tables d
                 (<[tn := {| t_columns := t_columns t;
                             t_rows := upsert_one now co (t_rows t) (Some z)
                                         (proposed_row co vals) |}]> (tables d)))
    else None.
Proof.
  intros Ht Hz. unfold upsert_rows. cbn [length]. rewrite Ht.
  cbn [mbind option_bind]. rewrite (run_page_single _ _ _ _ _ z Hz).
  cbv zeta. by destruct (columns_ok t _ && _).
Qed.

(** C5: for a tuple that carries its record id, upserting it a second
    time (at any later time) leaves every table as the first upsert left
    it, the column [updated_at] apart; when the first upsert raises, so
    does the pair, and nothing is stored. *)
Theorem upsert_rows_idempotent (now1 now2 : Z) (d : db) (tn : string)
        (columns : list string) (vals : list pyval) :
  carries_id columns vals ->
  forget_updated_at <$>
    (upsert_rows now1 d tn columns [vals] ≫=
       fun d1 => upsert_rows now2 d1 tn columns [vals])
  = forget_updated_at <$> upsert_rows now1 d tn columns [vals].
Proof.
  intros [z Hz].
  destruct (tables d !! tn) as [t|] eqn:Ht.
  2:{ unfold upsert_rows at 2 3. by rewrite Ht. }
  rewrite (upsert_rows_single now1 d tn columns vals z t Ht Hz). cbv zeta.
  set (co := dedup_columns ∅ columns) in *.
  destruct (columns_ok t co && (length vals =? length co)%nat) eqn:Hchk; [|done].
  cbn [mbind option_bind].
  set (t1 := {| t_columns := t_columns t;
                t_rows := upsert_one now1 co (t_rows t) (Some z)
                            (proposed_row co vals) |}).
  set (d1 := with_tables d (<[tn := t1]> (tables d))).
  assert (Ht1 : tables d1 !! tn = Some t1) by apply lookup_insert_eq.
  rewrite (upsert_rows_single now2 d1 tn columns vals z t1 Ht1 Hz). cbv zeta.
  fold co. change (columns_ok t1 co) with (columns_ok t co). rewrite Hchk.
  cbn [fmap option_fmap option_map]. f_equal.
  unfold forget_updated_at, d1, with_tables. cbn [tables meta_fields sync_state
    queue queue_seq]. f_equal.
  rewrite insert_insert_eq, !fmap_insert. f_equal.
  unfold t1. cbn [t_columns t_rows]. f_equal.
  apply carries_id_inv in Hz as [Hin Hp]. by apply upsert_one_twice.
Qed.

End upsert_facts.

Lemma upsert_rows_idempotent_witness :
  Upsert.forget_updated_at <$>
    (Upsert.upsert_rows 100 Demo.fresh_db "b24_crm_contact" ["id"; "raw"; "name"]
       [Demo.lia_row] ≫=
     fun d1 => Upsert.upsert_rows 200 d1 "b24_crm_contact" ["id"; "raw"; "name"]
                 [Demo.lia_row])
  = Upsert.forget_updated_at <$>
      Upsert.upsert_rows 100 Demo.fresh_db "b24_crm_contact" ["id"; "raw"; "name"]
        [Demo.lia_row].
Proof.
  apply (upsert_rows_idempotent 100 200 Demo.fresh_db "b24_crm_contact"
           ["id"; "raw"; "name"] Demo.lia_row).
  exists 9. reflexivity.
Defined.

(** ** Worked examples *)

Example sanitize_uf :
  Naming.sanitize_ident "UF_CRM_1749211409067" 55 = Some "uf_crm_1749211409067".
Proof. reflexivity. Qed.

Example sanitize_leading_digit : Naming.sanitize_ident "34 Cars!!" 55 = Some "f_34_cars".
Proof. reflexivity. Qed.

Example sanitize_nothing_left : Naming.sanitize_ident "--" 55 = Some "field".
Proof. reflexivity. Qed.

Example sanitize_cut : Naming.sanitize_ident "ab__cd_ef" 6 = Some "ab_cd".
Proof. reflexivity. Qed.

Example sanitize_no_room : Naming.sanitize_ident "abc" 0 = None.
Proof. reflexivity. Qed.

Example colmap_base_column_taken :
  Naming.build_colmap ["ID"; "NAME"] = Some [("ID", "id_2"); ("NAME", "name")].
Proof. vm_compute. reflexivity. Qed.

Example colmap_suffix_taken :
  Naming.build_colmap ["A_2"; "A"; "a"]
  = Some [("A_2", "a_2"); ("A", "a"); ("a", "a_3")].
Proof. vm_compute. reflexivity. Qed.

Example colmap_collisions :
  Naming.build_colmap ["ID"; "Title"; "TITLE"; "title_2"; "title"]
  = Some [("ID", "id_2"); ("Title", "title"); ("TITLE", "title_2");
          ("title_2", "title_2_2"); ("title", "title_3")].
Proof. vm_compute. reflexivity. Qed.

Example table_name_smart :
  Mapping.table_name_for_entity "sp:1164" = Some "b24_sp_f_1164".
Proof. reflexivity. Qed.

Example parse_int_forms :
  Py.parse_int <$> [" 42 "; "-7"; "+1_000"; "1__0"; "4 2"; ""; "12.5"]
  = [Some 42; Some (-7); Some 1000; None; None; None; None].
Proof. reflexivity. Qed.

Example cursor_text_unreadable :
  Cursor.get_sync_cursor
    {| Db.meta_fields := []; Db.sync_state := {[ "deal" := Some "abc" ]};
       Db.tables := ∅; Db.queue := []; Db.queue_seq := 0 |} "deal" = 0.
Proof. reflexivity. Qed.

Example normalize_blank_date :
  Normalize.normalize_value (B := Demo.builtins) (Py.PStr "  ") (Some "date") false
  = Py.PNone.
Proof. reflexivity. Qed.

Example normalize_blank_text :
  Normalize.normalize_value (B := Demo.builtins) (Py.PStr "  ") (Some "String") false
  = Py.PStr "  ".
Proof. reflexivity. Qed.

Example normalize_multiple_scalar :
  Normalize.normalize_value (B := Demo.builtins) (Py.PBool true) (Some "boolean") true
  = Py.PJson (Py.PList [Py.PBool true]).
Proof. reflexivity. Qed.

Example list_result_shapes :
  Sync.normalize_list_result
    (Py.PDict [("result", Py.PDict [("items", Py.PList [Py.PDict [("id", Py.PInt 3)]])]);
               ("next", Py.PInt 50)])
  = Some ([[("id", Py.PInt 3)]], Some 50)
  /\ Sync.normalize_list_result
       (Py.PDict [("result", Py.PList [Py.PDict [("ID", Py.PStr "3")]; Py.PInt 1])])
     = Some ([[("ID", Py.PStr "3")]], None)
  /\ Sync.normalize_list_result
       (Py.PDict [("result", Py.PList []); ("next", Py.PStr "x")]) = None.
Proof. repeat split; reflexivity. Qed.

Example retry_limit :
  Client.call (B := Demo.builtins) 3 (fun _ => Client.HttpResponse 429 None)
  = (Client.HTTPException Client.RetryLimit, [0; 1; 2]%nat).
Proof. reflexivity. Qed.

Example rejected_at_once :
  Client.call (B := Demo.builtins) 3
    (fun _ => Client.HttpResponse 200
                (Some (Py.PDict [("error", Py.PStr "ACCESS_DENIED")])))
  = (Client.HTTPException (Client.RemoteError "ACCESS_DENIED"), []).
Proof. reflexivity. Qed.

Example overload_under_503_raises :
  Client.call (B := Demo.builtins) 3
    (fun _ => Client.HttpResponse 503
                (Some (Py.PDict [("error", Py.PStr "OVERLOAD_LIMIT")])))
  = (Client.HTTPException (Client.BadStatus 503), []).
Proof. reflexivity. Qed.

Example duplicate_ids_in_one_page :
  Upsert.upsert_rows 100 Demo.fresh_db "b24_crm_contact" ["id"; "name"]
    [[Py.PInt 9; Py.PStr "Lia"]; [Py.PInt 9; Py.PStr "Lia"]] = None.
Proof. vm_compute. reflexivity. Qed.

Example upsert_without_id_twice :
  (fun d => length <$> (Db.t_rows <$> Db.tables d !! "b24_crm_contact"))
  <$> (Upsert.upsert_rows 100 Demo.fresh_db "b24_crm_contact" ["name"]
         [[Py.PStr "Lia"]] ≫=
       fun d1 => Upsert.upsert_rows 200 d1 "b24_crm_contact" ["name"]
                   [[Py.PStr "Lia"]])
  = Some (Some 4%nat).
Proof. vm_compute. reflexivity. Qed.

Example unknown_entity_is_retried :
  Webhook._bitrix_get_one Demo.failing_remote "company" 5 = (Py.PNone, []).
Proof. reflexivity. Qed.

(** * Further properties of the code *)

(** ** The cursor store: round trip and validation *)

Section cursor_store_facts.
Import Py Db Cursor.

(** X1: a cursor written with [set_sync_cursor] is read back unchanged by
    [get_sync_cursor] (it is stored as decimal text and parsed again), the
    cursors of the other entities read as before, and neither the tables
    nor the webhook queue are touched. *)
Theorem cursor_round_trip (d : db) (ek ek' : string) (c : Z) :
  get_sync_cursor (set_sync_cursor d ek c) ek'
  = (if decide (ek' = ek) then c else get_sync_cursor d ek')
  /\ tables (set_sync_cursor d ek c) = tables d
  /\ queue (set_sync_cursor d ek c) = queue d
  /\ meta_fields (set_sync_cursor d ek c) = meta_fields d.
Proof.
  split; [|done].
  destruct (decide (ek' = ek)) as [->|Hne].
  - apply get_after_set.
  - unfold get_sync_cursor, set_sync_cursor, with_sync_state. simpl.
    by rewrite lookup_insert_ne.
Qed.

(** X2: [validate_sync_cursor] settles the cursor: the value it returns
    is the value the store holds afterwards, it is either 0 or the cursor
    that was stored, validating a second time changes nothing, and the
    tables are left alone. *)
Theorem validate_sync_cursor_settles (d : db) (ek tn : string) :
  let r := validate_sync_cursor d ek tn in
  validate_sync_cursor r.1 ek tn = r
  /\ get_sync_cursor r.1 ek = r.2
  /\ (r.2 = 0 \/ r.2 = get_sync_cursor d ek)
  /\ tables r.1 = tables d.
Proof.
  cbv zeta.
  assert (validate_sync_cursor d ek tn = (d, get_sync_cursor d ek)
          \/ validate_sync_cursor d ek tn = (set_sync_cursor d ek 0, 0)) as Hc.
  { unfold validate_sync_cursor.
    destruct (get_sync_cursor d ek =? 0) eqn:E0.
    { apply Z.eqb_eq in E0. rewrite E0. by left. }
    destruct (tables d !! tn) as [t|]; [|by left].
    destruct (_ <? _); [by right|by left]. }
  destruct Hc as [H|H].
  - rewrite !H. cbn [fst snd]. auto.
  - assert (validate_sync_cursor (set_sync_cursor d ek 0) ek tn
            = (set_sync_cursor d ek 0, 0)) as Hv.
    { unfold validate_sync_cursor. cbv zeta. by rewrite get_after_reset. }
    rewrite !H. cbn [fst snd]. rewrite Hv, get_after_reset. auto.
Qed.

End cursor_store_facts.

(** ** Identifiers and table names *)

Section ident_facts.
Import PyStr Naming Mapping.

Lemma string_length_app s t :
  String.length (s +:+ t) = (String.length s + String.length t)%nat.
Proof.
  induction s as [|c r IH]; [done|].
  change (String c r +:+ t) with (String c (r +:+ t)). simpl. by rewrite IH.
Qed.

Lemma length_str_take n s : (String.length (str_take n s) <= n)%nat.
Proof.
  revert s. induction n as [|n IH]; intros [|c r]; simpl; try lia.
  specialize (IH r). lia.
Qed.

Lemma length_rstrip_by p s :
  (String.length (rstrip_by p s) <= String.length s)%nat.
Proof.
  induction s as [|c r IH]; simpl; [lia|].
  destruct (rstrip_by p r); [destruct (p c)|]; simpl in *; lia.
Qed.

Lemma sanitize_ident_length name max_len s :
  sanitize_ident name max_len = Some s ->
  (String.length s <= max_len + 2)%nat.
Proof.
  unfold sanitize_ident.
  set (s4 := strip_by is_underscore _).
  set (s5 := if decide (s4 = "") then "field" else s4). clearbody s5.
  set (s6 := if decide (max_len < String.length s5)%nat
             then rstrip_by is_underscore (str_take max_len s5) else s5).
  assert (H6 : (String.length s6 <= max_len)%nat).
  { subst s6. destruct (decide (max_len < String.length s5)%nat).
    - etrans; [apply length_rstrip_by|apply length_str_take].
    - lia. }
  clearbody s6. destruct s6 as [|c r]; [done|].
  intros [= <-]. destruct (is_digit c); simpl in *; lia.
Qed.

Lemma sanitize_ident_no_room name : sanitize_ident name 0 = None.
Proof.
  unfold sanitize_ident.
  set (s4 := strip_by is_underscore _).
  set (s5 := if decide (s4 = "") then "field" else s4).
  assert (H5 : (0 < String.length s5)%nat).
  { subst s5. destruct (decide (s4 = "")); [simpl; lia|].
    destruct s4; [done|simpl; lia]. }
  clearbody s5. destruct (decide (0 < String.length s5)%nat); [|lia].
  by destruct s5.
Qed.

(** X3: [sanitize_ident] raises (its [name[0]] on the empty string) only
    when [max_len] is 0, and then always; in every other case the result
    is a storage-safe identifier of at most [max_len + 2] characters (the
    two extra ones are the prefix put before a leading digit). *)
Theorem sanitize_ident_bounded (name : string) (max_len : nat) :
  match sanitize_ident name max_len with
  | Some s => storage_safe s
              /\ (String.length s <= max_len + 2)%nat
              /\ (0 < max_len)%nat
  | None => max_len = 0%nat
  end.
Proof.
  destruct max_len as [|n].
  - by rewrite (sanitize_ident_no_room name).
  - destruct (sanitize_ident_safe name (S n)) as (s & E & Hs); [lia|].
    rewrite E. split; [done|]. split; [|lia].
    by apply (sanitize_ident_length name).
Qed.

Lemma storage_safe_prefixed p s :
  storage_safe p -> storage_safe s -> storage_safe (p +:+ s).
Proof.
  intros [Hp (c & r & -> & Hc)] [Hs _]. split.
  - by apply all_chars_app.
  - exists c, (r +:+ s). done.
Qed.

(** X4: [table_name_for_entity] returns a table name for every entity
    key; the name is a storage-safe identifier starting with [b24_], of
    at most 61 characters. *)
Theorem table_name_for_entity_safe (entity_key : string) :
  exists t,
    table_name_for_entity entity_key = Some t
    /\ storage_safe t
    /\ is_prefix "b24_" t = true
    /\ (String.length t <= 61)%nat.
Proof.
  assert (Hlit : forall p, all_chars is_ident_char p = true ->
                 (exists c r, p = String c r /\ is_lower_az c = true) ->
                 storage_safe p) by (intros; by split).
  unfold table_name_for_entity.
  destruct (String.eqb entity_key "deal").
  { eexists. split; [done|]. split; [|by vm_compute; split; [|lia]].
    apply Hlit; [done|]. by eexists _, _. }
  destruct (String.eqb entity_key "contact").
  { eexists. split; [done|]. split; [|by vm_compute; split; [|lia]].
    apply Hlit; [done|]. by eexists _, _. }
  destruct (String.eqb entity_key "lead").
  { eexists. split; [done|]. split; [|by vm_compute; split; [|lia]].
    apply Hlit; [done|]. by eexists _, _. }
  destruct (is_prefix "sp:" entity_key).
  - destruct (sanitize_ident_safe (str_skip 3 entity_key) 20)
      as (s & E & Hs); [lia|].
    rewrite E. simpl. eexists. split; [done|].
    apply sanitize_ident_length in E.
    split; [|split; [done|rewrite string_length_app; simpl; lia]].
    apply (storage_safe_prefixed "b24_sp_"); [|done].
    apply Hlit; [done|]. by eexists _, _.
  - destruct (sanitize_ident_safe entity_key DEFAULT_MAX_LEN)
      as (s & E & Hs); [unfold DEFAULT_MAX_LEN; lia|].
    rewrite E. simpl. eexists. split; [done|].
    apply sanitize_ident_length in E. unfold DEFAULT_MAX_LEN in E.
    split; [|split; [done|rewrite string_length_app; simpl; lia]].
    apply (storage_safe_prefixed "b24_"); [|done].
    apply Hlit; [done|]. by eexists _, _.
Qed.

End ident_facts.

(** ** The REST client: how many requests a call makes, and what it
    hands to the list helpers *)

Section client_call_facts.
Import PyStr Py Client Sync.
Context {B : Builtins}.

Lemma call_from_shape server : forall remaining attempt,
  exists k,
    (k <= remaining)%nat
    /\ (call_from server remaining attempt).2 = seq attempt k
    /\ (forall j, (j < k)%nat -> retried (server (attempt + j)%nat))
    /\ (if decide (k = remaining)
        then (call_from server remaining attempt).1 = HTTPException RetryLimit
        else attempt_verdict (server (attempt + k)%nat)
             = Done (call_from server remaining attempt).1).
Proof.
  induction remaining as [|remaining IH]; intros attempt.
  - exists 0%nat. simpl. repeat split; [lia|]. intros j Hj. lia.
  - simpl. destruct (attempt_verdict (server attempt)) as [o|] eqn:E.
    + exists 0%nat. simpl. split; [lia|]. split; [done|].
      split; [intros j Hj; lia|]. by rewrite Nat.add_0_r.
    + destruct (IH (S attempt)) as (k & Hk & Hs & Hr & Hend).
      destruct (call_from server remaining (S attempt)) as [o slept] eqn:Ec.
      simpl in *. exists (S k). split; [lia|]. split; [by rewrite Hs|].
      split.
      * intros [|j] Hj; [by rewrite Nat.add_0_r|].
        replace (attempt + S j)%nat with (S attempt + j)%nat by lia.
        apply Hr. lia.
      * replace (attempt + S k)%nat with (S attempt + k)%nat by lia.
        destruct (decide (k = remaining)) as [->|Hne].
        -- by rewrite decide_True.
        -- rewrite decide_False by lia. done.
Qed.

(** X5: [BitrixClient.call] sleeps for its back-off after the attempts
    0, 1, ..., k-1 and after no other, each of them having got an answer
    the client retries; k is at most [BITRIX_MAX_RETRIES]; when k reaches
    that limit the call raises the retry-limit error, and otherwise the
    outcome of the call is the one the answer to attempt k decides. *)
Theorem call_attempts (max_retries : nat) (server : nat -> http_result) :
  exists k,
    (k <= max_retries)%nat
    /\ (call max_retries server).2 = seq 0 k
    /\ (forall j, (j < k)%nat -> retried (server j))
    /\ (if decide (k = max_retries)
        then (call max_retries server).1 = HTTPException RetryLimit
        else attempt_verdict (server k) = Done (call max_retries server).1).
Proof.
  destruct (call_from_shape server max_retries 0) as (k & H1 & H2 & H3 & H4).
  exists k. unfold call. auto.
Qed.

Lemma verdict_returned r data :
  attempt_verdict r = Done (Returned data) ->
  data = overload_result \/ Invariant.clean_answer data.
Proof.
  destruct r as [|status json]; simpl; [done|].
  destruct (status =? 429); [done|].
  destruct (status =? 401).
  { destruct (overload_in_401 json); intros [= <-]; by left. }
  destruct (negb (status =? 200)); [done|].
  destruct json as [[| | | | s | l | d | |]|]; try done.
  - destruct (contains "error" s) eqn:E; [done|]. intros [= <-]. by right.
  - destruct (existsb _ l) eqn:E; [done|]. intros [= <-]. by right.
  - destruct (dict_has d "error") eqn:E.
    + destruct (String.eqb _ OVERLOAD_LIMIT); [intros [= <-]; by left|].
      by destruct (_ || _).
    + intros [= <-]. by right.
Qed.

Lemma call_from_returned server data : forall remaining attempt slept,
  call_from server remaining attempt = (Returned data, slept) ->
  data = overload_result \/ Invariant.clean_answer data.
Proof.
  induction remaining as [|remaining IH]; intros attempt slept; simpl; [done|].
  destruct (attempt_verdict (server attempt)) as [o|] eqn:E.
  - intros [= -> <-]. by eapply verdict_returned.
  - destruct (call_from server remaining (S attempt)) as [o s] eqn:Ec.
    intros [= -> <-]. by eapply IH.
Qed.

Lemma clean_answer_passes data :
  Invariant.clean_answer data -> list_helper_answer data = Some data.
Proof.
  unfold list_helper_answer.
  destruct data as [| | | | s | l | d | |]; simpl; try done.
  - intros ->. by destruct (negb (negb (String.eqb s ""))).
  - intros ->. by destruct l.
  - unfold dict_has. destruct (dict_get d "error"); [done|]. by destruct d.
Qed.

(** X6: whatever [call] returns reaches the list helpers safely: the value
    is either the overload answer, which their guard replaces by the empty
    page [{"result": []}], or a body without an error marker, which the
    guard passes on unchanged; the guard never raises on it. *)
Theorem call_result_passes_list_helper (max_retries : nat)
        (server : nat -> http_result) (data : pyval) (slept : list nat) :
  call max_retries server = (Returned data, slept) ->
  (data = overload_result
   /\ list_helper_answer data = Some (PDict [("result", PList [])]))
  \/ (Invariant.clean_answer data /\ list_helper_answer data = Some data).
Proof.
  intros Hc. apply call_from_returned in Hc as [->|Hcl].
  - by left.
  - right. split; [done|]. by apply clean_answer_passes.
Qed.

End client_call_facts.

Lemma call_result_passes_list_helper_witness :
  (Client.overload_result = Client.overload_result
   /\ Client.list_helper_answer Client.overload_result
      = Some (Py.PDict [("result", Py.PList [])]))
  \/ (Invariant.clean_answer Client.overload_result
      /\ Client.list_helper_answer Client.overload_result
         = Some Client.overload_result).
Proof.
  apply (call_result_passes_list_helper (B := Demo.builtins) 8
           Demo.overloaded_server Client.overload_result [0; 1]%nat).
  reflexivity.
Defined.

(** ** Batch upsert: what a successful [upsert_rows] leaves behind *)

Section upsert_batch_facts.
Import Py Db Upsert Invariant.

Lemma run_page_fold now co ok : forall page seen rows rows',
  run_page now co ok seen rows page = Some rows' ->
  rows' = foldl (upsert_tuple now co) rows page
  /\ Forall (fun vals => is_Some (proposed_id co (proposed_row co vals))) page.
Proof.
  induction page as [|vals rest IH]; intros seen rows rows'; simpl.
  { intros [= <-]. by split. }
  destruct (negb ok); [done|].
  destruct (negb (length vals =? length co)%nat); [done|].
  destruct (proposed_id co (proposed_row co vals)) as [id|] eqn:E; [|done].
  assert (upsert_one now co rows id (proposed_row co vals)
          = upsert_tuple now co rows vals) as Hstep.
  { unfold upsert_tuple, tuple_id. by rewrite E. }
  destruct id as [z|].
  - destruct (decide (z ∈ seen)); [done|]. rewrite Hstep. intros H.
    apply IH in H as [-> HF]. split; [done|]. constructor; [by rewrite E|done].
  - rewrite Hstep. intros H.
    apply IH in H as [-> HF]. split; [done|]. constructor; [by rewrite E|done].
Qed.

Lemma run_pages_fold now co ok : forall fuel l rows rows',
  (length l <= fuel)%nat ->
  run_pages now co ok rows (pages fuel l) = Some rows' ->
  rows' = foldl (upsert_tuple now co) rows l
  /\ Forall (fun vals => is_Some (proposed_id co (proposed_row co vals))) l.
Proof.
  induction fuel as [|fuel IH]; intros l rows rows' Hlen.
  { destruct l; [|simpl in Hlen; lia]. simpl. intros [= <-]. by split. }
  destruct l as [|v l']; [simpl; intros [= <-]; by split|].
  assert (Hl : (0 < length (v :: l'))%nat) by (simpl; lia).
  change (pages (S fuel) (v :: l'))
    with (take PAGE_SIZE (v :: l') :: pages fuel (drop PAGE_SIZE (v :: l'))).
  generalize dependent (v :: l'). clear v l'. intros l Hlen Hl.
  cbn [run_pages]. intros H.
  destruct (run_page now co ok ∅ rows (take PAGE_SIZE l)) as [rows1|] eqn:E1;
    simpl in H; [|done].
  apply run_page_fold in E1 as [-> HF1].
  apply IH in H as [-> HF2].
  - rewrite <- foldl_app, take_drop. split; [done|].
    rewrite <- (take_drop PAGE_SIZE l). by apply Forall_app.
  - rewrite length_drop. unfold PAGE_SIZE. lia.
Qed.

(** A successful [upsert_rows] is the tuples applied one after the other
    to the rows of the table. *)
Lemma upsert_rows_fold now d tn columns rows d' :
  upsert_rows now d tn columns rows = Some d' ->
  rows = [] /\ d' = d
  \/ exists t,
       tables d !! tn = Some t
       /\ d' = with_tables d
                 (<[tn := {| t_columns := t_columns t;
                             t_rows := foldl (upsert_tuple now (dedup_columns ∅ columns))
                                             (t_rows t) rows |}]> (tables d))
       /\ Forall (fun vals =>
                    is_Some (proposed_id (dedup_columns ∅ columns)
                               (proposed_row (dedup_columns ∅ columns) vals))) rows.
Proof.
  destruct (decide (rows = [])) as [->|Hne]; [intros [= <-]; by left|].
  assert (upsert_rows now d tn columns rows
          = (t ← tables d !! tn;
             rows' ← run_pages now (dedup_columns ∅ columns)
                       (columns_ok t (dedup_columns ∅ columns)) (t_rows t)
                       (pages (length rows) rows);
             Some (with_tables d (<[tn := {| t_columns := t_columns t;
                                             t_rows := rows' |}]> (tables d)))))
    as ->.
  { by destruct rows. }
  intros H. right.
  destruct (tables d !! tn) as [t|]; [|done]. simpl in H.
  destruct (run_pages _ _ _ _ _) as [rows1|] eqn:E; [|done].
  simpl in H. injection H as <-.
  apply run_pages_fold in E as [-> HF]; [|done].
  exists t. done.
Qed.

Lemma stored_ids_fmap (f : row -> row) rows :
  (forall r, row_id (f r) = row_id r) ->
  stored_ids (f <$> rows) = stored_ids rows.
Proof.
  intros Hf. unfold stored_ids.
  induction rows as [|r rows IH]; [done|].
  rewrite fmap_cons. cbn [omap list_omap]. by rewrite Hf, IH.
Qed.

Lemma has_id_stored z rows : has_id z rows = true <-> z ∈ stored_ids rows.
Proof.
  unfold has_id, stored_ids. induction rows as [|r rows IH]; simpl.
  { split; [done|]. by intros ?%elem_of_nil. }
  rewrite orb_true_iff, IH, bool_decide_eq_true.
  destruct (row_id r) as [z'|]; simpl.
  - rewrite elem_of_cons. split; intros [H|H]; auto; left; congruence.
  - split; [intros [H|H]; [done|done]|auto].
Qed.

Lemma proposed_id_inserted now co (p : row) id :
  proposed_id co p = Some id -> row_id (inserted_row now co p) = id.
Proof.
  unfold proposed_id, row_id. rewrite lookup_inserted_row.
  destruct (decide ("id" ∈ co)) as [Hin|Hout].
  - destruct (p !! "id") as [[]|] eqn:E; simpl; try done;
      by intros [= <-].
  - intros [= <-]. rewrite decide_False; [done|]. intros [?|?]; done.
Qed.

Lemma stored_ids_upsert_tuple now co rows vals :
  is_Some (proposed_id co (proposed_row co vals)) ->
  stored_ids (upsert_tuple now co rows vals)
  = (stored_ids rows ++
     match tuple_id co vals with
     | Some z => if has_id z rows then [] else [z]
     | None => []
     end)%list.
Proof.
  intros [id Hid]. unfold upsert_tuple, tuple_id. rewrite Hid. simpl.
  pose proof (proposed_id_inserted now co _ _ Hid) as Hins.
  unfold upsert_one. destruct id as [z|].
  - destruct (has_id z rows).
    + rewrite app_nil_r. apply stored_ids_fmap. intros r.
      destruct (bool_decide _); [apply row_id_updated|done].
    + unfold stored_ids. rewrite omap_app. f_equal. simpl. by rewrite Hins.
  - unfold stored_ids. rewrite omap_app. simpl. by rewrite Hins.
Qed.

Lemma upsert_tuple_ids now co rows vals :
  is_Some (proposed_id co (proposed_row co vals)) ->
  stored_ids rows `prefix_of` stored_ids (upsert_tuple now co rows vals)
  /\ (ids_unique rows -> ids_unique (upsert_tuple now co rows vals))
  /\ (forall z, tuple_id co vals = Some z ->
                z ∈ stored_ids (upsert_tuple now co rows vals)).
Proof.
  intros Hsome. rewrite (stored_ids_upsert_tuple _ _ _ _ Hsome).
  unfold ids_unique. fold (stored_ids rows).
  rewrite (stored_ids_upsert_tuple _ _ _ _ Hsome).
  split; [by eexists|]. split.
  - intros Hnd. destruct (tuple_id co vals) as [z|]; [|by rewrite app_nil_r].
    destruct (has_id z rows) eqn:E; [by rewrite app_nil_r|].
    apply NoDup_app. split; [done|]. split; [|apply NoDup_singleton].
    intros x Hx ->%list_elem_of_singleton.
    apply has_id_stored in Hx. congruence.
  - intros z ->. destruct (has_id z rows) eqn:E.
    + rewrite app_nil_r. by apply has_id_stored.
    + apply elem_of_app. right. by apply list_elem_of_singleton.
Qed.

Lemma upsert_fold_ids now co : forall batch rows,
  Forall (fun vals => is_Some (proposed_id co (proposed_row co vals))) batch ->
  stored_ids rows `prefix_of` stored_ids (foldl (upsert_tuple now co) rows batch)
  /\ (ids_unique rows -> ids_unique (foldl (upsert_tuple now co) rows batch))
  /\ (forall vals z, vals ∈ batch -> tuple_id co vals = Some z ->
        z ∈ stored_ids (foldl (upsert_tuple now co) rows batch)).
Proof.
  induction batch as [|v batch IH]; intros rows HF; simpl.
  { split; [done|]. split; [done|]. by intros ?? ?%elem_of_nil. }
  apply Forall_cons in HF as [Hv HF].
  destruct (upsert_tuple_ids now co rows v Hv) as (Hp & Hu & Hz).
  destruct (IH (upsert_tuple now co rows v) HF) as (Hp' & Hu' & Hz').
  split; [by etrans|]. split; [auto|].
  intros vals z [->|Hin]%elem_of_cons Hid.
  - destruct Hp' as [k ->]. apply elem_of_app. left. by apply Hz.
  - by eapply Hz'.
Qed.

Lemma upsert_rows_frame now d tn columns rows d' :
  upsert_rows now d tn columns rows = Some d' ->
  sync_state d' = sync_state d
  /\ meta_fields d' = meta_fields d
  /\ queue d' = queue d /\ queue_seq d' = queue_seq d
  /\ (forall tn', tn' <> tn -> tables d' !! tn' = tables d !! tn').
Proof.
  intros H. apply upsert_rows_fold in H as [[-> ->]|(t & Ht & -> & HF)]; [done|].
  unfold with_tables. simpl. repeat (split; [done|]).
  intros tn' Hne. by rewrite lookup_insert_ne.
Qed.

(** X7: a successful [upsert_rows] changes the rows of the named table
    and nothing else: the other tables, the cursors, the field metadata
    and the webhook queue are as before, and the table keeps its set of
    columns.  Within the table no id disappears (the ids stored before are
    a prefix of the ids stored after), ids that were pairwise distinct
    stay so, and the id of every tuple of the batch is stored afterwards. *)
Theorem upsert_rows_keeps_ids (now : Z) (d d' : db) (tn : string)
        (columns : list string) (rows : list (list pyval)) :
  upsert_rows now d tn columns rows = Some d' ->
  sync_state d' = sync_state d
  /\ meta_fields d' = meta_fields d
  /\ queue d' = queue d /\ queue_seq d' = queue_seq d
  /\ (forall tn', tn' <> tn -> tables d' !! tn' = tables d !! tn')
  /\ (tables d !! tn = None -> tables d' !! tn = None)
  /\ (forall t, tables d !! tn = Some t ->
        exists t',
          tables d' !! tn = Some t'
          /\ t_columns t' = t_columns t
          /\ stored_ids (t_rows t) `prefix_of` stored_ids (t_rows t')
          /\ (ids_unique (t_rows t) -> ids_unique (t_rows t'))
          /\ (forall vals z,
                vals ∈ rows ->
                tuple_id (dedup_columns ∅ columns) vals = Some z ->
                z ∈ stored_ids (t_rows t'))).
Proof.
  intros H. apply upsert_rows_fold in H as [[-> ->]|(t & Ht & -> & HF)].
  - repeat (split; [done|]). intros t Ht. exists t.
    repeat (split; [done|]). by intros ?? ?%elem_of_nil.
  - unfold with_tables. simpl. repeat (split; [done|]).
    split; [intros tn' Hne; by rewrite lookup_insert_ne|].
    split; [by rewrite Ht|].
    intros t0 Ht0. rewrite Ht in Ht0. injection Ht0 as <-.
    rewrite lookup_insert_eq. eexists. split; [done|]. simpl.
    split; [done|]. by apply upsert_fold_ids.
Qed.


Lemma tuple_id_proposed co vals z :
  tuple_id co vals = Some z ->
  proposed_id co (proposed_row co vals) = Some (Some z).
Proof.
  unfold tuple_id. by destruct (proposed_id co (proposed_row co vals)) as [[]|];
    simpl; intros [= ->].
Qed.

Lemma upsert_tuple_keeps_rows now co rows vals i (r : row) :
  rows !! i = Some r ->
  exists r' : row,
    upsert_tuple now co rows vals !! i = Some r'
    /\ row_id r' = row_id r
    /\ (forall c, c ∉ set_cols co -> c <> "updated_at" -> r' !! c = r !! c)
    /\ (row_id r = None \/ tuple_id co vals <> row_id r -> r' = r).
Proof.
  intros Hi. unfold upsert_tuple, upsert_one.
  assert (Hsame : exists r' : row,
            (rows ++ [inserted_row now co (proposed_row co vals)])%list !! i
            = Some r'
            /\ row_id r' = row_id r
            /\ (forall c, c ∉ set_cols co -> c <> "updated_at" -> r' !! c = r !! c)
            /\ (row_id r = None \/ tuple_id co vals <> row_id r -> r' = r)).
  { exists r. split; [|done]. rewrite lookup_app_l; [done|].
    by eapply lookup_lt_Some. }
  destruct (tuple_id co vals) as [z|] eqn:Ez; [|done].
  destruct (has_id z rows); [|done].
  rewrite list_lookup_fmap, Hi. simpl.
  destruct (bool_decide (row_id r = Some z)) eqn:Eb.
  - apply bool_decide_eq_true in Eb. eexists. split; [done|].
    split; [apply row_id_updated|]. split.
    + intros c Hc Hu. rewrite lookup_updated_row.
      rewrite decide_False by done. by rewrite decide_False.
    + rewrite Eb. intros [?|?]; done.
  - by exists r.
Qed.

Lemma upsert_fold_keeps_rows now co : forall batch rows i (r : row),
  rows !! i = Some r ->
  exists r' : row,
    foldl (upsert_tuple now co) rows batch !! i = Some r'
    /\ row_id r' = row_id r
    /\ (forall c, c ∉ set_cols co -> c <> "updated_at" -> r' !! c = r !! c)
    /\ (row_id r = None
        \/ (forall vals, vals ∈ batch -> tuple_id co vals <> row_id r) -> r' = r).
Proof.
  induction batch as [|v batch IH]; intros rows i r Hi; simpl.
  { exists r. done. }
  destruct (upsert_tuple_keeps_rows now co rows v i r Hi)
    as (r1 & H1 & Hid1 & Hc1 & Hsame1).
  destruct (IH _ _ _ H1) as (r' & H' & Hid' & Hc' & Hsame').
  exists r'. split; [done|]. split; [congruence|]. split.
  - intros c Hc Hu. rewrite Hc', Hc1; done.
  - intros Hcond.
    assert (r1 = r) as ->.
    { apply Hsame1. destruct Hcond as [?|Hall]; [by left|right].
      apply Hall. apply list_elem_of_here. }
    apply Hsame'. destruct Hcond as [?|Hall]; [by left|right].
    intros vals Hin. apply Hall. by apply list_elem_of_further.
Qed.

(** X8: a successful [upsert_rows] keeps every row the table held, at
    its position: the row keeps its id, its [created_at] and the value of
    every column the statement does not set, and a row whose id is NULL or
    is the id of no tuple of the batch is left exactly as it was. *)
Theorem upsert_rows_keeps_rows (now : Z) (d d' : db) (tn : string)
        (columns : list string) (rows : list (list pyval)) (t : table) :
  upsert_rows now d tn columns rows = Some d' ->
  tables d !! tn = Some t ->
  exists t',
    tables d' !! tn = Some t'
    /\ forall i (r : row),
         t_rows t !! i = Some r ->
         exists r' : row,
           t_rows t' !! i = Some r'
           /\ row_id r' = row_id r
           /\ r' !! "created_at" = r !! "created_at"
           /\ (forall c, c ∉ set_cols (dedup_columns ∅ columns) ->
                         c <> "updated_at" -> r' !! c = r !! c)
           /\ (row_id r = None
               \/ (forall vals, vals ∈ rows ->
                      tuple_id (dedup_columns ∅ columns) vals <> row_id r) ->
               r' = r).
Proof.
  intros H Ht. apply upsert_rows_fold in H as [[-> ->]|(t0 & Ht0 & -> & HF)].
  - exists t. split; [done|]. intros i r Hi. exists r. done.
  - rewrite Ht in Ht0. injection Ht0 as <-.
    unfold with_tables. simpl. rewrite lookup_insert_eq.
    eexists. split; [done|]. simpl. intros i r Hi.
    destruct (upsert_fold_keeps_rows now (dedup_columns ∅ columns) rows _ _ _ Hi)
      as (r' & H' & Hid & Hc & Hsame).
    exists r'. split; [done|]. split; [done|]. split; [|done].
    apply Hc; [|done]. rewrite set_cols_spec. intros (_ & _ & ? & _). done.
Qed.

Lemma upsert_tuple_writes now co rows vals z (r : row) :
  tuple_id co vals = Some z ->
  r ∈ upsert_tuple now co rows vals ->
  row_id r = Some z ->
  forall c, c ∈ set_cols co ->
            r !! c = stored (default PNone (proposed_row co vals !! c)).
Proof.
  intros Hz Hin Hid c Hc. unfold upsert_tuple, upsert_one in Hin.
  rewrite Hz in Hin.
  assert (Hins : r = inserted_row now co (proposed_row co vals) ->
                 r !! c = stored (default PNone (proposed_row co vals !! c))).
  { intros ->. rewrite lookup_inserted_row. rewrite decide_True; [done|].
    by apply set_cols_spec in Hc as [? _]. }
  destruct (has_id z rows) eqn:Eh.
  - apply list_elem_of_fmap in Hin as (r0 & -> & Hin0).
    destruct (bool_decide (row_id r0 = Some z)) eqn:Eb.
    + rewrite lookup_updated_row. rewrite decide_False.
      * by rewrite decide_True.
      * intros ->. by apply set_cols_spec in Hc as (_ & _ & _ & ?).
    + apply bool_decide_eq_false in Eb. done.
  - apply elem_of_app in Hin as [Hin|Hin%list_elem_of_singleton]; [|auto].
    pose proof (has_id_false _ _ _ Eh Hin) as Hf.
    apply bool_decide_eq_false in Hf. done.
Qed.

Lemma upsert_tuple_other now co rows vals z (r : row) :
  is_Some (proposed_id co (proposed_row co vals)) ->
  tuple_id co vals <> Some z ->
  r ∈ upsert_tuple now co rows vals ->
  row_id r = Some z ->
  r ∈ rows.
Proof.
  intros [id Hid] Hne Hin Hrid. unfold upsert_tuple, upsert_one in Hin.
  pose proof (proposed_id_inserted now co _ _ Hid) as Hins.
  unfold tuple_id in Hne, Hin. rewrite Hid in Hne, Hin. simpl in Hne, Hin.
  assert (Happ : r ∈ (rows ++ [inserted_row now co (proposed_row co vals)])%list
                 -> r ∈ rows).
  { intros [?|Hr%list_elem_of_singleton]%elem_of_app; [done|].
    subst r. congruence. }
  destruct id as [z'|]; [|auto].
  destruct (has_id z' rows); [|auto].
  apply list_elem_of_fmap in Hin as (r0 & -> & Hin0).
  destruct (bool_decide (row_id r0 = Some z')) eqn:Eb; [|done].
  apply bool_decide_eq_true in Eb. rewrite row_id_updated in Hrid. congruence.
Qed.

Lemma upsert_fold_other now co z : forall batch rows (r : row),
  Forall (fun vals => is_Some (proposed_id co (proposed_row co vals))) batch ->
  (forall vals, vals ∈ batch -> tuple_id co vals <> Some z) ->
  r ∈ foldl (upsert_tuple now co) rows batch ->
  row_id r = Some z ->
  r ∈ rows.
Proof.
  induction batch as [|v batch IH]; intros rows r HF Hne; simpl; [done|].
  apply Forall_cons in HF as [Hv HF]. intros Hin Hid.
  apply (upsert_tuple_other now co rows v z); [done| |  |done].
  - apply Hne, list_elem_of_here.
  - apply IH; [done| |done|done].
    intros vals Hvals. by apply Hne, list_elem_of_further.
Qed.

(** X9: after a successful [upsert_rows], the record id [z] of a tuple
    of the batch is stored, and every stored row with that id holds, in
    each column the statement sets, the value of the last tuple of the
    batch that carries [z] ([None] being stored as NULL). *)
Theorem upsert_rows_stores_values (now : Z) (d d' : db) (tn : string)
        (columns : list string) (before after : list (list pyval))
        (vals : list pyval) (z : Z) :
  let co := dedup_columns ∅ columns in
  upsert_rows now d tn columns (before ++ vals :: after) = Some d' ->
  tuple_id co vals = Some z ->
  (forall v, v ∈ after -> tuple_id co v <> Some z) ->
  exists t',
    tables d' !! tn = Some t'
    /\ z ∈ stored_ids (t_rows t')
    /\ forall r : row,
         r ∈ t_rows t' -> row_id r = Some z ->
         forall c, c ∈ set_cols co ->
                   r !! c = stored (default PNone (proposed_row co vals !! c)).
Proof.
  intros co H Hz Hafter.
  apply upsert_rows_fold in H as [[Hnil _]|(t & Ht & -> & HF)].
  { by destruct before. }
  unfold with_tables. simpl. rewrite lookup_insert_eq.
  eexists. split; [done|]. simpl. fold co. fold co in HF. split.
  { destruct (upsert_fold_ids now co (before ++ vals :: after) (t_rows t) HF)
      as (_ & _ & Hstored).
    apply (Hstored vals); [|done]. apply elem_of_app. right.
    apply list_elem_of_here. }
  rewrite foldl_app. simpl. intros r Hin Hid c Hc.
  apply Forall_app in HF as [_ HF]. apply Forall_cons in HF as [_ HF].
  apply (upsert_fold_other now co z) in Hin; [|done|done|done].
  by eapply upsert_tuple_writes.
Qed.

End upsert_batch_facts.

Lemma upsert_rows_keeps_ids_witness :
  match Upsert.upsert_rows 100 Demo.fresh_db "b24_crm_contact"
          ["id"; "raw"; "name"] [Demo.lia_row] with
  | Some d' =>
      Db.sync_state d' = Db.sync_state Demo.fresh_db
      /\ Db.queue d' = Db.queue Demo.fresh_db
      /\ exists t', Db.tables d' !! "b24_crm_contact" = Some t'
                    /\ 9 ∈ Invariant.stored_ids (Db.t_rows t')
  | None => False
  end.
Proof.
  destruct (Upsert.upsert_rows 100 Demo.fresh_db "b24_crm_contact"
              ["id"; "raw"; "name"] [Demo.lia_row]) as [d'|] eqn:Hup;
    [|vm_compute in Hup; discriminate].
  destruct (upsert_rows_keeps_ids 100 Demo.fresh_db d' "b24_crm_contact"
              ["id"; "raw"; "name"] [Demo.lia_row] Hup)
    as (H1 & _ & H3 & _ & _ & _ & H7).
  split; [exact H1|]. split; [exact H3|].
  destruct (H7 Demo.contact_table eq_refl) as (t' & Ht' & _ & _ & _ & Hz).
  exists t'. split; [exact Ht'|].
  apply (Hz Demo.lia_row 9); [apply list_elem_of_here|reflexivity].
Defined.

Lemma upsert_rows_keeps_rows_witness :
  match Upsert.upsert_rows 100 Demo.fresh_db "b24_crm_contact"
          ["id"; "raw"; "name"] [Demo.lia_row] with
  | Some d' =>
      exists t', Db.tables d' !! "b24_crm_contact" = Some t'
                 /\ Db.t_rows t' !! 0%nat = Some (Demo.contact_row 5 "Ana")
  | None => False
  end.
Proof.
  destruct (Upsert.upsert_rows 100 Demo.fresh_db "b24_crm_contact"
              ["id"; "raw"; "name"] [Demo.lia_row]) as [d'|] eqn:Hup;
    [|vm_compute in Hup; discriminate].
  destruct (upsert_rows_keeps_rows 100 Demo.fresh_db d' "b24_crm_contact"
              ["id"; "raw"; "name"] [Demo.lia_row] Demo.contact_table Hup eq_refl)
    as (t' & Ht' & Hrows).
  exists t'. split; [exact Ht'|].
  destruct (Hrows 0%nat (Demo.contact_row 5 "Ana") eq_refl)
    as (r' & Hr' & _ & _ & _ & Hsame).
  rewrite Hr'. f_equal. apply Hsame. right.
  intros vals Hin. apply list_elem_of_singleton in Hin. subst vals.
  vm_compute. discriminate.
Defined.

Lemma upsert_rows_stores_values_witness :
  match Upsert.upsert_rows 100 Demo.fresh_db "b24_crm_contact"
          ["id"; "raw"; "name"] [Demo.lia_row] with
  | Some d' =>
      exists t', Db.tables d' !! "b24_crm_contact" = Some t'
                 /\ 9 ∈ Invariant.stored_ids (Db.t_rows t')
                 /\ forall r : Db.row,
                      r ∈ Db.t_rows t' -> Db.row_id r = Some 9 ->
                      r !! "name" = Some (Py.PStr "Lia")
  | None => False
  end.
Proof.
  destruct (Upsert.upsert_rows 100 Demo.fresh_db "b24_crm_contact"
              ["id"; "raw"; "name"] [Demo.lia_row]) as [d'|] eqn:Hup;
    [|vm_compute in Hup; discriminate].
  destruct (upsert_rows_stores_values 100 Demo.fresh_db d' "b24_crm_contact"
              ["id"; "raw"; "name"] [] [] Demo.lia_row 9 Hup eq_refl)
    as (t' & Ht' & Hz & Hvals).
  { intros v Hv. by apply elem_of_nil in Hv. }
  exists t'. split; [exact Ht'|]. split; [exact Hz|].
  intros r Hin Hid. rewrite (Hvals r Hin Hid "name"); [reflexivity|].
  vm_compute. apply list_elem_of_further, list_elem_of_here.
Defined.

(** ** The webhook queue: what the worker does to the rows *)

Section queue_worker_facts.
Import PyStr Py Db Upsert Client Mapping Webhook Invariant.
Context {B : Builtins}.

Lemma upsert_single_item_frame now d ek item_v d2 ok :
  _upsert_single_item now d ek item_v = Upserted d2 ok ->
  queue d2 = queue d /\ queue_seq d2 = queue_seq d
  /\ meta_fields d2 = meta_fields d /\ sync_state d2 = sync_state d.
Proof.
  unfold _upsert_single_item. intros H.
  repeat match type of H with
         | match ?x with _ => _ end = _ => destruct x eqn:?; try discriminate
         | (if ?x then _ else _) = _ => destruct x eqn:?; try discriminate
         end;
    injection H as <- <-; try done;
    match goal with
    | Hu : upsert_rows _ _ _ _ _ = Some _ |- _ =>
        apply upsert_rows_frame in Hu as (? & ? & ? & ? & _)
    end; done.
Qed.

Lemma notification_id a b : notification a = notification b -> q_id a = q_id b.
Proof. unfold notification. congruence. Qed.

(** A job changes its own queue row and no other, and of that row only
    the columns the worker owns. *)
Lemma process_job_queue srv now d j :
  exists g,
    (forall ev, notification (g ev) = notification ev)
    /\ queue (result_db (process_job srv now d j))
       = (fun ev => if bool_decide (q_id ev = j_id j) then g ev else ev)
           <$> queue d
    /\ queue_seq (result_db (process_job srv now d j)) = queue_seq d.
Proof.
  unfold process_job.
  destruct (is_delete_event (j_event_name j)).
  { exists (fun ev => set_done now (set_processing ev)). split; [done|].
    simpl. split; [by apply update_event_twice|done]. }
  destruct (_bitrix_get_one srv (j_entity_key j) (j_entity_id j)) as [item_v calls].
  destruct (negb (truthy item_v)).
  { exists (fun ev => set_retry now (backoff_of (j_attempts j))
                        "bitrix blocked / empty" (set_processing ev)).
    split; [done|]. simpl. split; [by apply update_event_twice|done]. }
  destruct (_upsert_single_item now (update_event d (j_id j) set_processing)
              (j_entity_key j) item_v) as [d2 ok|] eqn:E.
  - apply upsert_single_item_frame in E as (Hq & Hs & _).
    destruct ok; cbn [result_db].
    + exists (fun ev => set_done now (set_processing ev)). split; [done|].
      split; [|simpl; by rewrite Hs].
      rewrite queue_update_event, Hq, <- queue_update_event.
      by apply update_event_twice.
    + exists (fun ev => set_retry now (backoff_of (j_attempts j))
                          "upsert failed" (set_processing ev)).
      split; [done|]. split; [|simpl; by rewrite Hs].
      rewrite queue_update_event, Hq, <- queue_update_event.
      by apply update_event_twice.
  - exists set_processing. split; [done|]. simpl. split; [|done].
    apply queue_update_event.
Qed.

Lemma process_jobs_queue srv now : forall jobs d,
  exists G,
    (forall ev, notification (G ev) = notification ev)
    /\ (forall ev, q_id ev ∉ j_id <$> jobs -> G ev = ev)
    /\ queue (result_db (process_jobs srv now d jobs)) = G <$> queue d
    /\ queue_seq (result_db (process_jobs srv now d jobs)) = queue_seq d.
Proof.
  induction jobs as [|j jobs IH]; intros d.
  { exists id. simpl. split; [done|]. split; [done|]. by rewrite list_fmap_id. }
  destruct (process_job_queue srv now d j) as (g & Hg & Hq & Hs).
  set (touch := fun ev => if bool_decide (q_id ev = j_id j) then g ev else ev) in *.
  assert (Htn : forall ev, notification (touch ev) = notification ev).
  { intros ev. unfold touch. by destruct (bool_decide _). }
  assert (Htid : forall ev, q_id ev ∉ j_id <$> (j :: jobs) -> touch ev = ev).
  { intros ev Hni. unfold touch. rewrite bool_decide_eq_false_2; [done|].
    intros Heq. apply Hni. rewrite fmap_cons, Heq. apply list_elem_of_here. }
  simpl process_jobs.
  destruct (process_job srv now d j) as [d1 t|d1 t]; simpl in Hq, Hs.
  - destruct (IH d1) as (G & HG & HGid & HGq & HGs).
    exists (fun ev => G (touch ev)). split; [|split; [|split]].
    + intros ev. by rewrite HG, Htn.
    + intros ev Hni. rewrite Htid by done. apply HGid.
      intros Hin. apply Hni. rewrite fmap_cons. by apply list_elem_of_further.
    + destruct (process_jobs srv now d1 jobs); simpl in *;
        rewrite HGq, Hq, <- list_fmap_compose; done.
    + destruct (process_jobs srv now d1 jobs); simpl in *; congruence.
  - exists touch. simpl. done.
Qed.

(** X10: a turn of the worker neither adds nor removes a queue row, and
    never changes what identifies a notification: the id, the entity key
    and id, the event name, the payload and the time of receipt of every
    row are the same after the turn, in the same order; the id sequence
    is not advanced. *)
Theorem worker_turn_keeps_notifications (srv : remote) (now : Z) (d : db) :
  notification <$> queue (result_db (worker_turn srv now d))
  = notification <$> queue d
  /\ queue_seq (result_db (worker_turn srv now d)) = queue_seq d.
Proof.
  unfold worker_turn.
  destruct (process_jobs_queue srv now (select_jobs now d) d)
    as (G & HG & _ & Hq & Hs).
  split; [|done]. rewrite Hq, <- list_fmap_compose.
  apply list_fmap_ext. intros _ ev _. apply HG.
Qed.

Lemma select_jobs_due now d j :
  j ∈ select_jobs now d ->
  exists ev, ev ∈ queue d /\ is_due now ev = true /\ j = job_of ev.
Proof.
  unfold select_jobs. intros Hin. apply subseteq_take in Hin.
  apply list_elem_of_fmap in Hin as (ev & -> & Hev).
  rewrite merge_sort_Permutation in Hev.
  apply list_elem_of_filter in Hev as [Hdue Hev]. by exists ev.
Qed.

Lemma NoDup_fmap_eq {A C} (f : A -> C) (l : list A) x y :
  NoDup (f <$> l) -> x ∈ l -> y ∈ l -> f x = f y -> x = y.
Proof.
  induction l as [|a l IH]; [by intros _ ?%elem_of_nil|].
  rewrite fmap_cons, NoDup_cons. intros [Hni Hnd].
  intros [->|Hx]%elem_of_cons [->|Hy]%elem_of_cons Hf; [done| | |by apply IH].
  - exfalso. apply Hni. rewrite Hf. by apply list_elem_of_fmap_2.
  - exfalso. apply Hni. rewrite <- Hf. by apply list_elem_of_fmap_2.
Qed.

Lemma worker_turn_wf srv now d :
  queue_wf d -> queue_wf (result_db (worker_turn srv now d)).
Proof.
  unfold worker_turn, queue_wf.
  destruct (process_jobs_queue srv now (select_jobs now d) d)
    as (G & HG & _ & Hq & Hs).
  assert (Hid : forall ev, q_id (G ev) = q_id ev).
  { intros ev. apply notification_id, HG. }
  rewrite Hq, Hs. intros [Hnd Hle]. split.
  - rewrite <- list_fmap_compose.
    by rewrite (list_fmap_ext (q_id ∘ G) q_id (queue d) (fun _ x _ => Hid x)).
  - rewrite Forall_fmap. eapply Forall_impl; [done|]. intros ev. simpl.
    by rewrite Hid.
Qed.

Lemma worker_turn_skips srv now d ev :
  queue_wf d -> ev ∈ queue d -> is_due now ev = false ->
  ev ∈ queue (result_db (worker_turn srv now d)).
Proof.
  intros [Hnd _] Hin Hdue. unfold worker_turn.
  destruct (process_jobs_queue srv now (select_jobs now d) d)
    as (G & _ & HGid & Hq & _).
  rewrite Hq. apply list_elem_of_fmap. exists ev. split; [|done].
  symmetry. apply HGid. intros Hsel.
  apply list_elem_of_fmap in Hsel as (j & Hj & Hjin).
  apply select_jobs_due in Hjin as (ev' & Hin' & Hdue' & ->).
  simpl in Hj.
  assert (ev = ev') as <- by (by eapply (NoDup_fmap_eq q_id)).
  congruence.
Qed.

(** X11: within a turn the worker leaves alone every row its [SELECT]
    does not return: a row that is not due (its status is none of new,
    retry and pending, or its [next_run_at] lies in the future) is in the
    queue after the turn exactly as it was before. *)
Theorem worker_turn_leaves_rows_not_due (srv : remote) (now : Z) (d : db)
        (ev : wh_event) :
  queue_wf d -> ev ∈ queue d -> is_due now ev = false ->
  ev ∈ queue (result_db (worker_turn srv now d))
  /\ queue_wf (result_db (worker_turn srv now d)).
Proof.
  intros Hwf Hin Hdue. split; [by apply worker_turn_skips|by apply worker_turn_wf].
Qed.

Lemma never_due_stays srv ev : forall times d,
  queue_wf d -> ev ∈ queue d -> (forall now, is_due now ev = false) ->
  ev ∈ queue (worker_turns srv times d).
Proof.
  induction times as [|now times IH]; intros d Hwf Hin Hnever; [done|].
  simpl. apply IH; [by apply worker_turn_wf| |done].
  by apply worker_turn_skips.
Qed.

(** X12: when the upsert of a job raises, the job's row is left in
    status processing (the only status written for it), and no later turn
    of the worker, at whatever time and whatever the remote side answers,
    changes that row again: it is neither retried nor marked done. *)
Theorem raised_job_stays_processing (srv : remote) (now : Z) (d d' : db)
        (j : job) (trace : list effect) (ev : wh_event) :
  queue_wf d ->
  process_job srv now d j = JobRaised d' trace ->
  ev ∈ queue d -> q_id ev = j_id j ->
  statuses_of (j_id j) trace = ["processing"]
  /\ set_processing ev ∈ queue d'
  /\ forall srv' times, set_processing ev ∈ queue (worker_turns srv' times d').
Proof.
  intros Hwf Hp Hin Hid. unfold process_job in Hp.
  destruct (is_delete_event (j_event_name j)); [done|].
  destruct (_bitrix_get_one srv (j_entity_key j) (j_entity_id j))
    as [item_v calls] eqn:Eg.
  destruct (negb (truthy item_v)); [done|].
  destruct (_upsert_single_item now (update_event d (j_id j) set_processing)
              (j_entity_key j) item_v) as [d2 [|]|]; try done.
  injection Hp as <- <-.
  assert (Hin' : set_processing ev ∈ queue (update_event d (j_id j) set_processing)).
  { rewrite queue_update_event. apply list_elem_of_fmap. exists ev.
    split; [|done]. by rewrite bool_decide_eq_true_2. }
  assert (Hwf' : queue_wf (update_event d (j_id j) set_processing)).
  { destruct Hwf as [Hnd Hle]. split.
    - rewrite queue_update_event, <- list_fmap_compose.
      rewrite (list_fmap_ext _ q_id (queue d)); [done|].
      intros _ x _. simpl. by destruct (bool_decide _).
    - rewrite queue_update_event, Forall_fmap.
      eapply Forall_impl; [done|]. intros x. simpl. by destruct (bool_decide _). }
  split; [|split; [done|]].
  - assert (Hcalls : statuses_of (j_id j) calls = []).
    { unfold _bitrix_get_one in Eg.
      repeat match type of Eg with
             | (if ?x then _ else _) = _ => destruct x
             | match ?x with _ => _ end = _ => destruct x
             end; by injection Eg as <- <-. }
    unfold statuses_of in *. cbn [app omap list_omap].
    rewrite bool_decide_eq_true_2 by done. by rewrite Hcalls.
  - intros srv' times. by apply never_due_stays.
Qed.


(** X13: the worker's [SELECT ... ORDER BY id LIMIT 10] returns at most
    ten jobs, in increasing order of id, each of them a due row of the
    queue; a due row that is left out has an id at least as large as
    every selected one (the batch is then full). *)
Theorem select_jobs_oldest_due (now : Z) (d : db) :
  (length (select_jobs now d) <= BATCH)%nat
  /\ StronglySorted Z.le (j_id <$> select_jobs now d)
  /\ (forall j, j ∈ select_jobs now d ->
        exists ev, ev ∈ queue d /\ is_due now ev = true /\ j = job_of ev)
  /\ (forall ev, ev ∈ queue d -> is_due now ev = true ->
        job_of ev ∈ select_jobs now d
        \/ (length (select_jobs now d) = BATCH
            /\ forall j, j ∈ select_jobs now d -> j_id j <= q_id ev)).
Proof.
  unfold select_jobs.
  set (l := merge_sort id_le (filter (fun ev => is_due now ev = true) (queue d))).
  assert (Hs : StronglySorted id_le (take BATCH l ++ drop BATCH l)).
  { rewrite take_drop. apply StronglySorted_merge_sort; apply _. }
  rewrite <- fmap_take. split; [|split; [|split]].
  - rewrite length_fmap, length_take. lia.
  - rewrite <- list_fmap_compose.
    apply (StronglySorted_fmap _ id_le); [done|].
    by apply StronglySorted_app_1_l in Hs.
  - intros j Hj. apply (select_jobs_due now d). unfold select_jobs.
    by rewrite <- fmap_take.
  - intros ev Hin Hdue.
    assert (Hl : ev ∈ (take BATCH l ++ drop BATCH l)%list).
    { rewrite take_drop. unfold l. rewrite merge_sort_Permutation.
      by apply list_elem_of_filter. }
    apply elem_of_app in Hl as [Ht|Hd].
    + left. by apply list_elem_of_fmap_2.
    + right. split.
      * rewrite length_fmap, length_take.
        assert (0 < length (drop BATCH l))%nat as Hpos.
        { destruct (drop BATCH l); [by apply elem_of_nil in Hd|simpl; lia]. }
        rewrite length_drop in Hpos. lia.
      * intros j (x & -> & Hx)%list_elem_of_fmap.
        apply (StronglySorted_app_1_elem_of _ _ _ _ _ Hs Hx Hd).
Qed.

Lemma no_fetch_result srv ek eid :
  has_fetch ek = false -> _bitrix_get_one srv ek eid = (PNone, []).
Proof.
  unfold has_fetch, _bitrix_get_one. intros H.
  apply orb_false_iff in H as [H Hsp]. apply orb_false_iff in H as [H ->].
  apply orb_false_iff in H as [-> ->].
  destruct (is_prefix "sp:" ek); [|done]. cbn [andb] in Hsp.
  apply bool_decide_eq_false in Hsp.
  destruct (parse_int (str_skip 3 ek)); [|done]. exfalso. apply Hsp. by eexists.
Qed.

Lemma process_job_not_done srv now d j id0 :
  (j_id j = id0 ->
   has_fetch (j_entity_key j) = false
   /\ is_delete_event (j_event_name j) = false) ->
  (forall ev, ev ∈ queue d -> q_id ev = id0 -> q_status ev <> "done") ->
  forall ev, ev ∈ queue (result_db (process_job srv now d j)) ->
             q_id ev = id0 -> q_status ev <> "done".
Proof.
  intros Hj HP ev Hin Hid.
  destruct (decide (j_id j = id0)) as [Heq|Hne].
  - destruct (Hj Heq) as [Hnf Hnd]. unfold process_job in Hin.
    rewrite Hnd, (no_fetch_result srv _ _ Hnf) in Hin. simpl in Hin.
    apply list_elem_of_fmap in Hin as (ev1 & -> & Hin).
    apply list_elem_of_fmap in Hin as (ev0 & -> & Hin).
    destruct (bool_decide (q_id ev0 = j_id j)) eqn:E0; simpl in *.
    + rewrite E0. simpl. done.
    + rewrite E0 in *. by apply HP.
  - destruct (process_job_queue srv now d j) as (g & Hg & Hq & _).
    rewrite Hq in Hin. apply list_elem_of_fmap in Hin as (ev0 & -> & Hin).
    destruct (bool_decide (q_id ev0 = j_id j)) eqn:E0.
    + apply bool_decide_eq_true in E0.
      rewrite (notification_id _ _ (Hg ev0)) in Hid. congruence.
    + by apply HP.
Qed.

Lemma process_jobs_not_done srv now id0 : forall jobs d,
  (forall j, j ∈ jobs -> j_id j = id0 ->
     has_fetch (j_entity_key j) = false
     /\ is_delete_event (j_event_name j) = false) ->
  (forall ev, ev ∈ queue d -> q_id ev = id0 -> q_status ev <> "done") ->
  forall ev, ev ∈ queue (result_db (process_jobs srv now d jobs)) ->
             q_id ev = id0 -> q_status ev <> "done".
Proof.
  induction jobs as [|j jobs IH]; intros d Hjobs HP; [done|].
  assert (Hj : j_id j = id0 ->
               has_fetch (j_entity_key j) = false
               /\ is_delete_event (j_event_name j) = false).
  { apply Hjobs, list_elem_of_here. }
  assert (Hrest : forall j', j' ∈ jobs -> j_id j' = id0 ->
                    has_fetch (j_entity_key j') = false
                    /\ is_delete_event (j_event_name j') = false).
  { intros j' Hin. by apply Hjobs, list_elem_of_further. }
  pose proof (process_job_not_done srv now d j id0 Hj HP) as H1.
  simpl process_jobs.
  destruct (process_job srv now d j) as [d1 t|d1 t]; simpl in H1; [|done].
  assert (H2 := IH d1 Hrest H1).
  by destruct (process_jobs srv now d1 jobs).
Qed.

Lemma job_of_notification a b :
  notification a = notification b ->
  j_entity_key (job_of a) = j_entity_key (job_of b)
  /\ j_event_name (job_of a) = j_event_name (job_of b).
Proof. unfold notification, job_of. simpl. intros [= _ -> _ -> -> _ _]. done. Qed.

Lemma worker_turns_not_done srv (ev : wh_event) : forall times d,
  has_fetch (q_entity_key ev) = false ->
  is_delete_event (j_event_name (job_of ev)) = false ->
  (forall ev', ev' ∈ queue d -> q_id ev' = q_id ev ->
     notification ev' = notification ev /\ q_status ev' <> "done") ->
  forall ev', ev' ∈ queue (worker_turns srv times d) -> q_id ev' = q_id ev ->
    notification ev' = notification ev /\ q_status ev' <> "done".
Proof.
  induction times as [|now times IH]; intros d Hnf Hnd HP; [done|].
  simpl. apply IH; [done|done|]. intros ev' Hin Hid. split.
  - unfold worker_turn in Hin.
    destruct (process_jobs_queue srv now (select_jobs now d) d)
      as (G & HG & _ & Hq & _).
    rewrite Hq in Hin. apply list_elem_of_fmap in Hin as (ev0 & -> & Hin).
    rewrite HG. apply HP; [done|].
    by rewrite <- (notification_id _ _ (HG ev0)).
  - revert ev' Hin Hid. apply process_jobs_not_done.
    + intros j Hj Hjid. apply select_jobs_due in Hj as (ev0 & Hin0 & _ & ->).
      destruct (HP ev0 Hin0 Hjid) as [Hn _].
      apply job_of_notification in Hn as [Hk He].
      rewrite Hk, He. split; [exact Hnf|exact Hnd].
    + intros ev0 Hin0 Hid0. by apply HP.
Qed.

(** X14: a notification for an entity kind [_bitrix_get_one] has no
    branch for (the endpoint queues such rows under the key [company])
    is never completed: as long as its event is no delete event, no
    number of worker turns marks its row done, whatever the remote side
    answers; the row keeps naming the same notification. *)
Theorem unfetchable_job_never_done (srv : remote) (times : list Z) (d : db)
        (ev : wh_event) :
  queue_wf d -> ev ∈ queue d ->
  has_fetch (q_entity_key ev) = false ->
  is_delete_event (j_event_name (job_of ev)) = false ->
  q_status ev <> "done" ->
  forall ev', ev' ∈ queue (worker_turns srv times d) -> q_id ev' = q_id ev ->
    notification ev' = notification ev /\ q_status ev' <> "done".
Proof.
  intros [Hnd _] Hin Hnf Hdel Hst. apply worker_turns_not_done; [done|done|].
  intros ev' Hin' Hid.
  assert (ev' = ev) as -> by (by eapply (NoDup_fmap_eq q_id)). done.
Qed.

End queue_worker_facts.

Lemma worker_turn_leaves_rows_not_due_witness :
  Demo.contact_notification
    ∈ Db.queue (Webhook.result_db
                  (Webhook.worker_turn (B := Demo.builtins) Demo.failing_remote 10
                     Demo.update_notified)).
Proof.
  apply (worker_turn_leaves_rows_not_due (B := Demo.builtins) Demo.failing_remote
           10 Demo.update_notified Demo.contact_notification).
  - split; [apply NoDup_singleton|]. apply Forall_singleton. reflexivity.
  - apply list_elem_of_here.
  - reflexivity.
Defined.

Lemma raised_job_stays_processing_witness :
  Webhook.set_processing Demo.contact_notification
    ∈ Db.queue (Webhook.worker_turns (B := Demo.builtins) Demo.failing_remote
                  (Demo.hourly 3)
                  (Webhook.update_event Demo.update_notified 1
                     Webhook.set_processing)).
Proof.
  destruct (raised_job_stays_processing (B := Demo.builtins) Demo.text_remote 30
              Demo.update_notified
              (Webhook.update_event Demo.update_notified 1 Webhook.set_processing)
              Demo.update_job
              [Webhook.StatusSet 1 "processing";
               Webhook.RemoteCall "crm.contact.get" [("id", Py.PInt 5)]]
              Demo.contact_notification) as (_ & _ & H).
  - split; [apply NoDup_singleton|]. apply Forall_singleton. reflexivity.
  - reflexivity.
  - apply list_elem_of_here.
  - reflexivity.
  - apply H.
Defined.

Lemma unfetchable_job_never_done_witness :
  Forall (fun ev' =>
            Db.q_id ev' = 1 ->
            Invariant.notification ev'
            = Invariant.notification Demo.company_notification
            /\ Db.q_status ev' <> "done")
         (Db.queue (Webhook.worker_turns (B := Demo.builtins) Demo.text_remote
                      (Demo.hourly 3) Demo.company_notified)).
Proof.
  apply Forall_forall. intros ev' Hin.
  apply (unfetchable_job_never_done (B := Demo.builtins) Demo.text_remote
           (Demo.hourly 3) Demo.company_notified Demo.company_notification).
  - split; [apply NoDup_singleton|]. apply Forall_singleton. reflexivity.
  - apply list_elem_of_here.
  - reflexivity.
  - reflexivity.
  - discriminate.
  - exact Hin.
Defined.

(** ** The webhook endpoint and the keys it queues *)

Section endpoint_facts.
Import PyStr Py Db Client Mapping Sync Webhook Endpoint Invariant.
Context {B : Builtins}.

Lemma smart_key_fetch srv n eid :
  _bitrix_get_one srv ("sp:" +:+ str_of_int n) eid
  = (smart_result (srv "crm.item.get"
                       [("entityTypeId", PInt n); ("id", PInt eid)]),
     [RemoteCall "crm.item.get" [("entityTypeId", PInt n); ("id", PInt eid)]]).
Proof.
  unfold _bitrix_get_one.
  change (String.eqb ("sp:" +:+ str_of_int n) "deal") with false.
  change (String.eqb ("sp:" +:+ str_of_int n) "contact") with false.
  change (String.eqb ("sp:" +:+ str_of_int n) "lead") with false.
  change (is_prefix "sp:" ("sp:" +:+ str_of_int n)) with true.
  change (str_skip 3 ("sp:" +:+ str_of_int n)) with (str_of_int n).
  cbv iota. by rewrite parse_int_str_of_int.
Qed.

Lemma has_fetch_smart n : has_fetch ("sp:" +:+ str_of_int n) = true.
Proof.
  unfold has_fetch.
  change (is_prefix "sp:" ("sp:" +:+ str_of_int n)) with true.
  change (str_skip 3 ("sp:" +:+ str_of_int n)) with (str_of_int n).
  rewrite parse_int_str_of_int. rewrite bool_decide_eq_true_2 by eauto.
  by rewrite orb_true_r.
Qed.

Lemma detect_entity_key_cases ev ty k :
  detect_entity_key ev ty = Key k ->
  k = "" \/ k = "deal" \/ k = "lead" \/ k = "contact" \/ k = "company"
  \/ exists n, parse_int ty = Some n /\ k = entity_key_of (Smart n).
Proof.
  unfold detect_entity_key.
  repeat match goal with
         | |- (if ?c then _ else _) = _ -> _ => destruct c
         end; try (intros [= <-]; auto 6; fail); try done.
  destruct (parse_int ty) as [n|]; [|done]. intros [= <-].
  do 5 right. by exists n.
Qed.

Lemma enqueue_wf now d ek eid name p :
  queue_wf d -> queue_wf (_enqueue_webhook_event now d ek eid name p).
Proof.
  intros [Hnd Hle]. unfold queue_wf, _enqueue_webhook_event, with_queue. simpl.
  split.
  - rewrite fmap_app. simpl. apply NoDup_app. split; [done|].
    split; [|apply NoDup_singleton].
    intros x Hx ->%list_elem_of_singleton.
    apply list_elem_of_fmap in Hx as (ev & Hid & Hev).
    rewrite Forall_forall in Hle. specialize (Hle ev Hev). lia.
  - apply Forall_app. split.
    + eapply Forall_impl; [done|]. intros ev. simpl. lia.
    + apply Forall_singleton. simpl. lia.
Qed.


(** X16: the key of a smart process is read back by the worker.  The
    endpoint queues a dynamic-item event under [sp:<n>], [n] being the
    type id [int] reads from the payload; that is the key the sync uses
    for the type, and for it [_bitrix_get_one] asks the remote side for
    the item with [entityTypeId] [n] again, in one call. *)
Theorem smart_key_round_trip (srv : remote) (n eid : Z) :
  (forall ev ty k,
     detect_entity_key ev ty = Key k -> is_prefix "sp:" k = true ->
     exists m, parse_int ty = Some m /\ k = entity_key_of (Smart m))
  /\ has_fetch (entity_key_of (Smart n)) = true
  /\ _bitrix_get_one srv (entity_key_of (Smart n)) eid
     = (smart_result (srv "crm.item.get"
                          [("entityTypeId", PInt n); ("id", PInt eid)]),
        [RemoteCall "crm.item.get"
                    [("entityTypeId", PInt n); ("id", PInt eid)]]).
Proof.
  split; [|split].
  - intros ev ty k Hk Hsp.
    apply detect_entity_key_cases in Hk
      as [->|[->|[->|[->|[->|(m & Hm & ->)]]]]]; try done.
    by exists m.
  - apply has_fetch_smart.
  - apply smart_key_fetch.
Qed.

(** X17: the queue keeps the properties of its primary key: when the ids
    of the rows are pairwise distinct and none is beyond the sequence,
    the same holds after [_enqueue_webhook_event], after a call of the
    endpoint and after a turn of the worker. *)
Theorem queue_wf_kept (srv : remote) (now : Z) (d : db) (ek : string)
        (eid : Z) (name : string) (payload : pyval) :
  queue_wf d ->
  queue_wf (_enqueue_webhook_event now d ek eid name payload)
  /\ queue_wf (b24_dynamic_item_update now d payload).1
  /\ queue_wf (result_db (worker_turn srv now d)).
Proof.
  intros Hwf. split; [by apply enqueue_wf|]. split; [|by apply worker_turn_wf].
  unfold b24_dynamic_item_update.
  destruct payload as [| | | | | | p | |]; try done.
  destruct (detect_entity_key _ _) as [k| |]; try done.
  destruct (_ || _); [done|].
  destruct (parse_int _); [|done]. by apply enqueue_wf.
Qed.

End endpoint_facts.

Lemma queue_wf_kept_witness :
  Invariant.queue_wf
    (Webhook._enqueue_webhook_event 40 Demo.update_notified "contact" 5
       "ONCRMCONTACTUPDATE" (Py.PDict []))
  /\ Invariant.queue_wf
       (Endpoint.b24_dynamic_item_update (B := Demo.builtins) 40
          Demo.update_notified (Py.PDict [])).1
  /\ Invariant.queue_wf
       (Webhook.result_db
          (Webhook.worker_turn (B := Demo.builtins) Demo.failing_remote 40
             Demo.update_notified)).
Proof.
  apply (queue_wf_kept (B := Demo.builtins) Demo.failing_remote 40
           Demo.update_notified "contact" 5 "ONCRMCONTACTUPDATE" (Py.PDict [])).
  split; [apply NoDup_singleton|]. apply Forall_singleton. reflexivity.
Defined.

(** ** One record written by the webhook worker *)

Section single_item_facts.
Import PyStr Py Db Upsert Client Mapping Webhook Invariant.
Context {B : Builtins}.

Lemma dedup_columns_length seen l :
  (length (dedup_columns seen l) <= length l)%nat.
Proof.
  revert seen. induction l as [|c l IH]; intros seen; simpl; [lia|].
  destruct (decide (c ∈ seen)); simpl; [specialize (IH seen)|specialize (IH ({[c]} ∪ seen))]; lia.
Qed.

Lemma dedup_columns_full l : forall seen,
  length (dedup_columns seen l) = length l ->
  dedup_columns seen l = l /\ NoDup l /\ forall c, c ∈ l -> c ∉ seen.
Proof.
  induction l as [|c l IH]; intros seen; simpl.
  { intros _. split; [done|]. split; [constructor|]. by intros ? ?%elem_of_nil. }
  destruct (decide (c ∈ seen)) as [Hin|Hout]; simpl.
  { pose proof (dedup_columns_length seen l). lia. }
  intros Hlen. destruct (IH ({[c]} ∪ seen)) as (Heq & Hnd & Hfresh); [lia|].
  split; [by rewrite Heq|]. split.
  - constructor; [|done]. intros Hc. apply (Hfresh c Hc).
    apply elem_of_union. left. by apply elem_of_singleton.
  - intros c' [->|Hc']%elem_of_cons; [done|].
    intros Hs. apply (Hfresh c' Hc'). apply elem_of_union. by right.
Qed.

Lemma run_page_lengths now co ok : forall page seen rows rows',
  run_page now co ok seen rows page = Some rows' ->
  Forall (fun vals => length vals = length co) page
  /\ (page <> [] -> ok = true).
Proof.
  induction page as [|vals rest IH]; intros seen rows rows'; simpl.
  { intros _. by split. }
  destruct ok; simpl; [|done].
  destruct (length vals =? length co)%nat eqn:El; simpl; [|done].
  apply Nat.eqb_eq in El.
  destruct (proposed_id co (proposed_row co vals)) as [[z|]|]; [| |done].
  - destruct (decide (z ∈ seen)); [done|]. intros H. apply IH in H as [HF _].
    split; [by constructor|done].
  - intros H. apply IH in H as [HF _]. split; [by constructor|done].
Qed.

Lemma run_pages_lengths now co ok : forall fuel l rows rows',
  (length l <= fuel)%nat ->
  run_pages now co ok rows (pages fuel l) = Some rows' ->
  Forall (fun vals => length vals = length co) l /\ (l <> [] -> ok = true).
Proof.
  induction fuel as [|fuel IH]; intros l rows rows' Hlen.
  { destruct l; [|simpl in Hlen; lia]. by split. }
  destruct l as [|v l']; [by split|].
  assert (Hl : (0 < length (v :: l'))%nat) by (simpl; lia).
  change (pages (S fuel) (v :: l'))
    with (take PAGE_SIZE (v :: l') :: pages fuel (drop PAGE_SIZE (v :: l'))).
  assert (Hne : take PAGE_SIZE (v :: l') <> []) by done.
  generalize dependent (v :: l'). clear v l'. intros l Hlen Hl Hne.
  cbn [run_pages]. intros H.
  destruct (run_page now co ok ∅ rows (take PAGE_SIZE l)) as [rows1|] eqn:E1;
    simpl in H; [|done].
  apply run_page_lengths in E1 as [HF1 Hok].
  apply IH in H as [HF2 _].
  - split; [|auto]. rewrite <- (take_drop PAGE_SIZE l). by apply Forall_app.
  - rewrite length_drop. unfold PAGE_SIZE. lia.
Qed.

(** A one-tuple [upsert_rows] that succeeds: the table exists and has
    every listed column, the tuple has one value per column. *)
Lemma upsert_rows_one now d tn columns vals d' :
  upsert_rows now d tn columns [vals] = Some d' ->
  exists t,
    tables d !! tn = Some t
    /\ columns_ok t (dedup_columns ∅ columns) = true
    /\ length vals = length (dedup_columns ∅ columns)
    /\ is_Some (proposed_id (dedup_columns ∅ columns)
                  (proposed_row (dedup_columns ∅ columns) vals))
    /\ d' = with_tables d
              (<[tn := {| t_columns := t_columns t;
                          t_rows := upsert_tuple now (dedup_columns ∅ columns)
                                      (t_rows t) vals |}]> (tables d)).
Proof.
  intros H. pose proof H as H0.
  apply upsert_rows_fold in H as [[? _]|(t & Ht & -> & HF)]; [done|].
  exists t. split; [done|].
  unfold upsert_rows in H0. rewrite Ht in H0. cbn [mbind option_bind] in H0.
  destruct (run_pages now (dedup_columns ∅ columns)
              (columns_ok t (dedup_columns ∅ columns)) (t_rows t)
              (pages (length [vals]) [vals])) as [rows1|] eqn:E; [|done].
  apply run_pages_lengths in E as [HL Hok]; [|done].
  rewrite Forall_singleton in HL. rewrite Forall_singleton in HF.
  split; [by apply Hok|]. split; [exact HL|]. split; [exact HF|]. reflexivity.
Qed.

Lemma lookup_zip_fmap (f : string -> pyval) co c :
  (list_to_map (zip co (f <$> co)) : gmap string pyval) !! c
  = if decide (c ∈ co) then Some (f c) else None.
Proof.
  induction co as [|c0 co IH]; [done|].
  rewrite fmap_cons.
  change (zip (c0 :: co) (f c0 :: (f <$> co)))
    with ((c0, f c0) :: zip co (f <$> co)).
  rewrite list_to_map_cons.
  destruct (decide (c0 = c)) as [->|Hne].
  - rewrite lookup_insert_eq. rewrite decide_True; [done|apply list_elem_of_here].
  - rewrite lookup_insert_ne by done. rewrite IH.
    destruct (decide (c ∈ co)) as [Hin|Hout].
    + rewrite decide_True; [done|by apply list_elem_of_further].
    + rewrite decide_False; [done|]. intros [?|?]%elem_of_cons; done.
Qed.

Lemma lookup_proposed_row co (r : row) c :
  proposed_row co (row_values co r) !! c
  = if decide (c ∈ co) then Some (default PNone (r !! c)) else None.
Proof. unfold proposed_row, row_values. apply lookup_zip_fmap. Qed.

Lemma elem_of_insert_sorted x l c :
  c ∈ insert_sorted x l <-> c = x \/ c ∈ l.
Proof.
  induction l as [|y l IH]; simpl.
  { rewrite list_elem_of_singleton. split; [auto|].
    intros [?|?%elem_of_nil]; done. }
  destruct (String.compare x y) eqn:E.
  - apply String.compare_eq_iff in E as ->. split; [auto|].
    intros [->|?]; [apply list_elem_of_here|done].
  - apply elem_of_cons.
  - rewrite !elem_of_cons, IH. tauto.
Qed.

Lemma elem_of_sorted_set l c : c ∈ sorted_set l <-> c ∈ l.
Proof.
  unfold sorted_set. induction l as [|x l IH]; simpl; [done|].
  rewrite elem_of_insert_sorted, IH, elem_of_cons. tauto.
Qed.

Lemma fill_row_keeps style colmap it (r : gmap string pyval) c :
  (forall m, m ∈ colmap -> mf_column_name m <> c) ->
  fill_row style colmap it r !! c = r !! c.
Proof.
  unfold fill_row. revert r.
  induction colmap as [|m colmap IH]; intros r Hno; [done|].
  simpl foldl. rewrite IH.
  - destruct (field_value style it (mf_b24_field m)); try done;
      (rewrite lookup_insert_ne; [done|]; apply Hno, list_elem_of_here).
  - intros m' Hm'. by apply Hno, list_elem_of_further.
Qed.

(** X18: when [_upsert_single_item] returns [True], the record is in the
    table of its entity: the id read from the item ([ID], else [id]) is
    an integer other than 0, a row with that id is stored, and every
    stored row with that id holds the item in its [raw] column. *)
Theorem upsert_single_item_stores (now : Z) (d d' : db) (ek : string)
        (it : item) :
  _upsert_single_item now d ek (PDict it) = Upserted d' true ->
  exists tn t' z,
    table_name_for_entity ek = Some tn
    /\ tables d' !! tn = Some t'
    /\ _extract_int (if dict_has it "ID" then get_or_none it "ID"
                     else get_or_none it "id") = Some z
    /\ z <> 0
    /\ z ∈ stored_ids (t_rows t')
    /\ forall r : row, r ∈ t_rows t' -> row_id r = Some z ->
                       r !! "raw" = Some (PJson (PDict it)).
Proof.
  unfold _upsert_single_item. intros H.
  destruct (table_name_for_entity ek) as [tn|]; [|done].
  destruct (tables d !! tn) as [t|] eqn:Ht; [|done].
  destruct (load_entity_colmap d ek) as [|m0 cm] eqn:Ecm; [done|].
  rewrite <- Ecm in H. set (colmap := load_entity_colmap d ek) in *.
  destruct (_extract_int _) as [z|] eqn:Ez; [|done].
  destruct (z =? 0) eqn:Ez0; [done|]. apply Z.eqb_neq in Ez0.
  set (co := if decide ("updated_at" ∈ col_order_of colmap)
             then col_order_of colmap
             else (col_order_of colmap ++ ["updated_at"])%list) in *.
  set (r := fill_row WebhookLookup colmap it _) in *.
  destruct (upsert_rows now d tn co [row_values co r]) as [d1|] eqn:Hup; [|done].
  injection H as <-.
  apply upsert_rows_one in Hup as (t0 & Ht0 & Hok & Hlen & Hsome & ->).
  rewrite Ht in Ht0. injection Ht0 as <-.
  unfold row_values in Hlen. rewrite length_fmap in Hlen. symmetry in Hlen.
  apply dedup_columns_full in Hlen as (Hdd & Hnd & _).
  rewrite Hdd in *.
  assert (Hco : exists tail, co = "id" :: "raw" :: tail
                /\ forall m, m ∈ colmap -> mf_column_name m ∈ tail).
  { subst co. unfold col_order_of. destruct (decide _).
    - eexists. split; [done|]. intros m Hm.
      apply elem_of_sorted_set. by apply list_elem_of_fmap_2.
    - eexists. split; [done|]. intros m Hm. apply elem_of_app. left.
      apply elem_of_sorted_set. by apply list_elem_of_fmap_2. }
  destruct Hco as (tail & Hco & Htail).
  assert (Hid_in : "id" ∈ co) by (rewrite Hco; apply list_elem_of_here).
  assert (Hraw_in : "raw" ∈ co)
    by (rewrite Hco; apply list_elem_of_further, list_elem_of_here).
  rewrite Hco in Hnd. apply NoDup_cons in Hnd as [Hid_out Hnd].
  apply NoDup_cons in Hnd as [Hraw_out _].
  assert (Hno_id : forall m, m ∈ colmap -> mf_column_name m <> "id").
  { intros m Hm Heq. apply Hid_out. apply list_elem_of_further.
    rewrite <- Heq. by apply Htail. }
  assert (Hno_raw : forall m, m ∈ colmap -> mf_column_name m <> "raw").
  { intros m Hm Heq. apply Hraw_out. rewrite <- Heq. by apply Htail. }
  assert (Hrid : r !! "id" = Some (PInt z)).
  { subst r. rewrite fill_row_keeps by done.
    rewrite lookup_insert_ne by done. rewrite lookup_insert_ne by done.
    by rewrite lookup_insert_eq. }
  assert (Hrraw : r !! "raw" = Some (PJson (PDict it))).
  { subst r. rewrite fill_row_keeps by done.
    rewrite lookup_insert_ne by done. by rewrite lookup_insert_eq. }
  assert (Htid : tuple_id co (row_values co r) = Some z).
  { unfold tuple_id, proposed_id. rewrite decide_True by done.
    rewrite lookup_proposed_row, decide_True by done. by rewrite Hrid. }
  exists tn. eexists. exists z. split; [done|].
  unfold with_tables. simpl. rewrite lookup_insert_eq.
  split; [done|]. split; [done|]. split; [done|]. simpl.
  destruct (upsert_tuple_ids now co (t_rows t) (row_values co r) Hsome)
    as (_ & _ & Hstored).
  split; [by apply Hstored|].
  intros r' Hin Hid'.
  rewrite (upsert_tuple_writes now co (t_rows t) (row_values co r) z r' Htid Hin Hid' "raw").
  - rewrite lookup_proposed_row, decide_True by done. by rewrite Hrraw.
  - apply set_cols_spec. done.
Qed.

End single_item_facts.

Lemma upsert_single_item_stores_witness :
  match Webhook._upsert_single_item (B := Demo.builtins) 100 Demo.fresh_db
          "contact" (Py.PDict Demo.lia_item) with
  | Webhook.Upserted d' true =>
      exists t', Db.tables d' !! "b24_crm_contact" = Some t'
                 /\ 9 ∈ Invariant.stored_ids (Db.t_rows t')
  | _ => False
  end.
Proof.
  destruct (Webhook._upsert_single_item (B := Demo.builtins) 100 Demo.fresh_db
              "contact" (Py.PDict Demo.lia_item)) as [d' [|]|] eqn:E;
    [|vm_compute in E; discriminate..].
  destruct (upsert_single_item_stores (B := Demo.builtins) 100 Demo.fresh_db d'
              "contact" Demo.lia_item E)
    as (tn & t' & z & Htn & Ht' & Hz & _ & Hin & _).
  vm_compute in Htn. injection Htn as <-.
  vm_compute in Hz. injection Hz as <-.
  exists t'. split; [exact Ht'|exact Hin].
Defined.

(** ** Schema sync of one entity *)

Section schema_facts.
Import PyStr Py Db Naming Upsert Mapping Schema Invariant.

Lemma columns_of_meta_rows ek colmap : forall fields rows cols,
  meta_rows ek fields colmap = Some rows ->
  typed_columns fields colmap = Some cols ->
  mf_column_name <$> rows = cols.*1
  /\ Forall (fun m => mf_entity_key m = ek) rows
  /\ mf_b24_field <$> rows = fields.*1.
Proof.
  induction fields as [|[f def] fields IH]; intros rows cols; simpl.
  { intros [= <-] [= <-]. done. }
  destruct (colmap_get colmap f) as [c|]; [|done]. simpl.
  destruct (meta_rows ek fields colmap) as [tl|]; [|done].
  destruct (typed_columns fields colmap) as [ctl|]; [|done]. simpl.
  intros [= <-] [= <-]. destruct (IH tl ctl eq_refl eq_refl) as (H1 & H2 & H3).
  rewrite !fmap_cons. cbn [fst mf_column_name mf_b24_field].
  rewrite H1, H3. split; [done|]. split; [|done]. by constructor.
Qed.

Lemma elem_of_upsert_meta_row l m x :
  x ∈ upsert_meta_row l m -> x ∈ l \/ x = m.
Proof.
  unfold upsert_meta_row. destruct (existsb (same_field m) l).
  - intros (r & -> & Hr)%list_elem_of_fmap.
    destruct (same_field m r); [by right|by left].
  - intros [?|?%list_elem_of_singleton]%elem_of_app; auto.
Qed.

Lemma elem_of_upsert_meta_rows rows : forall l x,
  x ∈ foldl upsert_meta_row l rows -> x ∈ l \/ x ∈ rows.
Proof.
  induction rows as [|m rows IH]; intros l x; simpl; [by left|].
  intros [Hx|Hx]%IH.
  - apply elem_of_upsert_meta_row in Hx as [?|Heq]; [by left|].
    subst x. right. apply list_elem_of_here.
  - right. by apply list_elem_of_further.
Qed.

Lemma columns_ok_spec t co :
  columns_ok t co = true <-> forall c, c ∈ co -> c ∈ t_columns t.
Proof.
  unfold columns_ok. rewrite forallb_forall. split.
  - intros H c Hc. apply list_elem_of_In in Hc.
    specialize (H c Hc). by apply bool_decide_eq_true in H.
  - intros H c Hc. apply bool_decide_eq_true_2, H. by apply list_elem_of_In.
Qed.

Lemma same_field_spec a b : same_field a b = true <-> field_key a = field_key b.
Proof.
  unfold same_field, field_key. rewrite andb_true_iff, !String.eqb_eq.
  split; [intros [-> ->]; done|intros [= -> ->]; done].
Qed.

Lemma existsb_same_field m l :
  existsb (same_field m) l = true <-> field_key m ∈ field_key <$> l.
Proof.
  rewrite existsb_exists, list_elem_of_fmap. split.
  - intros (r & Hr%list_elem_of_In & Hs%same_field_spec). by exists r.
  - intros (r & Hk & Hr). exists r. split; [by apply list_elem_of_In|].
    by apply same_field_spec.
Qed.

Lemma upsert_meta_row_keys l m :
  field_key <$> upsert_meta_row l m
  = if existsb (same_field m) l then field_key <$> l
    else ((field_key <$> l) ++ [field_key m])%list.
Proof.
  unfold upsert_meta_row. destruct (existsb (same_field m) l).
  - rewrite <- list_fmap_compose. apply list_fmap_ext. intros _ r _. simpl.
    destruct (same_field m r) eqn:E; [|done]. by apply same_field_spec in E.
  - by rewrite fmap_app.
Qed.

Lemma upsert_meta_rows_unique rows : forall l,
  NoDup (field_key <$> l) -> NoDup (field_key <$> foldl upsert_meta_row l rows).
Proof.
  induction rows as [|m rows IH]; intros l Hnd; [done|]. simpl. apply IH.
  rewrite upsert_meta_row_keys. destruct (existsb (same_field m) l) eqn:E; [done|].
  apply NoDup_app. split; [done|]. split; [|apply NoDup_singleton].
  intros k Hk ->%list_elem_of_singleton.
  apply existsb_same_field in Hk. congruence.
Qed.

(** What the block does to the store, when it succeeds. *)
Lemma sync_schema_entity_shape d ek fields d' :
  sync_schema_entity d ek fields = Some d' ->
  exists colmap tn cols rows,
    build_colmap fields.*1 = Some colmap
    /\ table_name_for_entity ek = Some tn
    /\ typed_columns fields colmap = Some cols
    /\ meta_rows ek fields colmap = Some rows
    /\ meta_fields d' = foldl upsert_meta_row (meta_fields d) rows
    /\ sync_state d' = sync_state d
    /\ queue d' = queue d /\ queue_seq d' = queue_seq d
    /\ (forall tn', tn' <> tn -> tables d' !! tn' = tables d !! tn')
    /\ tables d' !! tn
       = Some {| t_columns :=
                   list_to_set cols.*1
                   ∪ match tables d !! tn with
                     | Some t => t_columns t
                     | None => base_columns
                     end;
                 t_rows := match tables d !! tn with
                           | Some t => t_rows t
                           | None => []
                           end |}.
Proof.
  unfold sync_schema_entity. intros H.
  destruct (build_colmap fields.*1) as [colmap|] eqn:Ecm;
    cbn [mbind option_bind] in H; [|done].
  destruct (table_name_for_entity ek) as [tn|] eqn:Etn;
    cbn [mbind option_bind] in H; [|done].
  destruct (typed_columns fields colmap) as [cols|] eqn:Ec;
    cbn [mbind option_bind] in H; [|done].
  destruct (ensure_columns (ensure_table_base d tn) tn cols) as [d2|] eqn:E2;
    cbn [mbind option_bind] in H; [|done].
  unfold upsert_meta_fields in H.
  destruct (meta_rows ek fields colmap) as [rows|] eqn:Er;
    cbn [mbind option_bind] in H; [|done].
  injection H as <-. cbn [meta_fields sync_state tables queue queue_seq].
  exists colmap, tn, cols, rows. do 4 (split; [done|]).
  assert (Hbase : meta_fields (ensure_table_base d tn) = meta_fields d
                  /\ sync_state (ensure_table_base d tn) = sync_state d
                  /\ queue (ensure_table_base d tn) = queue d
                  /\ queue_seq (ensure_table_base d tn) = queue_seq d
                  /\ (forall tn', tn' <> tn ->
                        tables (ensure_table_base d tn) !! tn' = tables d !! tn')
                  /\ tables (ensure_table_base d tn) !! tn
                     = Some {| t_columns := match tables d !! tn with
                                            | Some t => t_columns t
                                            | None => base_columns
                                            end;
                               t_rows := match tables d !! tn with
                                         | Some t => t_rows t
                                         | None => []
                                         end |}).
  { unfold ensure_table_base. destruct (tables d !! tn) as [t|] eqn:Ht.
    - repeat (split; [done|]). rewrite Ht. by destruct t.
    - unfold with_tables. cbn [meta_fields sync_state tables queue queue_seq].
      repeat (split; [done|]).
      split; [intros tn' Hne; by rewrite lookup_insert_ne|].
      by rewrite lookup_insert_eq. }
  destruct Hbase as (Hm1 & Hs1 & Hq1 & Hn1 & Ho1 & Ht1).
  unfold ensure_columns in E2. destruct cols as [|c0 cols'].
  - injection E2 as <-. rewrite Hm1, Hs1, Hq1, Hn1. repeat (split; [done|]).
    rewrite Ht1. f_equal. f_equal.
    change (list_to_set ([] : list (string * string)).*1) with (∅ : gset string).
    by rewrite (left_id_L ∅ (∪)).
  - rewrite Ht1 in E2. cbn [mbind option_bind] in E2.
    injection E2 as <-. unfold with_tables.
    cbn [meta_fields sync_state tables queue queue_seq t_columns t_rows].
    rewrite Hm1, Hs1, Hq1, Hn1. repeat (split; [done|]).
    split; [intros tn' Hne; rewrite lookup_insert_ne by done; by apply Ho1|].
    by rewrite lookup_insert_eq.
Qed.

Lemma colmap_get_some colmap f : f ∈ colmap.*1 -> is_Some (colmap_get colmap f).
Proof.
  induction colmap as [|[k c] colmap IH]; [by intros ?%elem_of_nil|].
  simpl. destruct (String.eqb k f) eqn:E; [by eexists|].
  intros [Hf|Hf]%elem_of_cons; [|by apply IH].
  apply String.eqb_neq in E. congruence.
Qed.

Lemma typed_columns_total colmap : forall fields,
  (forall f, f ∈ fields.*1 -> f ∈ colmap.*1) ->
  is_Some (typed_columns fields colmap).
Proof.
  induction fields as [|[f def] fields IH]; intros Hsub; [by eexists|].
  simpl. destruct (colmap_get_some colmap f) as [c ->].
  { apply Hsub. rewrite fmap_cons. apply list_elem_of_here. }
  simpl. destruct IH as [tl ->]; [|by eexists].
  intros f' Hf'. apply Hsub. rewrite fmap_cons. by apply list_elem_of_further.
Qed.

Lemma meta_rows_total ek colmap : forall fields,
  (forall f, f ∈ fields.*1 -> f ∈ colmap.*1) ->
  is_Some (meta_rows ek fields colmap).
Proof.
  induction fields as [|[f def] fields IH]; intros Hsub; [by eexists|].
  simpl. destruct (colmap_get_some colmap f) as [c ->].
  { apply Hsub. rewrite fmap_cons. apply list_elem_of_here. }
  simpl. destruct IH as [tl ->]; [|by eexists].
  intros f' Hf'. apply Hsub. rewrite fmap_cons. by apply list_elem_of_further.
Qed.

Lemma table_name_for_entity_some ek : is_Some (table_name_for_entity ek).
Proof.
  unfold table_name_for_entity.
  destruct (String.eqb ek "deal"); [by eexists|].
  destruct (String.eqb ek "contact"); [by eexists|].
  destruct (String.eqb ek "lead"); [by eexists|].
  destruct (is_prefix "sp:" ek).
  - destruct (sanitize_ident_safe (str_skip 3 ek) 20) as (s & -> & _); [lia|].
    by eexists.
  - destruct (sanitize_ident_safe ek DEFAULT_MAX_LEN) as (s & -> & _);
      [unfold DEFAULT_MAX_LEN; lia|].
    by eexists.
Qed.

(** From the fetched metadata on, the block raises nothing. *)
Lemma sync_schema_entity_total d ek fields :
  is_Some (sync_schema_entity d ek fields).
Proof.
  unfold sync_schema_entity, build_colmap.
  destruct (assign_columns_spec fields.*1 base_columns)
    as (colmap & -> & Hfst & _).
  cbn [mbind option_bind].
  destruct (table_name_for_entity_some ek) as [tn ->]. cbn [mbind option_bind].
  destruct (typed_columns_total colmap fields) as [cols Hc];
    [intros f Hf; by rewrite Hfst|].
  rewrite Hc. cbn [mbind option_bind].
  assert (is_Some (ensure_columns (ensure_table_base d tn) tn cols)) as [d2 ->].
  { unfold ensure_columns. destruct cols; [by eexists|].
    assert (is_Some (tables (ensure_table_base d tn) !! tn)) as [t ->];
      [|by eexists].
    unfold ensure_table_base. destruct (tables d !! tn) eqn:Ht.
    - rewrite Ht. by eexists.
    - unfold with_tables. simpl. rewrite lookup_insert_eq. by eexists. }
  cbn [mbind option_bind]. unfold upsert_meta_fields.
  destruct (meta_rows_total ek colmap fields) as [rows ->];
    [intros f Hf; by rewrite Hfst|].
  by eexists.
Qed.

(** X19: schema sync makes the entity ready for the data sync.  Starting
    from a store where the entity's schema is in place, or where nothing
    of the entity exists yet, the schema block succeeds, whatever fields
    the remote side reports (the type of a field being a text, or
    absent), and leaves the entity's table with the
    columns [id] and [raw] and with every column named by a field row of
    the entity, the rows of fields that are no longer reported included:
    every column the data sync lists exists. *)
Theorem sync_schema_entity_ready (d : db) (ek : string)
        (fields : list (string * field_def)) :
  schema_ok d ek \/ schema_absent d ek ->
  exists d',
    sync_schema_entity d ek fields = Some d' /\ schema_ok d' ek.
Proof.
  intros Hbefore.
  destruct (sync_schema_entity_total d ek fields) as [d' H].
  exists d'. split; [exact H|].
  apply sync_schema_entity_shape in H
    as (colmap & tn & cols & rows & _ & Htn & Hc & Hr & Hm & _ & _ & _ & _ & Ht').
  destruct (columns_of_meta_rows ek colmap fields rows cols Hr Hc)
    as (Hcols & _ & _).
  exists tn. eexists. split; [done|]. split; [exact Ht'|].
  apply columns_ok_spec. simpl. intros c Hc'.
  assert (Hold : c = "id" \/ c = "raw"
                 \/ (exists m, m ∈ load_entity_colmap d ek /\ mf_column_name m = c)
                 \/ c ∈ cols.*1).
  { unfold col_order_of in Hc'.
    apply elem_of_cons in Hc' as [->|Hc']; [by left|].
    apply elem_of_cons in Hc' as [->|Hc']; [by right; left|].
    right. right. rewrite elem_of_sorted_set in Hc'.
    apply list_elem_of_fmap in Hc' as (m & -> & Hm').
    unfold load_entity_colmap in Hm'. apply list_elem_of_filter in Hm' as [Hek Hm'].
    rewrite Hm in Hm'. apply elem_of_upsert_meta_rows in Hm' as [Hm'|Hm'].
    - left. exists m. split; [|done]. unfold load_entity_colmap.
      by apply list_elem_of_filter.
    - right. rewrite <- Hcols. by apply list_elem_of_fmap_2. }
  apply elem_of_union.
  destruct Hbefore as [(tn0 & t & Htn0 & Ht & Hok)|(tn0 & Htn0 & Ht & Hnone)];
    rewrite Htn in Htn0; injection Htn0 as <-; rewrite Ht.
  - rewrite columns_ok_spec in Hok. unfold col_order_of in Hok.
    destruct Hold as [->|[->|[(m & Hm' & <-)|Hnew]]].
    + right. apply Hok, list_elem_of_here.
    + right. apply Hok, list_elem_of_further, list_elem_of_here.
    + right. apply Hok. do 2 apply list_elem_of_further.
      rewrite elem_of_sorted_set. by apply list_elem_of_fmap_2.
    + left. by apply elem_of_list_to_set.
  - destruct Hold as [->|[->|[(m & Hm' & <-)|Hnew]]].
    + right. unfold base_columns. rewrite !elem_of_union, !elem_of_singleton. tauto.
    + right. unfold base_columns. rewrite !elem_of_union, !elem_of_singleton. tauto.
    + rewrite Hnone in Hm'. by apply elem_of_nil in Hm'.
    + left. by apply elem_of_list_to_set.
Qed.

(** X20: the schema block only ever adds.  Every table keeps its rows
    and its columns (the entity's table may gain columns), every field
    row of another entity is kept as it is, no field row is removed, and
    the cursors and the webhook queue are not touched. *)
Theorem sync_schema_entity_additive (d d' : db) (ek : string)
        (fields : list (string * field_def)) :
  sync_schema_entity d ek fields = Some d' ->
  (forall tn t, tables d !! tn = Some t ->
     exists t', tables d' !! tn = Some t'
                /\ t_columns t ⊆ t_columns t' /\ t_rows t' = t_rows t)
  /\ (forall m, m ∈ meta_fields d -> mf_entity_key m <> ek -> m ∈ meta_fields d')
  /\ (length (meta_fields d) <= length (meta_fields d'))%nat
  /\ (meta_unique d -> meta_unique d')
  /\ sync_state d' = sync_state d
  /\ queue d' = queue d.
Proof.
  intros H.
  apply sync_schema_entity_shape in H
    as (colmap & tn & cols & rows & _ & Htn & Hc & Hr & Hm & Hs & Hq & _ & Ho & Ht').
  destruct (columns_of_meta_rows ek colmap fields rows cols Hr Hc)
    as (_ & Hek & _).
  split; [|split; [|split; [|split; [|done]]]]; cycle 3.
  { unfold meta_unique. rewrite Hm. apply upsert_meta_rows_unique. }
  - intros tn0 t Ht. destruct (decide (tn0 = tn)) as [->|Hne].
    + rewrite Ht in Ht'. eexists. split; [exact Ht'|]. simpl.
      split; [|done]. apply union_subseteq_r.
    + exists t. by rewrite Ho.
  - rewrite Hm. clear Hm Hr Hc. revert Hek. generalize (meta_fields d).
    induction rows as [|r rows IH]; intros l Hek m Hin Hne; [done|].
    apply Forall_cons in Hek as [Hr Hek]. simpl. apply IH; [done| |done].
    unfold upsert_meta_row. destruct (existsb (same_field r) l).
    + apply list_elem_of_fmap. exists m. split; [|done].
      unfold same_field. rewrite Hr.
      destruct (String.eqb ek (mf_entity_key m)) eqn:E; [|done].
      apply String.eqb_eq in E. congruence.
    + apply elem_of_app. by left.
  - rewrite Hm. clear. generalize (meta_fields d).
    induction rows as [|r rows IH]; intros l; [done|]. simpl.
    etrans; [|apply IH]. unfold upsert_meta_row.
    destruct (existsb (same_field r) l).
    + by rewrite length_fmap.
    + rewrite length_app. simpl. lia.
Qed.


(** A row is settled in a list: the list has a row with its key, and
    every row with that key is the row itself. *)
Lemma upsert_meta_row_settled l m :
  field_key m ∈ field_key <$> l ->
  (forall r, r ∈ l -> field_key r = field_key m -> r = m) ->
  upsert_meta_row l m = l.
Proof.
  intros Hin Hall. unfold upsert_meta_row.
  apply existsb_same_field in Hin. rewrite Hin.
  rewrite <- (list_fmap_id l) at 2. apply list_fmap_ext. intros i r Hr. simpl.
  destruct (same_field m r) eqn:E; [|done]. apply same_field_spec in E.
  symmetry. apply Hall; [by eapply list_elem_of_lookup_2|done].
Qed.

Lemma upsert_meta_row_settles l m :
  field_key m ∈ field_key <$> upsert_meta_row l m
  /\ forall r, r ∈ upsert_meta_row l m -> field_key r = field_key m -> r = m.
Proof.
  split.
  - rewrite upsert_meta_row_keys. destruct (existsb (same_field m) l) eqn:E.
    + by apply existsb_same_field.
    + apply elem_of_app. right. by apply list_elem_of_singleton.
  - unfold upsert_meta_row. destruct (existsb (same_field m) l) eqn:E.
    + intros r (r0 & -> & Hr0)%list_elem_of_fmap.
      destruct (same_field m r0) eqn:E0; [done|].
      intros Hk. symmetry in Hk. apply same_field_spec in Hk. congruence.
    + intros r [Hr|Hr%list_elem_of_singleton]%elem_of_app Hk; [|done].
      exfalso. assert (existsb (same_field m) l = true); [|congruence].
      apply existsb_same_field. rewrite <- Hk. by apply list_elem_of_fmap_2.
Qed.

Lemma upsert_meta_row_other l m m' :
  field_key m' <> field_key m ->
  field_key m ∈ field_key <$> l ->
  (forall r, r ∈ l -> field_key r = field_key m -> r = m) ->
  field_key m ∈ field_key <$> upsert_meta_row l m'
  /\ forall r, r ∈ upsert_meta_row l m' -> field_key r = field_key m -> r = m.
Proof.
  intros Hne Hin Hall. split.
  - rewrite upsert_meta_row_keys. destruct (existsb (same_field m') l); [done|].
    apply elem_of_app. by left.
  - unfold upsert_meta_row. destruct (existsb (same_field m') l).
    + intros r (r0 & -> & Hr0)%list_elem_of_fmap.
      destruct (same_field m' r0) eqn:E0; [done|]. by apply Hall.
    + intros r [Hr|Hr%list_elem_of_singleton]%elem_of_app Hk; [by apply Hall|].
      subst r. done.
Qed.

Lemma upsert_meta_rows_settle rows : forall l m,
  NoDup (field_key <$> rows) -> m ∈ rows ->
  field_key m ∈ field_key <$> foldl upsert_meta_row l rows
  /\ forall r, r ∈ foldl upsert_meta_row l rows ->
               field_key r = field_key m -> r = m.
Proof.
  assert (Hkeep : forall rest l m,
            (forall m', m' ∈ rest -> field_key m' <> field_key m) ->
            field_key m ∈ field_key <$> l ->
            (forall r, r ∈ l -> field_key r = field_key m -> r = m) ->
            field_key m ∈ field_key <$> foldl upsert_meta_row l rest
            /\ forall r, r ∈ foldl upsert_meta_row l rest ->
                         field_key r = field_key m -> r = m).
  { induction rest as [|m' rest IH]; intros l m Hne Hin Hall; [done|].
    simpl.
    destruct (upsert_meta_row_other l m m') as [H1 H2]; [|done|done|].
    - apply Hne, list_elem_of_here.
    - apply IH; [|done|done]. intros m'' Hm''. by apply Hne, list_elem_of_further. }
  induction rows as [|m0 rows IH]; intros l m Hnd Hm;
    [by apply elem_of_nil in Hm|].
  rewrite fmap_cons in Hnd. apply NoDup_cons in Hnd as [Hni Hnd]. simpl.
  apply elem_of_cons in Hm as [->|Hm]; [|by apply IH].
  destruct (upsert_meta_row_settles l m0) as [H1 H2].
  apply Hkeep; [|done|done].
  intros m' Hm' Hk. apply Hni. rewrite <- Hk. by apply list_elem_of_fmap_2.
Qed.

Lemma upsert_meta_rows_again rows : forall l,
  (forall m, m ∈ rows ->
     field_key m ∈ field_key <$> l
     /\ forall r, r ∈ l -> field_key r = field_key m -> r = m) ->
  foldl upsert_meta_row l rows = l.
Proof.
  induction rows as [|m rows IH]; intros l Hall; [done|]. simpl.
  destruct (Hall m (list_elem_of_here _ _)) as [H1 H2].
  rewrite upsert_meta_row_settled by done. apply IH.
  intros m' Hm'. by apply Hall, list_elem_of_further.
Qed.

(** X21: the schema block is idempotent: run again on the store it has
    produced, with the same field metadata, it succeeds and leaves that
    store as it is (the time stamps of the field rows apart, which the
    store does not record). *)
Theorem sync_schema_entity_idempotent (d d' : db) (ek : string)
        (fields : list (string * field_def)) :
  NoDup fields.*1 ->
  sync_schema_entity d ek fields = Some d' ->
  sync_schema_entity d' ek fields = Some d'.
Proof.
  intros Hnd H.
  apply sync_schema_entity_shape in H
    as (colmap & tn & cols & rows & Hcm & Htn & Hc & Hr & Hm & Hs & Hq & Hn & Ho & Ht').
  destruct (columns_of_meta_rows ek colmap fields rows cols Hr Hc)
    as (_ & Hek & Hf).
  assert (Hkeys : NoDup (field_key <$> rows)).
  { apply (NoDup_fmap_1 snd). rewrite <- list_fmap_compose.
    rewrite (list_fmap_ext (snd ∘ field_key) mf_b24_field rows); [|done].
    by rewrite Hf. }
  unfold sync_schema_entity. rewrite Hcm, Htn. cbn [mbind option_bind].
  rewrite Hc. cbn [mbind option_bind].
  assert (ensure_table_base d' tn = d') as ->.
  { unfold ensure_table_base. by rewrite Ht'. }
  assert (ensure_columns d' tn cols = Some d') as ->.
  { unfold ensure_columns. destruct cols as [|c0 cols']; [done|].
    rewrite Ht'. cbn [mbind option_bind t_columns t_rows]. f_equal.
    rewrite (assoc_L (∪)), (union_idemp_L (list_to_set _)).
    rewrite insert_id by done. by destruct d'. }
  cbn [mbind option_bind]. unfold upsert_meta_fields. rewrite Hr.
  cbn [mbind option_bind]. f_equal.
  rewrite (upsert_meta_rows_again rows (meta_fields d')).
  - by destruct d'.
  - intros m Hin. rewrite Hm. by apply upsert_meta_rows_settle.
Qed.

End schema_facts.

Lemma sync_schema_entity_ready_witness :
  exists d',
    Schema.sync_schema_entity Demo.empty_db "contact" Demo.contact_fields = Some d'
    /\ Invariant.schema_ok d' "contact".
Proof.
  apply (sync_schema_entity_ready Demo.empty_db "contact" Demo.contact_fields).
  right. exists "b24_crm_contact". split; [reflexivity|]. split; reflexivity.
Defined.

Lemma sync_schema_entity_additive_witness :
  match Schema.sync_schema_entity Demo.fresh_db "contact" Demo.contact_fields with
  | Some d' =>
      exists t', Db.tables d' !! "b24_crm_contact" = Some t'
                 /\ Db.t_rows t' = Db.t_rows Demo.contact_table
  | None => False
  end.
Proof.
  destruct (Schema.sync_schema_entity Demo.fresh_db "contact" Demo.contact_fields)
    as [d'|] eqn:E; [|vm_compute in E; discriminate].
  destruct (sync_schema_entity_additive Demo.fresh_db d' "contact"
              Demo.contact_fields E) as (Ht & _).
  destruct (Ht "b24_crm_contact" Demo.contact_table eq_refl) as (t' & H1 & _ & H2).
  exists t'. split; [exact H1|exact H2].
Defined.

Lemma sync_schema_entity_idempotent_witness :
  match Schema.sync_schema_entity Demo.empty_db "contact" Demo.contact_fields with
  | Some d' =>
      Schema.sync_schema_entity d' "contact" Demo.contact_fields = Some d'
  | None => False
  end.
Proof.
  destruct (Schema.sync_schema_entity Demo.empty_db "contact" Demo.contact_fields)
    as [d'|] eqn:E; [|vm_compute in E; discriminate].
  apply (sync_schema_entity_idempotent Demo.empty_db d' "contact"
           Demo.contact_fields); [|exact E].
  vm_compute. repeat constructor; intros H; repeat (apply elem_of_cons in H as [H|H]; [discriminate|]); by apply elem_of_nil in H.
Defined.

(** ** Sync of deals: the cursor and the two passes *)

Section deal_facts.
Import PyStr Py Db Cursor Upsert Client Mapping Sync Deal Invariant.
Context {B : Builtins}.

Lemma get_cursor_frame d d' ek :
  sync_state d' = sync_state d -> get_sync_cursor d' ek = get_sync_cursor d ek.
Proof. unfold get_sync_cursor. by intros ->. Qed.

Lemma validate_cursor_stored d ek tn :
  get_sync_cursor (validate_sync_cursor d ek tn).1 ek
  = (validate_sync_cursor d ek tn).2.
Proof.
  unfold validate_sync_cursor.
  destruct (get_sync_cursor d ek =? 0) eqn:E0.
  { apply Z.eqb_eq in E0. done. }
  destruct (tables d !! tn) as [t|]; [|done].
  destruct (_ <? _); [|done]. apply get_after_reset.
Qed.

Lemma max_seen_of_ge : forall rows m m',
  max_seen_of rows m = Some m' -> m <= m'.
Proof.
  induction rows as [|r rows IH]; intros m m'; simpl; [intros [= <-]; lia|].
  destruct (head r) as [v|]; [|done]. simpl.
  destruct (truthy v); [|apply IH].
  destruct (py_int v) as [z|]; [|done]. simpl. intros H%IH.
  destruct (m <? z) eqn:E; [apply Z.ltb_lt in E|]; lia.
Qed.

Lemma guarded_upsert_frame now d tn co (rows : list (list pyval)) d1 :
  match rows with
  | [] => Some d
  | _ => upsert_rows now d tn co rows
  end = Some d1 ->
  sync_state d1 = sync_state d /\ meta_fields d1 = meta_fields d
  /\ queue d1 = queue d /\ queue_seq d1 = queue_seq d
  /\ (forall tn', tn' <> tn -> tables d1 !! tn' = tables d !! tn').
Proof.
  destruct rows; [by intros [= <-]|]. apply upsert_rows_frame.
Qed.

(** One turn of the forward loop: the cursor it leaves in the store is
    at least the [last_id] it started from, and is the [last_id] of the
    next turn when there is one. *)
Lemma forward_step_cursor tn colmap co has limit d last_id total now answer :
  get_sync_cursor d ENTITY_KEY = last_id ->
  match forward_step tn colmap co has limit d last_id total now answer with
  | Continue d' last_id' _ =>
      last_id <= last_id' /\ get_sync_cursor d' ENTITY_KEY = last_id'
  | Break d' _ => last_id <= get_sync_cursor d' ENTITY_KEY
  | Raised d' => get_sync_cursor d' ENTITY_KEY = last_id
  end.
Proof.
  intros Hc. unfold forward_step.
  destruct answer as [resp| |]; [|done|done].
  destruct (list_helper_answer resp ≫= normalize_list_result) as [[items nxt]|];
    [|done].
  destruct items as [|it items'].
  { rewrite get_after_set. destruct (0 <? last_id) eqn:E; [lia|].
    apply Z.ltb_ge in E. done. }
  set (items := it :: items').
  destruct (build_batch colmap co has items) as [batch|]; [|done].
  destruct (max_seen_of batch last_id) as [max_seen|] eqn:Em; [|done].
  apply max_seen_of_ge in Em.
  destruct (match batch with [] => Some d | _ => _ end) as [d1|] eqn:Eu; [|done].
  assert (last_id <= (if max_seen =? 0 then last_id else max_seen)) as Hle.
  { destruct (max_seen =? 0); lia. }
  destruct (negb (_is_unlimited limit) && _); [by rewrite get_after_set|].
  destruct (length items <? 50)%nat; by rewrite get_after_set.
Qed.

Lemma forward_pass_cursor tn colmap co has limit : forall remote d last_id total,
  get_sync_cursor d ENTITY_KEY = last_id ->
  let p := forward_pass tn colmap co has limit d last_id total remote in
  last_id <= get_sync_cursor (pass_db p) ENTITY_KEY
  /\ StronglySorted Z.le (by_id_starts (pass_requests p))
  /\ Forall (fun s => last_id <= s
                      /\ s <= get_sync_cursor (pass_db p) ENTITY_KEY)
            (by_id_starts (pass_requests p))
  /\ today_offsets (pass_requests p) = [].
Proof.
  induction remote as [|[now answer] rest IH]; intros d last_id total Hc; simpl.
  { split; [lia|]. split; [constructor|]. split; [constructor|done]. }
  pose proof (forward_step_cursor tn colmap co has limit d last_id total now
                answer Hc) as Hstep.
  destruct (forward_step tn colmap co has limit d last_id total now answer)
    as [d' last_id' total'|d' total'|d'].
  - destruct Hstep as [Hle Hc'].
    destruct (IH d' last_id' total' Hc') as (H1 & H2 & H3 & H4).
    destruct (forward_pass tn colmap co has limit d' last_id' total' rest)
      as [d2 n2 rest2 reqs|d2 reqs]; simpl in *.
    + split; [lia|]. split.
      * constructor; [done|]. eapply Forall_impl; [exact H3|].
        intros s [? _]. simpl. lia.
      * split; [|done]. constructor; [lia|].
        eapply Forall_impl; [exact H3|]. intros s [? ?]. simpl. lia.
    + split; [lia|]. split.
      * constructor; [done|]. eapply Forall_impl; [exact H3|].
        intros s [? _]. simpl. lia.
      * split; [|done]. constructor; [lia|].
        eapply Forall_impl; [exact H3|]. intros s [? ?]. simpl. lia.
  - simpl. split; [done|]. split; [repeat constructor|].
    split; [|done]. constructor; [lia|constructor].
  - simpl. split; [lia|]. split; [repeat constructor|].
    split; [|done]. constructor; [lia|constructor].
Qed.

Lemma today_pass_frame tn colmap co has max_pages :
  forall remote d page offset total,
    let p := today_pass tn colmap co has max_pages d page offset total remote in
    sync_state (pass_db p) = sync_state d
    /\ queue (pass_db p) = queue d
    /\ meta_fields (pass_db p) = meta_fields d
    /\ by_id_starts (pass_requests p) = []
    /\ (length (pass_requests p) <= Z.to_nat (max_pages - page))%nat
    /\ (length (pass_requests p) <= length remote)%nat
    /\ head (today_offsets (pass_requests p))
       = (if decide (pass_requests p = []) then None else Some offset).
Proof.
  induction remote as [|[now answer] rest IH]; intros d page offset total;
    cbv zeta; cbn [today_pass].
  { simpl. repeat split; try done; simpl; lia. }
  destruct (max_pages <=? page) eqn:Ep.
  { simpl. repeat split; try done; simpl; lia. }
  apply Z.leb_gt in Ep.
  assert (Hroom : (1 <= Z.to_nat (max_pages - page))%nat) by lia.
  assert (Hstop : forall d0 n rest0,
            d0 = d \/ (sync_state d0 = sync_state d /\ queue d0 = queue d
                       /\ meta_fields d0 = meta_fields d) ->
            let p := add_request (ModifiedToday offset) (PassDone d0 n rest0 []) in
            sync_state (pass_db p) = sync_state d
            /\ queue (pass_db p) = queue d
            /\ meta_fields (pass_db p) = meta_fields d
            /\ by_id_starts (pass_requests p) = []
            /\ (length (pass_requests p) <= Z.to_nat (max_pages - page))%nat
            /\ (length (pass_requests p) <= length ((now, answer) :: rest))%nat
            /\ head (today_offsets (pass_requests p))
               = (if decide (pass_requests p = []) then None else Some offset)).
  { intros d0 n rest0 Hd0. simpl.
    assert (sync_state d0 = sync_state d /\ queue d0 = queue d
            /\ meta_fields d0 = meta_fields d) as (? & ? & ?)
      by (destruct Hd0 as [->|?]; done).
    repeat split; try done; simpl; lia. }
  assert (Hfail : let p := add_request (ModifiedToday offset) (PassFailed d []) in
            sync_state (pass_db p) = sync_state d
            /\ queue (pass_db p) = queue d
            /\ meta_fields (pass_db p) = meta_fields d
            /\ by_id_starts (pass_requests p) = []
            /\ (length (pass_requests p) <= Z.to_nat (max_pages - page))%nat
            /\ (length (pass_requests p) <= length ((now, answer) :: rest))%nat
            /\ head (today_offsets (pass_requests p))
               = (if decide (pass_requests p = []) then None else Some offset)).
  { simpl. repeat split; try done; simpl; lia. }
  destruct answer as [resp| |]; [|exact Hfail|exact Hfail].
  destruct (list_helper_answer resp ≫= normalize_list_result) as [[items nxt]|];
    [|exact Hfail].
  destruct items as [|it items']; [exact (Hstop d total rest (or_introl eq_refl))|].
  destruct (build_batch colmap co has (it :: items')) as [batch|]; [|exact Hfail].
  destruct (match batch with [] => Some d | _ => _ end) as [d1|] eqn:Eu;
    [|exact Hfail].
  apply guarded_upsert_frame in Eu as (Hs & Hm & Hq & _ & _).
  destruct nxt as [n|];
    [|exact (Hstop d1 _ rest (or_intror (conj Hs (conj Hq Hm))))].
  destruct (IH d1 (page + 1) n (total + Z.of_nat (length batch)))
    as (H1 & H2 & H3 & H4 & H5 & H6 & _).
  destruct (today_pass tn colmap co has max_pages d1 (page + 1) n
              (total + Z.of_nat (length batch)) rest) as [d2 n2 r2 reqs|d2 reqs];
    simpl in *.
  - rewrite H1, H2, H3. repeat split; try done; simpl; lia.
  - rewrite H1, H2, H3. repeat split; try done; simpl; lia.
Qed.

(** X22: the deal cursor never moves back during a sync.  With [c0] the
    cursor [validate_sync_cursor] returns at the start, the cursor in the
    store after [sync_entity_data_deal] is at least [c0], whether the
    sync ends normally, runs out of time or raises; the [>ID] bounds of
    the requests of the forward pass start at [c0], never decrease, and
    none exceeds the final cursor. *)
Theorem deal_cursor_never_moves_back (limit max_pages : Z) (d : db)
        (remote : list (Z * call_outcome)) :
  let c0 := (validate_sync_cursor d ENTITY_KEY "b24_crm_deal").2 in
  let p := sync_entity_data_deal limit max_pages d remote in
  c0 <= get_sync_cursor (pass_db p) ENTITY_KEY
  /\ StronglySorted Z.le (by_id_starts (pass_requests p))
  /\ Forall (fun s => c0 <= s /\ s <= get_sync_cursor (pass_db p) ENTITY_KEY)
            (by_id_starts (pass_requests p))
  /\ head (by_id_starts (pass_requests p))
     = (if decide (by_id_starts (pass_requests p) = []) then None else Some c0).
Proof.
  cbv zeta. unfold sync_entity_data_deal.
  pose proof (validate_cursor_stored d ENTITY_KEY "b24_crm_deal") as Hv.
  destruct (tables d !! "b24_crm_deal") as [t|] eqn:Ht.
  2:{ simpl. assert ((validate_sync_cursor d ENTITY_KEY "b24_crm_deal") = (d, get_sync_cursor d ENTITY_KEY)) as ->.
      { unfold validate_sync_cursor. rewrite Ht.
        destruct (get_sync_cursor d ENTITY_KEY =? 0) eqn:E0; [|done].
        apply Z.eqb_eq in E0. by rewrite E0. }
      simpl. split; [lia|]. split; [constructor|]. split; [constructor|done]. }
  destruct (validate_sync_cursor d ENTITY_KEY "b24_crm_deal") as [d0 c0].
  simpl in Hv. cbn [snd].
  set (colmap := load_entity_colmap d ENTITY_KEY).
  set (co := deal_col_order colmap t). set (has := has_assigned_by_name_col t).
  destruct (forward_pass_cursor "b24_crm_deal" colmap co has limit remote d0 c0 0 Hv)
    as (H1 & H2 & H3 & H4).
  assert (Hhead : forall remote d last_id total,
            head (by_id_starts (pass_requests
                    (forward_pass "b24_crm_deal" colmap co has limit d last_id
                                  total remote)))
            = (if decide (by_id_starts (pass_requests
                            (forward_pass "b24_crm_deal" colmap co has limit d
                                          last_id total remote)) = [])
               then None else Some last_id)).
  { intros [|[now answer] rest] d' l' t'; [done|]. simpl.
    destruct (forward_step _ _ _ _ _ _ _ _ _ _) as [dn ln tn|dn tn|dn];
      [|simpl; first [done|by case_decide]..].
    destruct (forward_pass "b24_crm_deal" colmap co has limit dn ln tn rest);
      simpl; first [done|by case_decide]. }
  specialize (Hhead remote d0 c0 0).
  destruct (forward_pass "b24_crm_deal" colmap co has limit d0 c0 0 remote)
    as [d1 total rest reqs|d1 reqs]; simpl in *; [|done].
  destruct (today_pass_frame "b24_crm_deal" colmap co has max_pages rest d1 0 0 total)
    as (Hs & _ & _ & Hb & _).
  assert (Hids : forall reqs', by_id_starts reqs' = [] ->
                   by_id_starts (reqs ++ reqs') = by_id_starts reqs).
  { intros reqs' Hn. unfold by_id_starts in *. by rewrite omap_app, Hn, app_nil_r. }
  destruct (today_pass "b24_crm_deal" colmap co has max_pages d1 0 0 total rest)
    as [d2 n2 r2 reqs'|d2 reqs']; simpl in *;
    rewrite (Hids _ Hb), (get_cursor_frame d1 d2 _ Hs); done.
Qed.

(** X23: the today-pass never touches the cursor, the field metadata or
    the queue, sends no request by id, and sends at most
    [DEAL_TODAY_MAX_PAGES] requests (none when that bound is 0 or less),
    the first of them from offset 0; it only upserts rows. *)
Theorem today_pass_bounded (tn : string) (colmap : list meta_field)
        (co : list string) (has : bool) (max_pages : Z) (d : db) (total : Z)
        (remote : list (Z * call_outcome)) :
  let p := today_pass tn colmap co has max_pages d 0 0 total remote in
  sync_state (pass_db p) = sync_state d
  /\ queue (pass_db p) = queue d
  /\ meta_fields (pass_db p) = meta_fields d
  /\ by_id_starts (pass_requests p) = []
  /\ (length (pass_requests p) <= Z.to_nat max_pages)%nat
  /\ (length (pass_requests p) <= length remote)%nat
  /\ head (today_offsets (pass_requests p))
     = (if decide (pass_requests p = []) then None else Some 0).
Proof.
  cbv zeta.
  destruct (today_pass_frame tn colmap co has max_pages remote d 0 0 total)
    as (H1 & H2 & H3 & H4 & H5 & H6 & H7).
  rewrite Z.sub_0_r in H5. done.
Qed.

End deal_facts.

(** ** What a data sync changes, and what it leaves alone *)

Section sync_frame_facts.
Import PyStr Py Db Cursor Upsert Client Mapping Sync Deal Invariant.
Context {B : Builtins}.

Lemma sync_frame_refl ek tn d : sync_frame ek tn d d.
Proof.
  unfold sync_frame. repeat (split; [done|]). intros t Ht. by exists t.
Qed.

Lemma sync_frame_trans ek tn d1 d2 d3 :
  sync_frame ek tn d1 d2 -> sync_frame ek tn d2 d3 -> sync_frame ek tn d1 d3.
Proof.
  intros (A1 & A2 & A3 & A4 & A5 & A6 & A7) (B1 & B2 & B3 & B4 & B5 & B6 & B7).
  unfold sync_frame. rewrite B1, B2, B3. repeat (split; [done|]).
  split; [intros ek' Hne; by rewrite B4, A4|].
  split; [intros tn' Hne; by rewrite B5, A5|].
  split; [auto|].
  intros t Ht. destruct (A7 t Ht) as (t2 & Ht2 & Hc2 & Hp2 & Hu2).
  destruct (B7 t2 Ht2) as (t3 & Ht3 & Hc3 & Hp3 & Hu3).
  exists t3. split; [done|]. split; [congruence|]. split; [by etrans|auto].
Qed.

Lemma sync_frame_set_cursor ek tn d c : sync_frame ek tn d (set_sync_cursor d ek c).
Proof.
  unfold sync_frame, set_sync_cursor, with_sync_state. simpl.
  repeat (split; [done|]).
  split; [intros ek' Hne; by rewrite lookup_insert_ne|].
  repeat (split; [done|]). intros t Ht. by exists t.
Qed.

Lemma sync_frame_upsert ek tn now d co rows d' :
  upsert_rows now d tn co rows = Some d' -> sync_frame ek tn d d'.
Proof.
  intros H. pose proof (upsert_rows_frame _ _ _ _ _ _ H) as (F1 & F2 & F3 & F4 & F5).
  unfold sync_frame. rewrite F1. repeat (split; [done|]).
  apply upsert_rows_fold in H as [[-> ->]|(t & Ht & -> & HF)].
  { split; [done|]. intros t Ht. by exists t. }
  split; [by rewrite Ht|].
  intros t0 Ht0. rewrite Ht in Ht0. injection Ht0 as <-.
  unfold with_tables. simpl. rewrite lookup_insert_eq. eexists.
  split; [done|]. simpl. split; [done|].
  destruct (upsert_fold_ids now (dedup_columns ∅ co) rows (t_rows t) HF)
    as (Hp & Hu & _). done.
Qed.

Lemma sync_frame_validate ek tn d :
  sync_frame ek tn d (validate_sync_cursor d ek tn).1.
Proof.
  unfold validate_sync_cursor. destruct (_ =? 0); [apply sync_frame_refl|].
  destruct (tables d !! tn); [|apply sync_frame_refl].
  destruct (_ <? _); [apply sync_frame_set_cursor|apply sync_frame_refl].
Qed.

Lemma sync_step_frame e tn colmap co limit d last total now answer :
  sync_frame (entity_key_of e) tn d
    (step_db (sync_step e tn colmap co limit d last total now answer)).
Proof.
  unfold sync_step. destruct answer as [resp| |]; try apply sync_frame_refl.
  destruct (list_helper_answer resp ≫= normalize_list_result) as [[items nxt]|];
    [|apply sync_frame_refl].
  destruct items as [|it items']; [apply sync_frame_set_cursor|].
  destruct (build_rows e colmap co (it :: items')) as [rows|];
    [|apply sync_frame_refl].
  destruct (upsert_rows now d tn co rows) as [d1|] eqn:Eu;
    [|apply sync_frame_refl].
  apply (sync_frame_upsert (entity_key_of e)) in Eu.
  destruct nxt as [n|].
  - destruct (negb (_is_unlimited limit) && _); simpl;
      (eapply sync_frame_trans; [exact Eu|apply sync_frame_set_cursor]).
  - destruct (last_row_id rows) as [idv|]; simpl.
    + destruct (if truthy idv then py_int idv else Some last) as [c|]; simpl;
        [|done].
      eapply sync_frame_trans; [exact Eu|apply sync_frame_set_cursor].
    + eapply sync_frame_trans; [exact Eu|apply sync_frame_set_cursor].
Qed.

Lemma sync_loop_frame e tn colmap co limit : forall remote d last total,
  sync_frame (entity_key_of e) tn d
    (db_of (sync_loop e tn colmap co limit d last total remote)).
Proof.
  induction remote as [|[now answer] rest IH]; intros d last total; simpl;
    [apply sync_frame_refl|].
  pose proof (sync_step_frame e tn colmap co limit d last total now answer) as Hs.
  destruct (sync_step e tn colmap co limit d last total now answer)
    as [d' off' total'|d' total'|d']; simpl in *; try done.
  specialize (IH d' off' total').
  destruct (sync_loop e tn colmap co limit d' off' total' rest); simpl in *;
    by eapply sync_frame_trans.
Qed.

(** X24: a sync of contacts, leads or smart-process items changes the
    rows of the entity's table and the entity's cursor, and nothing
    else: the queue, the field metadata, the other tables and the other
    cursors are as before, whether the sync ends normally, runs out of
    time or raises.  In the entity's table no column is added or dropped
    and no stored id disappears, and ids that were pairwise distinct
    stay so. *)
Theorem sync_entity_data_frame (e : entity) (limit : Z) (d : db)
        (remote : list (Z * call_outcome)) (tn : string) :
  table_name_for_entity (entity_key_of e) = Some tn ->
  sync_frame (entity_key_of e) tn d (db_of (sync_entity_data e limit d remote)).
Proof.
  intros Htn. unfold sync_entity_data. rewrite Htn.
  destruct (tables d !! tn) as [t|]; [|apply sync_frame_refl].
  pose proof (sync_frame_validate (entity_key_of e) tn d) as Hv.
  destruct (validate_sync_cursor d (entity_key_of e) tn) as [d0 c0]. simpl in Hv.
  eapply sync_frame_trans; [exact Hv|apply sync_loop_frame].
Qed.

Lemma guarded_upsert_sync_frame ek tn now d co (rows : list (list pyval)) d1 :
  match rows with
  | [] => Some d
  | _ => upsert_rows now d tn co rows
  end = Some d1 ->
  sync_frame ek tn d d1.
Proof.
  destruct rows; [intros [= <-]; apply sync_frame_refl|].
  apply sync_frame_upsert.
Qed.

Lemma forward_pass_frame tn colmap co has limit : forall remote d last total,
  sync_frame ENTITY_KEY tn d
    (pass_db (forward_pass tn colmap co has limit d last total remote)).
Proof.
  induction remote as [|[now answer] rest IH]; intros d last total; simpl;
    [apply sync_frame_refl|].
  assert (Hs : sync_frame ENTITY_KEY tn d
                 (step_db (forward_step tn colmap co has limit d last total
                                        now answer))).
  { unfold forward_step. destruct answer as [resp| |]; try apply sync_frame_refl.
    destruct (list_helper_answer resp ≫= normalize_list_result)
      as [[items nxt]|]; [|apply sync_frame_refl].
    destruct items as [|it items']; [apply sync_frame_set_cursor|].
    destruct (build_batch colmap co has (it :: items')) as [batch|];
      [|apply sync_frame_refl].
    destruct (max_seen_of batch last) as [max_seen|]; [|apply sync_frame_refl].
    destruct (match batch with [] => Some d | _ => _ end) as [d1|] eqn:Eu;
      [|apply sync_frame_refl].
    apply (guarded_upsert_sync_frame ENTITY_KEY) in Eu. cbv zeta.
    destruct (negb (_is_unlimited limit) && _); cbn [step_db];
      [eapply sync_frame_trans; [exact Eu|apply sync_frame_set_cursor]|].
    destruct (length (it :: items') <? 50)%nat; cbn [step_db];
      (eapply sync_frame_trans; [exact Eu|apply sync_frame_set_cursor]). }
  destruct (forward_step tn colmap co has limit d last total now answer)
    as [d' last' total'|d' total'|d']; simpl in *; try done.
  specialize (IH d' last' total').
  destruct (forward_pass tn colmap co has limit d' last' total' rest); simpl in *;
    by eapply sync_frame_trans.
Qed.

Lemma today_pass_sync_frame tn colmap co has max_pages :
  forall remote d page offset total,
    sync_frame ENTITY_KEY tn d
      (pass_db (today_pass tn colmap co has max_pages d page offset total remote)).
Proof.
  induction remote as [|[now answer] rest IH]; intros d page offset total;
    cbn [today_pass]; [apply sync_frame_refl|].
  destruct (max_pages <=? page); [apply sync_frame_refl|].
  destruct answer as [resp| |]; try apply sync_frame_refl.
  destruct (list_helper_answer resp ≫= normalize_list_result) as [[items nxt]|];
    [|apply sync_frame_refl].
  destruct items as [|it items']; [apply sync_frame_refl|].
  destruct (build_batch colmap co has (it :: items')) as [batch|];
    [|apply sync_frame_refl].
  destruct (match batch with [] => Some d | _ => _ end) as [d1|] eqn:Eu;
    [|apply sync_frame_refl].
  apply (guarded_upsert_sync_frame ENTITY_KEY) in Eu.
  destruct nxt as [n|]; [|exact Eu].
  specialize (IH d1 (page + 1) n (total + Z.of_nat (length batch))).
  destruct (today_pass tn colmap co has max_pages d1 (page + 1) n
              (total + Z.of_nat (length batch)) rest); simpl in *;
    by eapply sync_frame_trans.
Qed.

(** X25: the same for deals: [sync_entity_data_deal], with its forward
    pass and its today-pass, changes the rows of [b24_crm_deal] and the
    deal cursor and nothing else, keeps the columns of the table, removes
    no stored id and keeps distinct ids distinct. *)
Theorem sync_entity_data_deal_frame (limit max_pages : Z) (d : db)
        (remote : list (Z * call_outcome)) :
  sync_frame ENTITY_KEY "b24_crm_deal" d
    (pass_db (sync_entity_data_deal limit max_pages d remote)).
Proof.
  unfold sync_entity_data_deal.
  destruct (tables d !! "b24_crm_deal") as [t|]; [|apply sync_frame_refl].
  pose proof (sync_frame_validate ENTITY_KEY "b24_crm_deal" d) as Hv.
  destruct (validate_sync_cursor d ENTITY_KEY "b24_crm_deal") as [d0 c0].
  simpl in Hv.
  set (colmap := load_entity_colmap d ENTITY_KEY).
  set (co := deal_col_order colmap t). set (has := has_assigned_by_name_col t).
  pose proof (forward_pass_frame "b24_crm_deal" colmap co has limit remote d0 c0 0)
    as Hf.
  destruct (forward_pass "b24_crm_deal" colmap co has limit d0 c0 0 remote)
    as [d1 total rest reqs|d1 reqs]; simpl in Hf;
    [|simpl; by eapply sync_frame_trans].
  pose proof (today_pass_sync_frame "b24_crm_deal" colmap co has max_pages rest
                d1 0 0 total) as Ht.
  destruct (today_pass "b24_crm_deal" colmap co has max_pages d1 0 0 total rest);
    simpl in *;
    (eapply sync_frame_trans; [exact Hv|]; by eapply sync_frame_trans).
Qed.

(** X26: a page without records ends the sync of contacts, leads and
    smart-process items at once.  When the first answer gives an empty
    page (the overload answer does, after the list helper's guard), the
    sync sends that one request, starting from the validated cursor
    [c0], reports 0 rows, leaves every table as it is and stores the
    cursor [c0], or 0 when [c0] is negative. *)
Theorem empty_page_ends_sync (e : entity) (limit : Z) (d : db) (tn : string)
        (t : table) (now : Z) (resp : pyval) (nxt : option Z)
        (rest : list (Z * call_outcome)) :
  table_name_for_entity (entity_key_of e) = Some tn ->
  tables d !! tn = Some t ->
  (list_helper_answer resp ≫= normalize_list_result) = Some ([], nxt) ->
  let c0 := (validate_sync_cursor d (entity_key_of e) tn).2 in
  exists d',
    sync_entity_data e limit d ((now, Returned resp) :: rest)
    = Finished d' 0 [c0]
    /\ tables d' = tables d
    /\ get_sync_cursor d' (entity_key_of e) = Z.max c0 0.
Proof.
  intros Htn Ht Hpage c0. unfold sync_entity_data. rewrite Htn, Ht.
  assert (Hvt : tables (validate_sync_cursor d (entity_key_of e) tn).1 = tables d).
  { unfold validate_sync_cursor. destruct (_ =? 0); [done|]. rewrite Ht.
    by destruct (_ <? _). }
  subst c0. destruct (validate_sync_cursor d (entity_key_of e) tn) as [d0 c0].
  simpl in *. unfold sync_step. rewrite Hpage. simpl.
  eexists. split; [done|]. split; [done|].
  rewrite get_after_set. destruct (0 <? c0) eqn:E.
  - apply Z.ltb_lt in E. lia.
  - apply Z.ltb_ge in E. lia.
Qed.

End sync_frame_facts.

Lemma sync_entity_data_frame_witness :
  Invariant.sync_frame "contact" "b24_crm_contact" Demo.fresh_db
    (Sync.db_of (Sync.sync_entity_data (B := Demo.builtins) Sync.Contact 0
                   Demo.fresh_db [(100, Client.Returned Demo.last_page)])).
Proof.
  apply (sync_entity_data_frame (B := Demo.builtins) Sync.Contact 0 Demo.fresh_db
           [(100, Client.Returned Demo.last_page)] "b24_crm_contact").
  reflexivity.
Defined.

Lemma empty_page_ends_sync_witness :
  exists d',
    Sync.sync_entity_data (B := Demo.builtins) Sync.Contact 0 Demo.fresh_db
      [(100, Client.Returned Client.overload_result)]
    = Sync.Finished d' 0 [7]
    /\ Db.tables d' = Db.tables Demo.fresh_db
    /\ Cursor.get_sync_cursor d' "contact" = 7.
Proof.
  apply (empty_page_ends_sync (B := Demo.builtins) Sync.Contact 0 Demo.fresh_db
           "b24_crm_contact" Demo.contact_table 100 Client.overload_result None []).
  - reflexivity.
  - reflexivity.
  - reflexivity.
Defined.

(** ** The values of a mapped row *)

Section row_value_facts.
Import PyStr Py Db Normalize Mapping Sync Deal Invariant.
Context {B : Builtins}.

Lemma normalize_value_adaptable v ty m : adaptable (normalize_value v ty m).
Proof.
  rewrite normalize_value_is_second. unfold adaptable, normalize_value_2.
  destruct m; [by destruct v|].
  destruct (is_dict_or_list v) eqn:E; [done|].
  destruct (is_blank_str v); [|done].
  destruct ty as [t|]; [|done]. by destruct (_ || _).
Qed.

Lemma fill_row_adaptable style colmap it : forall r : gmap string pyval,
  map_Forall (fun _ v => adaptable v) r ->
  map_Forall (fun _ v => adaptable v) (fill_row style colmap it r).
Proof.
  unfold fill_row. induction colmap as [|m colmap IH]; intros r Hr; [done|].
  simpl foldl. apply IH.
  destruct (field_value style it (mf_b24_field m)); try done;
    (apply map_Forall_insert_2; [apply normalize_value_adaptable|done]).
Qed.

Lemma row_values_adaptable co (r : gmap string pyval) :
  map_Forall (fun _ v => adaptable v) r -> Forall adaptable (row_values co r).
Proof.
  intros Hr. unfold row_values. apply Forall_fmap, Forall_forall.
  intros c _. simpl. destruct (r !! c) as [v|] eqn:E; [|done].
  by apply (Hr c).
Qed.

Lemma first_row_adaptable (it : item) z :
  map_Forall (fun _ v => adaptable v)
    (<["raw" := PJson (PDict it)]> (<["id" := PInt z]> (∅ : gmap string pyval))).
Proof.
  apply map_Forall_insert_2; [done|].
  apply map_Forall_insert_2; [done|]. apply map_Forall_empty.
Qed.

(** X27: the rows the sync hands to [upsert_rows] hold nothing the
    database adapter cannot take: in every row built from a page of
    contacts, leads or smart-process items, and in every row built from a
    page of deals, no value is a bare dict or list; such values have been
    wrapped in [Json] by [normalize_value]. *)
Theorem built_rows_adaptable (e : entity) (colmap : list meta_field)
        (co : list string) (has : bool) (items : list item) :
  (forall rows, build_rows e colmap co items = Some rows ->
                Forall (Forall adaptable) rows)
  /\ (forall rows, build_batch colmap co has items = Some rows ->
                   Forall (Forall adaptable) rows).
Proof.
  split.
  - induction items as [|it items IH]; intros rows; simpl.
    { by intros [= <-]. }
    destruct (negb (truthy (item_id e it))); [apply IH|].
    destruct (py_int (item_id e it)) as [z|]; [|done]. simpl.
    destruct (build_rows e colmap co items) as [tl|]; [|done]. simpl.
    intros [= <-]. constructor; [|by apply IH].
    apply row_values_adaptable, fill_row_adaptable, first_row_adaptable.
  - induction items as [|it items IH]; intros rows; simpl.
    { by intros [= <-]. }
    destruct (build_row_from_item colmap co has it) as [r|] eqn:Er; [|done].
    simpl. destruct (build_batch colmap co has items) as [tl|]; [|done].
    simpl. intros [= <-]. specialize (IH tl eq_refl).
    destruct r as [[|v vals]|]; [done| |done].
    constructor; [|done].
    unfold build_row_from_item in Er.
    destruct (negb (truthy _)); [done|].
    destruct (py_int _) as [z|]; [|done]. simpl in Er.
    destruct (has && _).
    + destruct (assigned_by_name it) as [a|] eqn:Ea; [|done]. simpl in Er.
      injection Er as Er. rewrite <- Er.
      apply row_values_adaptable, map_Forall_insert_2.
      * unfold assigned_by_name in Ea.
        destruct (if dict_has it "ASSIGNED_BY_NAME" then _ else _) as [x|];
          [|done].
        simpl in Ea. injection Ea as <-. by destruct (truthy x).
      * apply fill_row_adaptable, first_row_adaptable.
    + simpl in Er. injection Er as Er. rewrite <- Er.
      apply row_values_adaptable, fill_row_adaptable, first_row_adaptable.
Qed.

End row_value_facts.

(** ** Field titles *)

Section title_facts.
Import PyStr Py Titles.







End title_facts.
